(** * PA_XmasTree: marker scaling and star glyphs of the protected-areas map

    A shallow embedding of [vietnam_protected_areas_viz.py]:
    - [calculate_star_sizes] (square-root marker scaling),
    - the star-glyph part of [create_visualization] (four [ax.scatter] layers
      and the sparkle loop),
    - [fetch_vietnam_boundary] (loading of the boundary file),
    - the bundled table of [fetch_wdpa_vietnam],
    - [create_soft_watercolor_tree] (the patches of the tree, drawn with the
      generator of [np.random]),
    - the labels and the axis limits that end [create_visualization],
    - [main] (what it writes, and in which order).

    The numeric code is written once, over the interface [Numeric] of the
    numpy operations it calls, and read at two carriers:
    - [Binary64.binary64]: IEEE 754 binary64 with round-to-nearest-even, the
      arithmetic of numpy's float64 (Rocq's primitive floats); it evaluates.
    - [Exact.exact]: the real numbers extended with the IEEE special values
      (infinities and NaN), the same operations without rounding.
    Python exceptions are values of [exn] carried by [result].  The [print]
    statements are left out: they change neither a result nor an
    exception. *)

From Stdlib Require Import Reals Lra Lia ZArith String List Bool.
From Stdlib Require Import Permutation Sorted.
From Stdlib Require PrimFloat Uint63.
Import ListNotations.

Set Implicit Arguments.

(** ** Exceptions *)

Inductive exn : Type :=
| ValueError
| IndexError
| AttributeError
| ZeroDivisionError
| OverflowError
| IOError
| Exception (msg : string).

Inductive result (T : Type) : Type :=
| Ok (v : T)
| Raise (e : exn).

Arguments Ok {T} v.
Arguments Raise {T} e.

Definition bind {T U : Type} (m : result T) (k : T -> result U) : result U :=
  match m with
  | Ok v => k v
  | Raise e => Raise e
  end.

Notation "x <- m ;; k" := (bind m (fun x => k))
  (at level 61, m at next level, right associativity).

Definition is_ok {T : Type} (m : result T) : bool :=
  match m with Ok _ => true | Raise _ => false end.

(** ** The numpy operations the script uses *)

Class Numeric (A : Type) : Type := {
  of_Z : Z -> A;
  np_add : A -> A -> A;
  np_subtract : A -> A -> A;
  np_multiply : A -> A -> A;
  np_divide : A -> A -> A;
  np_sqrt : A -> A;
  np_minimum : A -> A -> A;
  np_maximum : A -> A -> A
}.

Declare Scope np_scope.
Delimit Scope np_scope with np.
Infix "+" := np_add : np_scope.
Infix "-" := np_subtract : np_scope.
Infix "*" := np_multiply : np_scope.
Infix "/" := np_divide : np_scope.

(** [np.pi], [np.cos] and [np.sin], used by the sparkle loop only. *)
Class Trig (A : Type) : Type := {
  np_pi : A;
  np_cos : A -> A;
  np_sin : A -> A
}.

Section Scaling.

Context {A : Type} {N : Numeric A}.

Local Open Scope np_scope.

(** A decimal literal [p/q] of the source (2.5 is [lit 25 10]). *)
Definition lit (p q : Z) : A := of_Z p / of_Z q.

(** [a.min()] and [a.max()]: a reduction with [np.minimum] / [np.maximum];
    numpy raises ValueError on an array of size zero. *)
Definition amin (a : list A) : result A :=
  match a with
  | [] => Raise ValueError
  | x :: xs => Ok (fold_left np_minimum xs x)
  end.

Definition amax (a : list A) : result A :=
  match a with
  | [] => Raise ValueError
  | x :: xs => Ok (fold_left np_maximum xs x)
  end.

(** [calculate_star_sizes(areas, min_size=80, max_size=1000)]. *)
Definition calculate_star_sizes (areas : list A) (min_size max_size : A)
  : result (list A) :=
  let sqrt_areas := map np_sqrt areas in
  min_sqrt <- amin sqrt_areas ;;
  max_sqrt <- amax sqrt_areas ;;
  let normalized :=
    map (fun s => (s - min_sqrt) / (max_sqrt - min_sqrt)) sqrt_areas in
  let sizes :=
    map (fun n => min_size + n * (max_size - min_size)) normalized in
  Ok sizes.

Definition default_min_size : A := of_Z 80.
Definition default_max_size : A := of_Z 1000.

End Scaling.

(** ** IEEE 754 binary64 (numpy float64) *)

Module Binary64.

Definition float_of_Z (z : Z) : PrimFloat.float :=
  match z with
  | Z0 => PrimFloat.zero
  | Zpos _ => PrimFloat.of_uint63 (Uint63.of_Z z)
  | Zneg p => PrimFloat.opp (PrimFloat.of_uint63 (Uint63.of_Z (Zpos p)))
  end.

(** numpy: [minimum(x, y) = (x < y || isnan(x)) ? x : y], and dually. *)
Definition minimum (x y : PrimFloat.float) : PrimFloat.float :=
  if PrimFloat.ltb x y || PrimFloat.is_nan x then x else y.

Definition maximum (x y : PrimFloat.float) : PrimFloat.float :=
  if PrimFloat.ltb y x || PrimFloat.is_nan x then x else y.

(** [np.pi], the float64 nearest to pi. *)
Definition pi64 : PrimFloat.float :=
  Eval cbv in PrimFloat.div (float_of_Z 7074237752028440) (float_of_Z (2 ^ 51)).

#[export] Instance binary64 : Numeric PrimFloat.float := {
  of_Z := float_of_Z;
  np_add := PrimFloat.add;
  np_subtract := PrimFloat.sub;
  np_multiply := PrimFloat.mul;
  np_divide := PrimFloat.div;
  np_sqrt := PrimFloat.sqrt;
  np_minimum := minimum;
  np_maximum := maximum
}.

(** [np.cos] and [np.sin] call the C library, which the primitive floats do
    not provide: they are parameters of the binary64 reading. *)
Definition trig64 (cos64 sin64 : PrimFloat.float -> PrimFloat.float)
  : Trig PrimFloat.float :=
  {| np_pi := pi64; np_cos := cos64; np_sin := sin64 |}.

End Binary64.

(** ** Exact arithmetic: reals with the IEEE special values *)

Module Exact.

Local Open Scope R_scope.

Inductive xreal : Type :=
| Fin (r : R)
| PInf
| NInf
| NaN.

Definition Rltb (a b : R) : bool := if Rlt_dec a b then true else false.
Definition Reqb (a b : R) : bool := if Req_dec_T a b then true else false.

Definition xopp (x : xreal) : xreal :=
  match x with
  | Fin r => Fin (- r)
  | PInf => NInf
  | NInf => PInf
  | NaN => NaN
  end.

Definition xadd (x y : xreal) : xreal :=
  match x, y with
  | NaN, _ | _, NaN => NaN
  | PInf, NInf | NInf, PInf => NaN
  | PInf, _ | _, PInf => PInf
  | NInf, _ | _, NInf => NInf
  | Fin a, Fin b => Fin (a + b)
  end.

Definition xsub (x y : xreal) : xreal := xadd x (xopp y).

(** The infinity of the sign of [r] (zero counts as positive). *)
Definition signed_inf (r : R) : xreal := if Rltb r 0 then NInf else PInf.

Definition xmul (x y : xreal) : xreal :=
  match x, y with
  | NaN, _ | _, NaN => NaN
  | Fin a, Fin b => Fin (a * b)
  | PInf, PInf | NInf, NInf => PInf
  | PInf, NInf | NInf, PInf => NInf
  | PInf, Fin r | Fin r, PInf => if Reqb r 0 then NaN else signed_inf r
  | NInf, Fin r | Fin r, NInf => if Reqb r 0 then NaN else xopp (signed_inf r)
  end.

Definition xdiv (x y : xreal) : xreal :=
  match x, y with
  | NaN, _ | _, NaN => NaN
  | Fin a, Fin b =>
      if Reqb b 0 then (if Reqb a 0 then NaN else signed_inf a)
      else Fin (a / b)
  | Fin _, PInf | Fin _, NInf => Fin 0
  | PInf, Fin r => signed_inf r
  | NInf, Fin r => xopp (signed_inf r)
  | PInf, PInf | PInf, NInf | NInf, PInf | NInf, NInf => NaN
  end.

Definition xsqrt (x : xreal) : xreal :=
  match x with
  | Fin r => if Rltb r 0 then NaN else Fin (sqrt r)
  | PInf => PInf
  | NInf => NaN
  | NaN => NaN
  end.

Definition is_nan (x : xreal) : bool :=
  match x with NaN => true | _ => false end.

Definition xltb (x y : xreal) : bool :=
  match x, y with
  | NaN, _ | _, NaN => false
  | Fin a, Fin b => Rltb a b
  | NInf, NInf | PInf, _ | _, NInf => false
  | NInf, _ | _, PInf => true
  end.

Definition minimum (x y : xreal) : xreal :=
  if xltb x y || is_nan x then x else y.

Definition maximum (x y : xreal) : xreal :=
  if xltb y x || is_nan x then x else y.

#[export] Instance exact : Numeric xreal := {
  of_Z := fun z => Fin (IZR z);
  np_add := xadd;
  np_subtract := xsub;
  np_multiply := xmul;
  np_divide := xdiv;
  np_sqrt := xsqrt;
  np_minimum := minimum;
  np_maximum := maximum
}.

Definition xtrig (f : R -> R) (x : xreal) : xreal :=
  match x with
  | Fin r => Fin (f r)
  | _ => NaN
  end.

#[export] Instance exact_trig : Trig xreal := {
  np_pi := Fin PI;
  np_cos := xtrig cos;
  np_sin := xtrig sin
}.

(** Closed form of one element of [calculate_star_sizes], from its square
    root [s] between [lo] and [hi]: the interpolation when [lo < hi], NaN
    (zero over zero) when [lo = hi]. *)
Definition interpolate (lo hi mn mx s : R) : xreal :=
  if Req_dec_T hi lo then NaN
  else Fin (mn + (s - lo) / (hi - lo) * (mx - mn)).

End Exact.

(** ** Python's float operations and [np.isfinite]

    Besides the numpy operations of [Numeric] the script uses Python's unary
    minus and, through the builtin [min], the comparison [<] of floats;
    [np.random.uniform] and the axis limits of matplotlib test their
    arguments with [np.isfinite]. *)

Class PyFloat (A : Type) : Type := {
  py_neg : A -> A;
  py_lt : A -> A -> bool;
  np_isfinite : A -> bool
}.

#[export] Instance py_binary64 : PyFloat PrimFloat.float := {
  py_neg := PrimFloat.opp;
  py_lt := PrimFloat.ltb;
  np_isfinite := PrimFloat.is_finite
}.

Definition xisfinite (x : Exact.xreal) : bool :=
  match x with
  | Exact.Fin _ => true
  | _ => false
  end.

#[export] Instance py_exact : PyFloat Exact.xreal := {
  py_neg := Exact.xopp;
  py_lt := Exact.xltb;
  np_isfinite := xisfinite
}.

(** ** The bundled table of [fetch_wdpa_vietnam] *)

Section Dataset.

Context {A : Type} {N : Numeric A}.

Local Open Scope string_scope.

(** One row of the protected-areas frame, with its label in the index of
    the frame (what [iterrows] yields beside the row); its geometry is
    [Point(lon, lat)].  The labels are integers: a frame built by
    [pd.DataFrame(dict)] has the default index 0, 1, ..., and a frame
    filtered or sorted from it keeps the labels of its rows. *)
Record pa_row : Type := {
  index_label : Z;
  name : string;
  lat : A;
  lon : A;
  area_km2 : A
}.

Definition geometry_x (r : pa_row) : A := lon r.
Definition geometry_y (r : pa_row) : A := lat r.

(** The columns [name], [lat], [lon] (in hundredths of a degree) and
    [area_km2] of the dictionary [protected_areas]. *)
Definition protected_areas : list (string * Z * Z * Z) :=
  [ ("VQG Ba Bể", 2225, 10562, 100);
    ("VQG Cát Tiên", 1145, 10743, 720);
    ("VQG Phong Nha-Kẻ Bàng", 1760, 10628, 857);
    ("VQG Cúc Phương", 2030, 10567, 222);
    ("VQG Tam Đảo", 2148, 10563, 368);
    ("VQG Ba Vì", 2107, 10537, 108);
    ("VQG Xuân Sơn", 2112, 10495, 155);
    ("VQG Hoàng Liên", 2237, 10378, 298);
    ("VQG Yok Đôn", 1292, 10775, 1156);
    ("VQG Bidoup - Núi Bà", 1218, 10868, 650);
    ("VQG Côn Đảo", 868, 10660, 76);
    ("VQG Phú Quốc", 1022, 10400, 314);
    ("VQG Tràm Chim", 1075, 10552, 75);
    ("VQG U Minh Thượng", 958, 10507, 82);
    ("VQG Mũi Cà Mau", 860, 10478, 410);
    ("KDTSQ Cần Giờ", 1040, 10693, 757);
    ("VQG Bạch Mã", 1620, 10785, 220);
    ("VQG Núi Chúa", 1170, 10915, 295);
    ("VQG Chư Yang Sin", 1442, 10837, 589);
    ("VQG Xuân Thủy", 2022, 10655, 71);
    ("VQG Vũ Quang", 1833, 10537, 552);
    ("VQG Bến En", 1958, 10548, 166);
    ("VQG Pù Mát", 1897, 10508, 912);
    ("VQG Bù Gia Mập", 1183, 10720, 260);
    ("VQG Lò Gò - Xa Mát", 1152, 10648, 185) ]%Z.

(** The frame of the dictionary, with the default index. *)
Definition fetch_wdpa_vietnam : list pa_row :=
  map (fun '(i, (n, la, lo, a)) =>
         {| index_label := Z.of_nat i; name := n; lat := lit la 100;
            lon := lit lo 100; area_km2 := of_Z a |})
      (combine (seq 0 (length protected_areas)) protected_areas).

(** A frame has the default index when the label of each row is its
    position. *)
Definition default_index (gdf : list pa_row) : Prop :=
  map index_label gdf = map Z.of_nat (seq 0 (length gdf)).

End Dataset.

Arguments pa_row A : clear implicits.

(** ** [fetch_vietnam_boundary] *)

Section Boundary.

(** A coordinate pair, and the geometries of shapely the function tells
    apart: a polygon (its exterior ring), a multi-polygon (its polygons), and
    any other geometry, which has no [exterior]. *)
Variable coord : Type.

Inductive geometry : Type :=
| Polygon (exterior : list coord)
| MultiPolygon (geoms : list (list coord))
| OtherGeometry (geom_type : string).

(** The geometry column of a GeoDataFrame. *)
Definition GeoDataFrame : Type := list geometry.

(** The file system and the libraries: [os.path.exists], [gpd.read_file]
    (which may raise) and shapely's [simplify(tolerance=0.03,
    preserve_topology=True)]. *)
Variable path_exists : string -> bool.
Variable read_file : string -> result GeoDataFrame.
Variable simplify : geometry -> geometry.

(** [gdf.geometry.iloc[0]]. *)
Definition iloc0 (gdf : GeoDataFrame) : result geometry :=
  match gdf with
  | [] => Raise IndexError
  | g :: _ => Ok g
  end.

(** The coordinate count of the first geometry (both counting blocks). *)
Definition count_coords (gdf : GeoDataFrame) : result nat :=
  g <- iloc0 gdf ;;
  match g with
  | MultiPolygon polys =>
      Ok (fold_left (fun total poly => total + length poly)%nat polys 0%nat)
  | Polygon exterior => Ok (length exterior)
  | OtherGeometry _ => Raise AttributeError
  end.

(** [reduction = (1 - simplified_coords/total_coords) * 100]: only its
    exception matters, the value is printed. *)
Definition reduction (simplified_coords total_coords : nat) : result unit :=
  match total_coords with
  | O => Raise ZeroDivisionError
  | S _ => Ok tt
  end.

Definition boundary_not_found : exn :=
  Exception "Không tìm thấy file ranh giới Việt Nam!"%string.

(** The body of the [try] block: [Ok (Some gdf)] is [return gdf],
    [Ok None] is falling out of the [if]. *)
Definition try_load (gadm_file : string) : result (option GeoDataFrame) :=
  if path_exists gadm_file then
    gdf <- read_file gadm_file ;;
    total_coords <- count_coords gdf ;;
    let gdf := map simplify gdf in
    simplified_coords <- count_coords gdf ;;
    _ <- reduction simplified_coords total_coords ;;
    Ok (Some gdf)
  else Ok None.

(** [except Exception] swallows whatever the block raised; both that path
    and the missing file reach the final [raise]. *)
Definition fetch_vietnam_boundary (gadm_file : string) : result GeoDataFrame :=
  match try_load gadm_file with
  | Ok (Some gdf) => Ok gdf
  | Ok None => Raise boundary_not_found
  | Raise _ => Raise boundary_not_found
  end.

End Boundary.

(** The geometries with an [exterior] or [geoms], and those among them
    with a coordinate to count. *)
Definition polygonal (coord : Type) (g : geometry coord) : Prop :=
  match g with
  | OtherGeometry _ _ => False
  | _ => True
  end.

Definition has_coords (coord : Type) (g : geometry coord) : Prop :=
  match g with
  | Polygon exterior => exterior <> []
  | MultiPolygon geoms => exists poly, In poly geoms /\ poly <> []
  | OtherGeometry _ _ => False
  end.

(** ** The star glyphs of [create_visualization] *)

(** The markers ['*'] and ['o']. *)
Inductive marker : Type :=
| Star
| Circle.

(** A colour argument: a row of the colormap array, a named or hexadecimal
    colour (['white'], ['#34495e']), or ['none']. *)
Inductive color (rgba : Type) : Type :=
| RGBA (c : rgba)
| Named (spec : string)
| NoColor.

Arguments RGBA {rgba} c.
Arguments Named {rgba} spec.
Arguments NoColor {rgba}.

(** An argument of [ax.scatter] that is a scalar or one value per point. *)
Inductive arg (T : Type) : Type :=
| Scalar (v : T)
| Array (vs : list T).

Arguments Scalar {T} v.
Arguments Array {T} vs.

Fixpoint mapM {X Y : Type} (f : X -> result Y) (l : list X) : result (list Y) :=
  match l with
  | [] => Ok []
  | x :: xs => y <- f x ;; ys <- mapM f xs ;; Ok (y :: ys)
  end.

Section Glyphs.

Context {A : Type} {N : Numeric A} {T : Trig A} {P : PyFloat A}.
Variable rgba : Type.

(** What [ax.scatter] makes of an array argument whose length is not the
    number of points: matplotlib accepts some of them (an array of one size,
    a single RGBA row) and raises ValueError for others.  The script passes
    [star_sizes] and [colors], which have one entry per row. *)
Variable scatter_other : forall X : Type, nat -> list X -> result (list X).

Local Open Scope np_scope.

(** One marker of a scatter collection, as the rendering surface gets it. *)
Record primitive : Type := {
  px : A;
  py : A;
  size : A;
  fill : color rgba;
  shape : marker;
  edgecolor : color rgba;
  linewidth : option A;
  alpha : A;
  zorder : Z
}.

Definition broadcast {X : Type} (n : nat) (a : arg X) : result (list X) :=
  match a with
  | Scalar v => Ok (repeat v n)
  | Array vs => if Nat.eqb (length vs) n then Ok vs else scatter_other n vs
  end.

(** [ax.scatter(x, y, s=, c=, marker=, edgecolors=, linewidths=, alpha=,
    zorder=)]: one marker per point, in the order of the points; [x] and [y]
    of different sizes are a ValueError. *)
Definition scatter (x y : list A) (s : arg A) (c : arg (color rgba))
  (mk : marker) (edgecolors : color rgba) (linewidths : option A)
  (alpha_ : A) (zorder_ : Z) : result (list primitive) :=
  if Nat.eqb (length x) (length y) then
    ss <- broadcast (length x) s ;;
    cs <- broadcast (length x) c ;;
    Ok (map (fun '(x_, y_, s_, c_) =>
               {| px := x_; py := y_; size := s_; fill := c_; shape := mk;
                  edgecolor := edgecolors; linewidth := linewidths;
                  alpha := alpha_; zorder := zorder_ |})
            (combine (combine (combine x y) ss) cs))
  else Raise ValueError.

(** [star_sizes[idx]] on a numpy array of one dimension: an integer from
    [-len] up to [len - 1] is an index, counted from the end when negative;
    any other raises IndexError. *)
Definition getitem (a : list A) (idx : Z) : result A :=
  let n := Z.of_nat (length a) in
  if (0 <=? idx)%Z && (idx <? n)%Z then
    match nth_error a (Z.to_nat idx) with
    | Some v => Ok v
    | None => Raise IndexError
    end
  else if (- n <=? idx)%Z && (idx <? 0)%Z then
    match nth_error a (Z.to_nat (n + idx)) with
    | Some v => Ok v
    | None => Raise IndexError
    end
  else Raise IndexError.

(** [tip_radius = np.sqrt(size / np.pi) * 0.6]. *)
Definition tip_radius (size_ : A) : A := np_sqrt (size_ / np_pi) * lit 6 10.

(** [angle = i * 2 * np.pi / 5 + np.pi/2]. *)
Definition tip_angle (i : Z) : A :=
  of_Z (i * 2) * np_pi / of_Z 5 + np_pi / of_Z 2.

(** One iteration of [for idx, row in gdf_pa.iterrows()], for the row at
    position [k]: [idx] is the label of the row, and [star_sizes[idx]] reads
    the array of sizes at that label.  The five markers are paired with the
    position of the row. *)
Definition sparkle_points (star_sizes : list A) (k : nat) (row : pa_row A)
  : result (list (nat * primitive)) :=
  let idx := index_label row in
  size_ <- getitem star_sizes idx ;;
  let x := geometry_x row in
  let y := geometry_y row in
  let r := tip_radius size_ in
  tips <- mapM (fun i =>
            let angle := tip_angle i in
            let tip_x := x + r * np_cos angle in
            let tip_y := y + r * np_sin angle in
            scatter [tip_x] [tip_y] (Scalar (size_ * lit 8 100))
                    (Scalar (Named "white")) Circle NoColor None
                    (lit 7 10) 12)
          [0; 1; 2; 3; 4]%Z ;;
  Ok (map (pair k) (concat tips)).

(** The markers of a whole-frame scatter, paired with the position of their
    row. *)
Definition by_row (ms : list primitive) : list (nat * primitive) :=
  combine (seq 0 (length ms)) ms.

(** The glyph statements of [create_visualization] (the four layered
    scatters and the sparkle loop), as a function of the locals they read:
    [gdf_pa], [star_sizes] and [colors].  The result lists the markers in the
    order they are added to the axes. *)
Definition scatter_star_glyphs (gdf_pa : list (pa_row A)) (star_sizes : list A)
  (colors : list rgba) : result (list (nat * primitive)) :=
  let xs := map geometry_x gdf_pa in
  let ys := map geometry_y gdf_pa in
  outer <- scatter xs ys (Array (map (fun s => s * lit 25 10) star_sizes))
             (Array (map RGBA colors)) Star NoColor (Some (of_Z 0))
             (lit 15 100) 8 ;;
  medium <- scatter xs ys (Array (map (fun s => s * lit 18 10) star_sizes))
              (Array (map RGBA colors)) Star NoColor (Some (of_Z 0))
              (lit 25 100) 9 ;;
  inner <- scatter xs ys (Array (map (fun s => s * lit 13 10) star_sizes))
             (Scalar (Named "white")) Star NoColor (Some (of_Z 0))
             (lit 35 100) 10 ;;
  main_star <- scatter xs ys (Array star_sizes)
                 (Array (map RGBA colors)) Star (Named "#34495e")
                 (Some (lit 12 10)) (lit 95 100) 11 ;;
  sparkles <- mapM (fun '(k, row) => sparkle_points star_sizes k row)
                (combine (seq 0 (length gdf_pa)) gdf_pa) ;;
  Ok (by_row outer ++ by_row medium ++ by_row inner ++ by_row main_star
      ++ concat sparkles).

(** The markers of the glyph of the row at position [k], in drawing
    order. *)
Definition glyph (k : nat) (drawn : list (nat * primitive)) : list primitive :=
  map snd (filter (fun rm => Nat.eqb (fst rm) k) drawn).

(** *** The glyph of the spec

    The source has no function of one glyph; the spec describes one,
    [renderGlyph(center, baseSize, color)].  It is written here from the
    spec's words, to be compared with [glyph k] of the markers the source
    draws: a sparkle dot at tip [i] (at the angle [i * 2 pi / 5 + pi / 2]
    and the radius [sqrt(baseSize / pi) * 0.6] from the centre), a star
    layer, and the sequence of four star layers and five dots. *)
Definition sparkle_dot (x y base : A) (i : Z) : primitive :=
  let theta := of_Z (i * 2) * np_pi / of_Z 5 + np_pi / of_Z 2 in
  let r := np_sqrt (base / np_pi) * lit 6 10 in
  {| px := x + r * np_cos theta;
     py := y + r * np_sin theta;
     size := base * lit 8 100; fill := Named "white"; shape := Circle;
     edgecolor := NoColor; linewidth := None; alpha := lit 7 10;
     zorder := 12 |}.

Definition star_layer (x y size_ : A) (fill_ edge : color rgba) (lw alpha_ : A)
  (zorder_ : Z) : primitive :=
  {| px := x; py := y; size := size_; fill := fill_; shape := Star;
     edgecolor := edge; linewidth := Some lw; alpha := alpha_;
     zorder := zorder_ |}.

Definition render_glyph (x y base : A) (c : rgba) : list primitive :=
  [ star_layer x y (base * lit 25 10) (RGBA c) NoColor (of_Z 0) (lit 15 100) 8;
    star_layer x y (base * lit 18 10) (RGBA c) NoColor (of_Z 0) (lit 25 100) 9;
    star_layer x y (base * lit 13 10) (Named "white") NoColor (of_Z 0)
               (lit 35 100) 10;
    star_layer x y base (RGBA c) (Named "#34495e") (lit 12 10) (lit 95 100) 11 ]
  ++ map (sparkle_dot x y base) [0; 1; 2; 3; 4]%Z.

(** *** The figure *)

Variable rng : Type.
Variable patch : Type.
Variable coord : Type.

(** [np.random.seed], and what [create_soft_watercolor_tree] adds with
    [ax.add_patch] after seeding, drawing from the generator; it raises
    when a draw does. *)
Variable seed : Z -> rng.
Variable tree_patches : rng -> A * A * A * A -> result (list patch * rng).

(** geopandas, pandas and matplotlib: [gdf.total_bounds], [Series.min],
    [Series.max], [plt.Normalize(vmin, vmax)] and [plt.cm.YlOrRd]. *)
Variable total_bounds : GeoDataFrame coord -> A * A * A * A.
Variable series_min : list A -> A.
Variable series_max : list A -> A.
Variable Normalize : A -> A -> A -> A.
Variable YlOrRd : A -> rgba.

Inductive artist : Type :=
| TreePatch (p : patch)
| BoundaryPlot (gdf : GeoDataFrame coord)
| Marker (row : nat) (m : primitive).

(** The generator state on entry is overwritten by [np.random.seed(42)]. *)
Definition create_soft_watercolor_tree (g : rng) (bounds : A * A * A * A)
  : result (list patch * rng) :=
  tree_patches (seed 42) bounds.

(** The arguments of [ax.set_xlim] and [ax.set_ylim], from
    [bounds = [minx, miny, maxx, maxy]]. *)
Definition axis_limits (bounds : A * A * A * A) : (A * A) * (A * A) :=
  let '(b0, b1, b2, b3) := bounds in
  let x_padding := (b2 - b0) * lit 5 100 in
  let y_padding := (b3 - b1) * lit 5 100 in
  ((b0 - x_padding, b2 + x_padding), (b1 - y_padding, b3 + y_padding)).

(** [ax.set_xlim(left, right)] and [ax.set_ylim(bottom, top)]: matplotlib
    raises ValueError for a limit that is NaN or infinite. *)
Definition set_lim (limits : A * A) : result unit :=
  let '(lo, hi) := limits in
  if np_isfinite lo && np_isfinite hi then Ok tt else Raise ValueError.

(** [create_visualization]: the artists on the axes in the order added (the
    patches of the tree, the boundary plot, the markers) and the generator
    state.  After the sparkle loop the function adds the labels (see
    [annotations]) and the title, which are texts, and sets the axes; of
    these statements only the axis limits depend on the data in a way that
    can raise. *)
Definition create_visualization (g : rng) (gdf_pa : list (pa_row A))
  (gdf_boundary : GeoDataFrame coord) : result (list artist * rng) :=
  let '(b0, b1, b2, b3) := total_bounds gdf_boundary in
  tree <- create_soft_watercolor_tree g (b0, b2, b1, b3) ;;
  let '(patches, g) := tree in
  let areas := map (@area_km2 A) gdf_pa in
  star_sizes <- calculate_star_sizes areas default_min_size default_max_size ;;
  let colors :=
    map (fun v => YlOrRd (Normalize (series_min areas) (series_max areas) v))
        areas in
  glyphs <- scatter_star_glyphs gdf_pa star_sizes colors ;;
  let '(xlim, ylim) := axis_limits (b0, b1, b2, b3) in
  _ <- set_lim xlim ;;
  _ <- set_lim ylim ;;
  Ok (map TreePatch patches ++ [BoundaryPlot gdf_boundary]
      ++ map (fun '(row, m) => Marker row m) glyphs, g).

(** The markers among the artists. *)
Definition markers_of (arts : list artist) : list (nat * primitive) :=
  flat_map (fun a => match a with Marker row m => [(row, m)] | _ => [] end) arts.

(** The markers a run of [create_visualization] has drawn. *)
Definition figure_markers (run : result (list artist * rng))
  : result (list (nat * primitive)) :=
  match run with
  | Ok (arts, _) => Ok (markers_of arts)
  | Raise e => Raise e
  end.

End Glyphs.

Arguments primitive A rgba : clear implicits.

Import Binary64 Exact.

(** ** [create_soft_watercolor_tree]

    The patches the function adds to the axes, drawn with the global
    generator of [np.random]. *)

(** [range(start, stop, step)] for a step that is not zero. *)
Definition py_range (start stop step : Z) : list Z :=
  let n := if (0 <? step)%Z then ((stop - start + step - 1) / step)%Z
           else ((start - stop - step - 1) / (- step))%Z in
  map (fun k => (start + Z.of_nat k * step)%Z) (seq 0 (Z.to_nat n)).

Section Tree.

Context {A : Type} {N : Numeric A} {T : Trig A} {P : PyFloat A}.

Local Open Scope np_scope.

(** The builtin [min(a, b)]: [b] when [b < a], else [a]. *)
Definition py_min (a b : A) : A := if py_lt b a then b else a.

(** The global generator of [np.random]: [random_sample] draws a double of
    [0, 1), and [choice_index n] the index [np.random.choice] picks in a
    sequence of [n] items. *)
Variable rng : Type.
Variable random_sample : rng -> A * rng.
Variable choice_index : nat -> rng -> nat * rng.

(** Statements that draw from the generator, and may raise. *)
Definition rand (X : Type) : Type := rng -> result (X * rng).

Definition ret {X : Type} (x : X) : rand X := fun g => Ok (x, g).

Definition rbind {X Y : Type} (m : rand X) (k : X -> rand Y) : rand Y :=
  fun g =>
    match m g with
    | Ok (x, g') => k x g'
    | Raise e => Raise e
    end.

Notation "x <~ m ;; k" := (rbind m (fun x => k))
  (at level 61, m at next level, right associativity).

(** [for x in xs: ys.append(body(x))]. *)
Fixpoint for_each {X Y : Type} (xs : list X) (body : X -> rand Y)
  : rand (list Y) :=
  match xs with
  | [] => ret []
  | x :: xs =>
      y <~ body x ;;
      ys <~ for_each xs body ;;
      ret (y :: ys)
  end.

(** [np.random.uniform(low, high)]: numpy raises OverflowError, before it
    draws, when the range [high - low] is not finite; otherwise the value
    is [low + range * random_sample()]. *)
Definition uniform (low high : A) : rand A :=
  let range := high - low in
  if np_isfinite range then
    fun g => let (u, g') := random_sample g in Ok (low + range * u, g')
  else fun _ => Raise OverflowError.

(** [np.random.choice(items)]. *)
Definition choice (items : list string) : rand string :=
  fun g =>
    let (i, g') := choice_index (length items) g in
    Ok (nth i items EmptyString, g').

(** Two statements draw alike when, from every state of the generator from
    which both return, they leave it in the same state and their results
    are related by [Q]. *)
Definition draw_alike {X Y : Type} (Q : X -> Y -> Prop) (m : rand X)
  (m' : rand Y) : Prop :=
  forall g x g1 y g2,
    m g = Ok (x, g1) -> m' g = Ok (y, g2) -> Q x y /\ g1 = g2.

(** A statement returns, with a result that satisfies [Q], from every state
    of the generator. *)
Definition returns {X : Type} (Q : X -> Prop) (m : rand X) : Prop :=
  forall g, exists x g', m g = Ok (x, g') /\ Q x.

(** Every exception a statement raises satisfies [E]. *)
Definition raises_only {X : Type} (E : exn -> Prop) (m : rand X) : Prop :=
  forall g e, m g = Raise e -> E e.

(** The patches of matplotlib the function creates; [edgecolor] is ['none']
    in each of them but the circles, whose [color] sets face and edge. *)
Inductive patch : Type :=
| Rectangle (xy : A * A) (width height : A) (facecolor : string)
    (alpha_ : A) (zorder_ : Z)
| MPLPolygon (xy : list (A * A)) (facecolor : string) (alpha_ : A)
    (zorder_ : Z)
| CirclePatch (xy : A * A) (radius : A) (color_ : string) (alpha_ : A)
    (zorder_ : Z)
| RegularPolygon (xy : A * A) (numVertices : Z) (radius orientation : A)
    (facecolor : string) (alpha_ : A) (zorder_ : Z).

(** The class of a patch, with the number of vertices of a polygon. *)
Inductive patch_kind : Type :=
| KRectangle
| KPolygon (vertices : nat)
| KCircle
| KRegularPolygon (numVertices : Z).

Definition kind_of (p : patch) : patch_kind :=
  match p with
  | Rectangle _ _ _ _ _ _ => KRectangle
  | MPLPolygon xy _ _ _ => KPolygon (length xy)
  | CirclePatch _ _ _ _ _ => KCircle
  | RegularPolygon _ n _ _ _ _ _ => KRegularPolygon n
  end.

Definition patch_zorder (p : patch) : Z :=
  match p with
  | Rectangle _ _ _ _ _ z | MPLPolygon _ _ _ z | CirclePatch _ _ _ _ z
  | RegularPolygon _ _ _ _ _ _ z => z
  end.

Definition patch_color (p : patch) : string :=
  match p with
  | Rectangle _ _ _ c _ _ | MPLPolygon _ c _ _ | CirclePatch _ _ c _ _
  | RegularPolygon _ _ _ _ c _ _ => c
  end.

Definition pine_greens : list string :=
  ["#a8c9a8"; "#9bc19b"; "#8eb88e"; "#b5d0b5";
   "#a3c5a3"; "#96bd96"; "#bad4ba"; "#9fc49f"]%string.

Definition dark_greens : list string :=
  ["#7aa67a"; "#6d9a6d"; "#87ad87"]%string.

Definition ornament_colors : list string :=
  ["#e74c3c"; "#f39c12"; "#3498db"; "#9b59b6";
   "#e67e22"; "#c0392b"; "#2980b9"; "#8e44ad"]%string.

Definition n_segments : Z := 15.
Definition n_edge_pts : Z := 15.
Definition n_clusters : Z := 60.
Definition n_ornaments : Z := 22.

(** The body of the trunk loop, [for i in range(3)]. *)
Definition trunk (center_x tree_base_y trunk_width trunk_height : A) (i : Z)
  : patch :=
  let trunk_color :=
    nth (Z.to_nat i) ["#8b7355"; "#9d8468"; "#a89176"]%string EmptyString in
  let offset := of_Z i * trunk_width * lit 8 100 in
  Rectangle (center_x - trunk_width / of_Z 2 + offset, tree_base_y)
            (trunk_width - offset * of_Z 2) trunk_height trunk_color
            (lit 25 100 - of_Z i * lit 5 100) 1.

(** The body of the segment loop, [for seg in range(n_segments)]: the left
    edge upwards, the top edge, the right edge downwards, the bottom
    edge. *)
Definition segment (center_x width height branch_base_y tree_top_y
                    tree_height tree_width_base : A) (seg : Z) : rand patch :=
  let seg_t := of_Z seg / of_Z n_segments in
  let y_bottom := branch_base_y + seg_t * (tree_top_y - branch_base_y) in
  let seg_height := tree_height / of_Z n_segments * lit 14 10 in
  let y_top := y_bottom + seg_height in
  let width_bottom := tree_width_base * (of_Z 1 - seg_t * lit 75 100) in
  let width_top :=
    tree_width_base
    * (of_Z 1 - py_min (of_Z 1) (seg_t + of_Z 1 / of_Z n_segments)
                * lit 75 100) in
  left_edge <~ for_each (py_range 0 n_edge_pts 1) (fun i =>
    let t := of_Z i / of_Z (n_edge_pts - 1) in
    let y := y_bottom + t * seg_height in
    let w := width_bottom + t * (width_top - width_bottom) in
    let x := center_x - w / of_Z 2 in
    dx <~ uniform (py_neg width * lit 15 1000) (width * lit 15 1000) ;;
    dy <~ uniform (py_neg height * lit 8 1000) (height * lit 8 1000) ;;
    ret (x + dx, y + dy)) ;;
  top_pts <~ for_each (py_range 0 5 1) (fun i =>
    let t := of_Z i / of_Z 4 in
    let x := center_x - width_top / of_Z 2 + t * width_top in
    dy <~ uniform (py_neg height * lit 8 1000) (height * lit 8 1000) ;;
    ret (x, y_top + dy)) ;;
  right_edge <~ for_each (py_range (n_edge_pts - 1) (-1) (-1)) (fun i =>
    let t := of_Z i / of_Z (n_edge_pts - 1) in
    let y := y_bottom + t * seg_height in
    let w := width_bottom + t * (width_top - width_bottom) in
    let x := center_x + w / of_Z 2 in
    dx <~ uniform (py_neg width * lit 15 1000) (width * lit 15 1000) ;;
    dy <~ uniform (py_neg height * lit 8 1000) (height * lit 8 1000) ;;
    ret (x + dx, y + dy)) ;;
  bottom_pts <~ for_each (py_range 5 0 (-1)) (fun i =>
    let t := of_Z i / of_Z 4 in
    let x := center_x - width_bottom / of_Z 2 + t * width_bottom in
    dy <~ uniform (py_neg height * lit 8 1000) (height * lit 8 1000) ;;
    ret (x, y_bottom + dy)) ;;
  let segment_pts := left_edge ++ top_pts ++ right_edge ++ bottom_pts in
  if Z.eqb (seg mod 2) 0 then
    color_ <~ choice dark_greens ;;
    ret (MPLPolygon segment_pts color_ (lit 14 100) 2)
  else
    color_ <~ choice pine_greens ;;
    ret (MPLPolygon segment_pts color_ (lit 12 100) 2).

(** The body of the needle loop, [for n in range(n_clusters)]. *)
Definition needle (center_x width branch_base_y tree_top_y tree_width_base : A)
  : rand patch :=
  tier_t <~ uniform (lit 5 100) (lit 95 100) ;;
  let y := branch_base_y + tier_t * (tree_top_y - branch_base_y) in
  let max_width := tree_width_base * (of_Z 1 - tier_t * lit 75 100) in
  dx <~ uniform (py_neg max_width / of_Z 2 * lit 8 10)
                (max_width / of_Z 2 * lit 8 10) ;;
  let x := center_x + dx in
  u <~ uniform (lit 1 100) (lit 2 100) ;;
  let cluster_size := width * u in
  color_ <~ choice pine_greens ;;
  alpha_ <~ uniform (lit 8 100) (lit 14 100) ;;
  ret (CirclePatch (x, y) cluster_size color_ alpha_ 3).

(** The body of the ornament loop, [for i in range(n_ornaments)]: the
    bauble, then its highlight. *)
Definition ornament (center_x width branch_base_y tree_top_y
                     tree_width_base : A) : rand (list patch) :=
  tier_t <~ uniform (lit 15 100) (lit 88 100) ;;
  let y := branch_base_y + tier_t * (tree_top_y - branch_base_y) in
  let max_width := tree_width_base * (of_Z 1 - tier_t * lit 75 100) in
  dx <~ uniform (py_neg max_width / of_Z 2 * lit 65 100)
                (max_width / of_Z 2 * lit 65 100) ;;
  let x := center_x + dx in
  u <~ uniform (lit 13 1000) (lit 27 1000) ;;
  let size_ := width * u in
  color_ <~ choice ornament_colors ;;
  ret [ CirclePatch (x, y) size_ color_ (lit 38 100) 10;
        CirclePatch (x - size_ * lit 3 10, y + size_ * lit 3 10)
                    (size_ * lit 28 100) "white"%string (lit 28 100) 11 ].

(** The body of the star loop, [for idx in range(3)]. *)
Definition top_star (center_x star_y star_size : A) (idx : Z) : patch :=
  let scale := of_Z 1 - of_Z idx * lit 18 100 in
  let alpha_ := lit 38 100 - of_Z idx * lit 8 100 in
  RegularPolygon (center_x, star_y) 5 (star_size * scale) (np_pi / of_Z 2)
                 "#f1c40f"%string alpha_ 12.

(** The body of [create_soft_watercolor_tree(ax, bounds)] from the generator
    [np.random.seed(42)] has set: the patches in the order of [ax.add_patch],
    and the generator afterwards, or the exception of a draw. *)
Definition tree_patches (g : rng) (bounds : A * A * A * A)
  : result (list patch * rng) :=
  let '(min_x, max_x, min_y, max_y) := bounds in
  let center_x := (min_x + max_x) / of_Z 2 in
  let width := max_x - min_x in
  let height := max_y - min_y in
  let tree_base_y := min_y - lit 5 100 * height in
  let tree_top_y := max_y + lit 5 100 * height in
  let tree_height := tree_top_y - tree_base_y in
  let trunk_width := width * lit 5 100 in
  let trunk_height := height * lit 12 100 in
  let trunks :=
    map (trunk center_x tree_base_y trunk_width trunk_height)
        (py_range 0 3 1) in
  let branch_base_y := tree_base_y + trunk_height in
  let tree_width_base := width * lit 11 10 in
  let star_y := tree_top_y + height * lit 15 1000 in
  let star_size := width * lit 65 1000 in
  (segments <~ for_each (py_range 0 n_segments 1)
                 (segment center_x width height branch_base_y tree_top_y
                          tree_height tree_width_base) ;;
   needles <~ for_each (py_range 0 n_clusters 1)
                (fun _ => needle center_x width branch_base_y tree_top_y
                                 tree_width_base) ;;
   ornaments <~ for_each (py_range 0 n_ornaments 1)
                  (fun _ => ornament center_x width branch_base_y tree_top_y
                                     tree_width_base) ;;
   let stars := map (top_star center_x star_y star_size) (py_range 0 3 1) in
   ret (trunks ++ segments ++ needles ++ concat ornaments ++ stars)) g.

End Tree.

(** The nominal outline of the tree, for the statements: with the bounds
    [x0, x1] and [y0, y1], of width [w] and height [h], the branches reach
    from [y0 - 0.05 h + 0.12 h] up to [y1 + 0.05 h], and at the fraction [t]
    of that height the outline is [1.1 w (1 - 0.75 t)] wide, centred on
    [(x0 + x1) / 2].  A circle of centre [(x, y)] and radius [r] is inside it
    when its centre is at a height of the branches and the circle is no wider
    than the outline there. *)
Definition inside_outline (x0 x1 y0 y1 x y r : R) : Prop :=
  (let w := x1 - x0 in
   let h := y1 - y0 in
   let branch_base_y := y0 - 0.05 * h + 0.12 * h in
   let tree_top_y := y1 + 0.05 * h in
   let t := (y - branch_base_y) / (tree_top_y - branch_base_y) in
   0 <= t <= 1 /\ 0 <= r
   /\ Rabs (x - (x0 + x1) / 2) + r <= 1.1 * w * (1 - 0.75 * t) / 2)%R.

(** ** The labels of [create_visualization] *)

Section Finish.

Context {A : Type} {N : Numeric A}.

(** [gdf_pa.sort_values('area_km2', ascending=False)], pandas's. *)
Variable sort_values_descending : list (pa_row A) -> list (pa_row A).

(** The annotations: the text and the point annotated, for the first ten
    rows of the sorted frame. *)
Definition annotations (gdf_pa : list (pa_row A)) : list (string * (A * A)) :=
  let gdf_sorted := sort_values_descending gdf_pa in
  map (fun row => (name row, (geometry_x row, geometry_y row)))
      (firstn 10 gdf_sorted).

End Finish.

(** ** [main] *)

Section Main.

Context {A : Type} {N : Numeric A} {T : Trig A} {P : PyFloat A}.
Context {rgba rng patch coord : Type}.

(** The parameters of [create_visualization] and of
    [fetch_vietnam_boundary]. *)
Variable scatter_other : forall X : Type, nat -> list X -> result (list X).
Variable seed : Z -> rng.
Variable tree_patches : rng -> A * A * A * A -> result (list patch * rng).
Variable total_bounds : GeoDataFrame coord -> A * A * A * A.
Variable series_min : list A -> A.
Variable series_max : list A -> A.
Variable Normalize : A -> A -> A -> A.
Variable YlOrRd : A -> rgba.
Variable path_exists : string -> bool.
Variable read_file : string -> result (GeoDataFrame coord).
Variable simplify : geometry coord -> geometry coord.

(** The file system: [os.makedirs(path, exist_ok=True)], [fig.savefig] and
    [DataFrame.to_csv] may raise and change it; [os.path.join]. *)
Variable fs : Type.
Variable makedirs : string -> fs -> result unit * fs.
Variable savefig :
  string -> list (@artist A rgba patch coord) -> fs -> result unit * fs.
Variable to_csv : string -> list (string * A * A * A) -> fs -> result unit * fs.
Variable path_join : string -> string -> string.

(** The rows written to the CSV file: the columns [name], [area_km2],
    [latitude] and [longitude]. *)
Definition gdf_export (gdf_pa : list (pa_row A)) : list (string * A * A * A) :=
  map (fun row => (name row, area_km2 row, geometry_y row, geometry_x row))
      gdf_pa.

(** [main(gadm_file, output_dir)] from a state of the generator and of the
    file system: what it returns or raises, and the file system afterwards.
    The figure is represented by its artists. *)
Definition main (gadm_file output_dir : string) (g : rng) (s : fs)
  : result (list (@artist A rgba patch coord) * list (pa_row A)
            * GeoDataFrame coord) * fs :=
  match fetch_vietnam_boundary path_exists read_file simplify gadm_file with
  | Raise e => (Raise e, s)
  | Ok gdf_boundary =>
      let gdf_pa := fetch_wdpa_vietnam in
      match create_visualization scatter_other seed tree_patches total_bounds
              series_min series_max Normalize YlOrRd g gdf_pa
              gdf_boundary with
      | Raise e => (Raise e, s)
      | Ok (fig, _) =>
          match makedirs output_dir s with
          | (Raise e, s) => (Raise e, s)
          | (Ok _, s) =>
              let output_file :=
                path_join output_dir "vietnam_protected_areas_xmas_tree.png" in
              match savefig output_file fig s with
              | (Raise e, s) => (Raise e, s)
              | (Ok _, s) =>
                  let csv_file :=
                    path_join output_dir "vietnam_protected_areas_data.csv" in
                  match to_csv csv_file (gdf_export gdf_pa) s with
                  | (Raise e, s) => (Raise e, s)
                  | (Ok _, s) => (Ok (fig, gdf_pa, gdf_boundary), s)
                  end
              end
          end
      end
  end.

End Main.

(** * Properties *)

(** ** Generic facts, at any carrier *)

Section AnyCarrier.

Context {A : Type} {N : Numeric A}.

(** The only exception [calculate_star_sizes] can raise is the ValueError
    of the reductions, and it is raised exactly on the empty input. *)
Lemma calculate_star_sizes_cases (areas : list A) (min_size max_size : A) :
  (areas = [] /\ calculate_star_sizes areas min_size max_size = Raise ValueError)
  \/ (areas <> [] /\ exists sizes,
        calculate_star_sizes areas min_size max_size = Ok sizes
        /\ length sizes = length areas).
Proof.
  destruct areas as [|a areas].
  - left. split; reflexivity.
  - right. split; [discriminate|].
    unfold calculate_star_sizes. cbn [map amin amax bind].
    eexists. split; [reflexivity|].
    simpl. rewrite !length_map. reflexivity.
Qed.

(** On a non-empty input the result is the interpolation formula of the
    source, in the arithmetic of the carrier. *)
Lemma calculate_star_sizes_formula (a : A) (areas : list A)
  (min_size max_size : A) :
  let lo := fold_left np_minimum (map np_sqrt areas) (np_sqrt a) in
  let hi := fold_left np_maximum (map np_sqrt areas) (np_sqrt a) in
  calculate_star_sizes (a :: areas) min_size max_size
  = Ok (map (fun m =>
               np_add min_size
                 (np_multiply
                    (np_divide (np_subtract (np_sqrt m) lo)
                               (np_subtract hi lo))
                    (np_subtract max_size min_size)))
            (a :: areas)).
Proof.
  intros lo hi. unfold calculate_star_sizes.
  change (amin (map np_sqrt (a :: areas))) with (Ok lo).
  change (amax (map np_sqrt (a :: areas))) with (Ok hi).
  unfold bind. rewrite !map_map. reflexivity.
Qed.

End AnyCarrier.

(** ** Decimal literals on binary64

    [lit p q] divides two integers that binary64 represents exactly, so it is
    the float nearest to [p/q], the value Python gives the literal; the
    right-hand sides are what [float.hex] prints for 0.3, 0.9, 0.6, 1.7, 2.5,
    0.08 and [math.pi]. *)

Module Binary64Literals.

Import PrimFloat.

Example lit_hex :
  lit 3 10 = 0x1.3333333333333p-2%float
  /\ lit 9 10 = 0x1.ccccccccccccdp-1%float
  /\ lit 6 10 = 0x1.3333333333333p-1%float
  /\ lit 17 10 = 0x1.b333333333333p+0%float
  /\ lit 25 10 = 0x1.4p+1%float
  /\ lit 8 100 = 0x1.47ae147ae147bp-4%float
  /\ pi64 = 0x1.921fb54442d18p+1%float.
Proof. vm_compute. repeat split; reflexivity. Qed.

(** 0.9000000000000001 and 1.7000000000000002, the floats after 0.9 and
    1.7. *)
Example next_up_hex :
  next_up (lit 9 10) = 0x1.ccccccccccccep-1%float
  /\ next_up (lit 17 10) = 0x1.b333333333334p+0%float.
Proof. vm_compute. split; reflexivity. Qed.

End Binary64Literals.

(** ** [calculate_star_sizes] in exact arithmetic *)

Section ExactScaling.

Local Open Scope R_scope.

Lemma minimum_Fin (a b : R) : Exact.minimum (Fin a) (Fin b) = Fin (Rmin a b).
Proof.
  unfold Exact.minimum, xltb, Rltb, Rmin; simpl.
  destruct (Rlt_dec a b), (Rle_dec a b); simpl;
    try reflexivity; f_equal; lra.
Qed.

Lemma maximum_Fin (a b : R) : Exact.maximum (Fin a) (Fin b) = Fin (Rmax a b).
Proof.
  unfold Exact.maximum, xltb, Rltb, Rmax; simpl.
  destruct (Rlt_dec b a), (Rle_dec a b); simpl;
    try reflexivity; f_equal; lra.
Qed.

Lemma fold_minimum_Fin (l : list R) : forall x,
  fold_left np_minimum (map Fin l) (Fin x) = Fin (fold_left Rmin l x).
Proof.
  induction l as [|y l IH]; intro x; cbn [map fold_left]; [reflexivity|].
  change (np_minimum (Fin x) (Fin y)) with (Exact.minimum (Fin x) (Fin y)).
  rewrite minimum_Fin. apply IH.
Qed.

Lemma fold_maximum_Fin (l : list R) : forall x,
  fold_left np_maximum (map Fin l) (Fin x) = Fin (fold_left Rmax l x).
Proof.
  induction l as [|y l IH]; intro x; cbn [map fold_left]; [reflexivity|].
  change (np_maximum (Fin x) (Fin y)) with (Exact.maximum (Fin x) (Fin y)).
  rewrite maximum_Fin. apply IH.
Qed.

(** The folds compute the least and the greatest element. *)
Lemma fold_Rmin_lower (l : list R) : forall x,
  fold_left Rmin l x <= x /\ Forall (fun y => fold_left Rmin l x <= y) l.
Proof.
  induction l as [|y l IH]; intro x; simpl.
  - split; [lra | constructor].
  - destruct (IH (Rmin x y)) as [H1 H2].
    pose proof (Rmin_l x y). pose proof (Rmin_r x y).
    split; [lra|]. constructor; [lra | exact H2].
Qed.

Lemma fold_Rmin_In (l : list R) : forall x, In (fold_left Rmin l x) (x :: l).
Proof.
  induction l as [|y l IH]; intro x; simpl.
  - left; reflexivity.
  - destruct (IH (Rmin x y)) as [H | H].
    + unfold Rmin in H at 1. destruct (Rle_dec x y); auto.
    + right; right; exact H.
Qed.

Lemma fold_Rmax_upper (l : list R) : forall x,
  x <= fold_left Rmax l x /\ Forall (fun y => y <= fold_left Rmax l x) l.
Proof.
  induction l as [|y l IH]; intro x; simpl.
  - split; [lra | constructor].
  - destruct (IH (Rmax x y)) as [H1 H2].
    pose proof (Rmax_l x y). pose proof (Rmax_r x y).
    split; [lra|]. constructor; [lra | exact H2].
Qed.

Lemma fold_Rmax_In (l : list R) : forall x, In (fold_left Rmax l x) (x :: l).
Proof.
  induction l as [|y l IH]; intro x; simpl.
  - left; reflexivity.
  - destruct (IH (Rmax x y)) as [H | H].
    + unfold Rmax in H at 1. destruct (Rle_dec x y); auto.
    + right; right; exact H.
Qed.

Lemma map_sqrt_Fin (l : list R) :
  Forall (fun m => 0 <= m) l ->
  map np_sqrt (map Fin l) = map Fin (map sqrt l).
Proof.
  induction 1 as [|m l Hm _ IH]; cbn [map]; [reflexivity|].
  rewrite IH. f_equal. simpl. unfold Rltb.
  destruct (Rlt_dec m 0); [lra | reflexivity].
Qed.

Lemma element_exact (lo hi mn mx s : R) :
  lo <= s <= hi ->
  np_add (Fin mn)
    (np_multiply (np_divide (np_subtract (Fin s) (Fin lo))
                            (np_subtract (Fin hi) (Fin lo)))
                 (np_subtract (Fin mx) (Fin mn)))
  = interpolate lo hi mn mx s.
Proof.
  intros Hs. unfold interpolate. simpl. unfold xsub, xdiv, Reqb. simpl.
  destruct (Req_dec_T hi lo) as [E | E].
  - destruct (Req_dec_T (hi + - lo) 0) as [_ | C]; [|exfalso; lra].
    destruct (Req_dec_T (s + - lo) 0) as [_ | C]; [|exfalso; lra].
    reflexivity.
  - destruct (Req_dec_T (hi + - lo) 0) as [C | _]; [exfalso; lra|].
    simpl. f_equal.
Qed.

(** [calculate_star_sizes] on finite non-negative magnitudes. *)
Lemma calculate_star_sizes_exact (m : R) (ms : list R) (mn mx : R) :
  Forall (fun a => 0 <= a) (m :: ms) ->
  calculate_star_sizes (map Fin (m :: ms)) (Fin mn) (Fin mx)
  = Ok (map (fun a =>
               interpolate (fold_left Rmin (map sqrt ms) (sqrt m))
                           (fold_left Rmax (map sqrt ms) (sqrt m))
                           mn mx (sqrt a))
            (m :: ms)).
Proof.
  intros Hpos. unfold calculate_star_sizes.
  rewrite (map_sqrt_Fin Hpos).
  remember (map Fin (map sqrt (m :: ms))) as sq eqn:Esq.
  assert (Hmin : amin sq = Ok (Fin (fold_left Rmin (map sqrt ms) (sqrt m)))).
  { subst sq. cbn [map amin]. rewrite fold_minimum_Fin. reflexivity. }
  assert (Hmax : amax sq = Ok (Fin (fold_left Rmax (map sqrt ms) (sqrt m)))).
  { subst sq. cbn [map amax]. rewrite fold_maximum_Fin. reflexivity. }
  rewrite Hmin, Hmax. unfold bind. f_equal. subst sq.
  rewrite !map_map.
  apply map_ext_in. intros a Ha.
  apply element_exact.
  assert (Hin : In (sqrt a) (sqrt m :: map sqrt ms)).
  { change (In (sqrt a) (map sqrt (m :: ms))). apply in_map. exact Ha. }
  destruct (fold_Rmin_lower (map sqrt ms) (sqrt m)) as [L1 L2].
  destruct (fold_Rmax_upper (map sqrt ms) (sqrt m)) as [U1 U2].
  rewrite Forall_forall in L2, U2.
  destruct Hin as [E | Hin].
  - rewrite <- E. lra.
  - split; [apply L2 | apply U2]; exact Hin.
Qed.

End ExactScaling.

Section ExactScalingSpec.

Local Open Scope R_scope.

(** A magnitude list with two different non-negative values has a
    non-degenerate range of square roots. *)
Lemma sqrt_range_nondegenerate (m : R) (ms : list R) :
  Forall (fun a => 0 <= a) (m :: ms) ->
  (exists a b, In a (m :: ms) /\ In b (m :: ms) /\ a <> b) ->
  fold_left Rmin (map sqrt ms) (sqrt m) < fold_left Rmax (map sqrt ms) (sqrt m).
Proof.
  intros Hpos (a & b & Ha & Hb & Hab).
  rewrite Forall_forall in Hpos.
  assert (Hbnd : forall c, In c (m :: ms) ->
            fold_left Rmin (map sqrt ms) (sqrt m) <= sqrt c
            <= fold_left Rmax (map sqrt ms) (sqrt m)).
  { intros c Hc.
    destruct (fold_Rmin_lower (map sqrt ms) (sqrt m)) as [L1 L2].
    destruct (fold_Rmax_upper (map sqrt ms) (sqrt m)) as [U1 U2].
    rewrite Forall_forall in L2, U2.
    destruct Hc as [E | Hc].
    - rewrite <- E. lra.
    - split; [apply L2 | apply U2]; apply in_map; exact Hc. }
  pose proof (Hbnd a Ha) as Ba. pose proof (Hbnd b Hb) as Bb.
  destruct (Req_dec_T (sqrt a) (sqrt b)) as [E | NE].
  - exfalso. apply Hab. apply sqrt_inj; auto.
  - lra.
Qed.

Lemma interpolate_bounds (lo hi mn mx s : R) :
  lo < hi -> lo <= s <= hi -> mn < mx ->
  mn <= mn + (s - lo) / (hi - lo) * (mx - mn) <= mx.
Proof.
  intros Hr Hs Hm.
  assert (H0 : 0 <= (s - lo) / (hi - lo)).
  { apply Rmult_le_pos; [lra|]. left. apply Rinv_0_lt_compat. lra. }
  assert (H1 : (s - lo) / (hi - lo) <= 1).
  { apply Rmult_le_reg_r with (hi - lo); [lra|].
    unfold Rdiv. rewrite Rmult_assoc, Rinv_l; lra. }
  nra.
Qed.

Lemma interpolate_monotone (lo hi mn mx s t : R) :
  lo < hi -> mn <= mx -> s <= t ->
  mn + (s - lo) / (hi - lo) * (mx - mn) <= mn + (t - lo) / (hi - lo) * (mx - mn).
Proof.
  intros Hr Hm Hst.
  assert (Hi : 0 < / (hi - lo)) by (apply Rinv_0_lt_compat; lra).
  assert (H : (s - lo) / (hi - lo) <= (t - lo) / (hi - lo)).
  { unfold Rdiv. apply Rmult_le_compat_r; lra. }
  nra.
Qed.

(** C1 (amended).  At every carrier, on a non-empty input,
    [calculate_star_sizes] returns a list of the same length given by
    [size_i = min_size + (sqrt m_i - lo)/(hi - lo) * (max_size - min_size)],
    [lo] and [hi] the [min] and [max] of the square roots, computed in the
    carrier.  In exact arithmetic, on non-negative magnitudes that are not
    all equal and with [min_size < max_size], [lo] and [hi] are the least
    and greatest square root, every size lies in [[min_size, max_size]] and
    the sizes are monotone in the magnitudes. *)
Theorem calculate_star_sizes_spec :
  (forall (A : Type) (N : Numeric A) (areas : list A) (min_size max_size : A),
      areas <> [] ->
      exists (lo hi : A) (sizes : list A),
        amin (map np_sqrt areas) = Ok lo
        /\ amax (map np_sqrt areas) = Ok hi
        /\ calculate_star_sizes areas min_size max_size = Ok sizes
        /\ length sizes = length areas
        /\ sizes
           = map (fun m =>
                    np_add min_size
                      (np_multiply
                         (np_divide (np_subtract (np_sqrt m) lo)
                                    (np_subtract hi lo))
                         (np_subtract max_size min_size)))
                 areas)
  /\ (forall (magnitudes : list R) (min_size max_size : R),
         magnitudes <> [] ->
         Forall (fun m => 0 <= m) magnitudes ->
         (exists a b, In a magnitudes /\ In b magnitudes /\ a <> b) ->
         min_size < max_size ->
         exists (lo hi : R) (sizes : list R),
           (In lo (map sqrt magnitudes)
            /\ Forall (fun s => lo <= s) (map sqrt magnitudes))
           /\ (In hi (map sqrt magnitudes)
               /\ Forall (fun s => s <= hi) (map sqrt magnitudes))
           /\ calculate_star_sizes (map Fin magnitudes)
                (Fin min_size) (Fin max_size)
              = Ok (map Fin sizes)
           /\ length sizes = length magnitudes
           /\ sizes = map (fun m => min_size
                                    + (sqrt m - lo) / (hi - lo)
                                      * (max_size - min_size))
                          magnitudes
           /\ Forall (fun s => min_size <= s <= max_size) sizes
           /\ (forall i j mi mj si sj,
                  nth_error magnitudes i = Some mi ->
                  nth_error magnitudes j = Some mj ->
                  nth_error sizes i = Some si ->
                  nth_error sizes j = Some sj ->
                  mi <= mj -> si <= sj)).
Proof.
  split.
  { intros A N areas mn mx Hne.
    destruct areas as [|a areas]; [congruence|].
    exists (fold_left np_minimum (map np_sqrt areas) (np_sqrt a)),
           (fold_left np_maximum (map np_sqrt areas) (np_sqrt a)).
    eexists. split; [reflexivity|]. split; [reflexivity|].
    split; [apply calculate_star_sizes_formula|].
    split; [|reflexivity]. apply length_map. }
  intros magnitudes mn mx Hne Hpos Hdiff Hm.
  destruct magnitudes as [|m ms]; [congruence|].
  pose proof (sqrt_range_nondegenerate Hpos Hdiff) as Hr.
  destruct (fold_Rmin_lower (map sqrt ms) (sqrt m)) as [L1 L2].
  destruct (fold_Rmax_upper (map sqrt ms) (sqrt m)) as [U1 U2].
  set (lo := fold_left Rmin (map sqrt ms) (sqrt m)) in *.
  set (hi := fold_left Rmax (map sqrt ms) (sqrt m)) in *.
  assert (Hbnd : forall c, In c (m :: ms) -> lo <= sqrt c <= hi).
  { intros c Hc. rewrite Forall_forall in L2, U2.
    destruct Hc as [E | Hc].
    - rewrite <- E. lra.
    - split; [apply L2 | apply U2]; apply in_map; exact Hc. }
  exists lo, hi.
  exists (map (fun a => mn + (sqrt a - lo) / (hi - lo) * (mx - mn)) (m :: ms)).
  refine (conj (conj _ _) (conj (conj _ _)
            (conj _ (conj _ (conj eq_refl (conj _ _)))))).
  - apply (fold_Rmin_In (map sqrt ms) (sqrt m)).
  - constructor; [exact L1 | exact L2].
  - apply (fold_Rmax_In (map sqrt ms) (sqrt m)).
  - constructor; [exact U1 | exact U2].
  - rewrite (calculate_star_sizes_exact mn mx Hpos). f_equal.
    rewrite map_map. apply map_ext. intro a.
    fold lo hi. unfold interpolate.
    destruct (Req_dec_T hi lo); [lra | reflexivity].
  - apply length_map.
  - apply Forall_forall. intros s Hs. apply in_map_iff in Hs.
    destruct Hs as (a & <- & Ha).
    apply interpolate_bounds; auto.
  - intros i j mi mj si sj Hi Hj Hsi Hsj Hle.
    rewrite nth_error_map in Hsi, Hsj.
    rewrite Hi in Hsi. rewrite Hj in Hsj. simpl in Hsi, Hsj.
    injection Hsi as <-. injection Hsj as <-.
    apply interpolate_monotone; [lra | lra |].
    apply sqrt_le_1_alt. exact Hle.
Qed.

End ExactScalingSpec.

Section ScalingClaims.

Local Open Scope R_scope.

Lemma calculate_star_sizes_spec_witness :
  exists sizes : list R,
    calculate_star_sizes (map Fin [1; 100]) (Fin 10) (Fin 100)
    = Ok (map Fin sizes)
    /\ length sizes = 2%nat
    /\ Forall (fun s => 10 <= s <= 100) sizes.
Proof.
  destruct (proj2 calculate_star_sizes_spec [1; 100] 10 100)
    as (lo & hi & sizes & _ & _ & Hres & Hlen & _ & Hrange & _).
  - discriminate.
  - repeat constructor; lra.
  - exists 1, 100. simpl. repeat split; auto. lra.
  - lra.
  - exists sizes. repeat split; assumption.
Defined.

(** C1 (as stated) fails on binary64: for magnitudes [[1, 100]] and sizes
    0.3 < 0.9 the second output is the float above 0.9
    (0.9000000000000001), outside [[min_size, max_size]]: the square roots
    are 1 and 10, the normalised values 0 and 1, [0.9 - 0.3] rounds to
    0.6000000000000001 and [0.3 + 1.0 * 0.6000000000000001] rounds to
    0.9000000000000001. *)
Lemma calculate_star_sizes_binary64_exceeds_max :
  PrimFloat.ltb (lit 3 10) (lit 9 10) = true
  /\ np_subtract (lit 9 10) (lit 3 10) = PrimFloat.next_up (lit 6 10)
  /\ calculate_star_sizes (N := binary64) (map of_Z [1; 100]%Z)
       (lit 3 10) (lit 9 10)
     = Ok [lit 3 10; PrimFloat.next_up (lit 9 10)]
  /\ PrimFloat.ltb (lit 9 10) (PrimFloat.next_up (lit 9 10)) = true.
Proof. vm_compute. repeat split; reflexivity. Qed.

(** C2 (code as written): with all magnitudes equal the normalisation divides
    zero by zero; on binary64 [calculate_star_sizes([5,5,5], 80, 1000)] is
    [[nan, nan, nan]], not [[80, 80, 80]]. *)
Theorem calculate_star_sizes_all_equal_binary64 :
  calculate_star_sizes (N := binary64) (map of_Z [5; 5; 5]%Z)
    (of_Z 80) (of_Z 1000)
  = Ok [PrimFloat.nan; PrimFloat.nan; PrimFloat.nan].
Proof. vm_compute. reflexivity. Qed.

(** The same in exact arithmetic, for every non-empty list of equal
    non-negative magnitudes: each output is NaN. *)
Lemma calculate_star_sizes_all_equal_exact (m : R) (n : nat) (mn mx : R) :
  0 <= m ->
  calculate_star_sizes (map Fin (repeat m (S n))) (Fin mn) (Fin mx)
  = Ok (repeat NaN (S n)).
Proof.
  intros Hm.
  assert (Hpos : Forall (fun a => 0 <= a) (m :: repeat m n)).
  { apply Forall_forall. intros a Ha.
    change (In a (repeat m (S n))) in Ha.
    apply repeat_spec in Ha. subst a. exact Hm. }
  change (repeat m (S n)) with (m :: repeat m n).
  rewrite (calculate_star_sizes_exact mn mx Hpos). f_equal.
  set (lo := fold_left Rmin (map sqrt (repeat m n)) (sqrt m)).
  set (hi := fold_left Rmax (map sqrt (repeat m n)) (sqrt m)).
  assert (E : hi = lo).
  { assert (Hall : forall s, In s (sqrt m :: map sqrt (repeat m n)) -> s = sqrt m).
    { intros s [<- | Hs]; [reflexivity|].
      apply in_map_iff in Hs. destruct Hs as (a & <- & Ha).
      apply repeat_spec in Ha. subst a. reflexivity. }
    rewrite (Hall hi (fold_Rmax_In _ _)), (Hall lo (fold_Rmin_In _ _)).
    reflexivity. }
  change (m :: repeat m n) with (repeat m (S n)).
  generalize (S n). intro k. induction k as [|k IH]; simpl; [reflexivity|].
  rewrite IH. f_equal. unfold interpolate.
  destruct (Req_dec_T hi lo); [reflexivity | contradiction].
Qed.

(** C3 (amended): [calculate_star_sizes] checks nothing; it raises exactly
    when the magnitude list is empty, and then the ValueError of the
    reduction; on any other input, whatever the magnitudes and the two
    sizes, it returns a list of the input's length. *)
Theorem calculate_star_sizes_raises_iff_empty :
  forall (A : Type) (N : Numeric A) (areas : list A) (min_size max_size : A),
    (forall e, calculate_star_sizes areas min_size max_size = Raise e
               <-> areas = [] /\ e = ValueError)
    /\ (forall sizes, calculate_star_sizes areas min_size max_size = Ok sizes
                      -> areas <> [] /\ length sizes = length areas)
    /\ (is_ok (calculate_star_sizes areas min_size max_size) = true
        <-> areas <> []).
Proof.
  intros A N areas mn mx.
  destruct (calculate_star_sizes_cases areas mn mx)
    as [[E H] | [E (sizes & H & Hlen)]]; rewrite H.
  - split; [|split].
    + intro e. split.
      * intros He. injection He as <-. auto.
      * intros [_ ->]. reflexivity.
    + intros sizes Hs. discriminate.
    + simpl. split; [discriminate | intros C; contradiction].
  - split; [|split].
    + intro e. split; [discriminate | intros [C _]; contradiction].
    + intros sz Hsz. injection Hsz as <-. auto.
    + simpl. split; auto.
Qed.

Lemma calculate_star_sizes_raises_iff_empty_witness :
  calculate_star_sizes (N := binary64) [] default_min_size default_max_size
  = Raise ValueError
  /\ is_ok (calculate_star_sizes (N := binary64) (map of_Z [71; 1156]%Z)
              default_min_size default_max_size) = true.
Proof.
  split.
  - apply (proj1 (@calculate_star_sizes_raises_iff_empty _ binary64 []
                    default_min_size default_max_size) ValueError).
    split; reflexivity.
  - apply (proj2 (proj2 (@calculate_star_sizes_raises_iff_empty _ binary64
                           (map of_Z [71; 1156]%Z)
                           default_min_size default_max_size))).
    discriminate.
Defined.

(** C3 (as stated) fails: with [min_size >= max_size], and with a negative
    magnitude, nothing is raised; a list is returned. *)
Lemma calculate_star_sizes_accepts_invalid_input :
  calculate_star_sizes (N := binary64) (map of_Z [1; 100]%Z)
    (of_Z 100) (of_Z 10)
  = Ok [of_Z 100; of_Z 10]
  /\ calculate_star_sizes (N := binary64) (map of_Z [-1; 100]%Z)
       (of_Z 10) (of_Z 100)
     = Ok [PrimFloat.nan; PrimFloat.nan].
Proof. vm_compute. split; reflexivity. Qed.

End ScalingClaims.

Section ScaleInvariance.

Local Open Scope R_scope.

Lemma Rmin_scale (k x y : R) : 0 <= k -> Rmin (k * x) (k * y) = k * Rmin x y.
Proof.
  intros Hk. unfold Rmin.
  destruct (Rle_dec (k * x) (k * y)), (Rle_dec x y); try reflexivity; nra.
Qed.

Lemma Rmax_scale (k x y : R) : 0 <= k -> Rmax (k * x) (k * y) = k * Rmax x y.
Proof.
  intros Hk. unfold Rmax.
  destruct (Rle_dec (k * x) (k * y)), (Rle_dec x y); try reflexivity; nra.
Qed.

Lemma fold_Rmin_scale (k : R) (l : list R) : 0 <= k -> forall x,
  fold_left Rmin (map (Rmult k) l) (k * x) = k * fold_left Rmin l x.
Proof.
  intros Hk. induction l as [|y l IH]; intro x; simpl; [reflexivity|].
  rewrite Rmin_scale by exact Hk. apply IH.
Qed.

Lemma fold_Rmax_scale (k : R) (l : list R) : 0 <= k -> forall x,
  fold_left Rmax (map (Rmult k) l) (k * x) = k * fold_left Rmax l x.
Proof.
  intros Hk. induction l as [|y l IH]; intro x; simpl; [reflexivity|].
  rewrite Rmax_scale by exact Hk. apply IH.
Qed.

Lemma map_sqrt_scale (c : R) (l : list R) :
  0 <= c -> Forall (fun m => 0 <= m) l ->
  map sqrt (map (Rmult c) l) = map (Rmult (sqrt c)) (map sqrt l).
Proof.
  intros Hc. induction 1 as [|m l Hm _ IH]; simpl; [reflexivity|].
  rewrite IH, sqrt_mult by assumption. reflexivity.
Qed.

Lemma interpolate_scale (k lo hi mn mx s : R) :
  0 < k ->
  interpolate (k * lo) (k * hi) mn mx (k * s) = interpolate lo hi mn mx s.
Proof.
  intros Hk. unfold interpolate.
  destruct (Req_dec_T (k * hi) (k * lo)) as [E | E],
           (Req_dec_T hi lo) as [E' | E']; try reflexivity.
  - exfalso. apply E'. nra.
  - exfalso. apply E. rewrite E'. reflexivity.
  - f_equal. f_equal. f_equal. field. split; [lra|].
    intro C. apply E. nra.
Qed.

(** Scaling all magnitudes by [c > 0] scales every square root by
    [sqrt c], which the normalisation cancels. *)
Lemma calculate_star_sizes_scale_exact (m : R) (ms : list R) (mn mx c : R) :
  Forall (fun a => 0 <= a) (m :: ms) -> 0 < c ->
  calculate_star_sizes (map Fin (map (Rmult c) (m :: ms))) (Fin mn) (Fin mx)
  = calculate_star_sizes (map Fin (m :: ms)) (Fin mn) (Fin mx).
Proof.
  intros Hpos Hc.
  assert (Hpos' : Forall (fun a => 0 <= a) (c * m :: map (Rmult c) ms)).
  { change (Forall (fun a => 0 <= a) (map (Rmult c) (m :: ms))).
    rewrite Forall_forall in *. intros a Ha.
    apply in_map_iff in Ha. destruct Ha as (b & <- & Hb).
    apply Rmult_le_pos; [lra | auto]. }
  change (map (Rmult c) (m :: ms)) with (c * m :: map (Rmult c) ms).
  rewrite (calculate_star_sizes_exact mn mx Hpos').
  rewrite (calculate_star_sizes_exact mn mx Hpos).
  f_equal.
  assert (Hm : 0 <= m) by (inversion Hpos; assumption).
  assert (Hms : Forall (fun a => 0 <= a) ms) by (inversion Hpos; assumption).
  rewrite (map_sqrt_scale (c := c)) by (lra || assumption).
  rewrite (sqrt_mult c m) by lra.
  assert (Hk : 0 <= sqrt c) by apply sqrt_pos.
  rewrite fold_Rmin_scale, fold_Rmax_scale by exact Hk.
  set (lo := fold_left Rmin (map sqrt ms) (sqrt m)).
  set (hi := fold_left Rmax (map sqrt ms) (sqrt m)).
  change (c * m :: map (Rmult c) ms) with (map (Rmult c) (m :: ms)).
  rewrite map_map. apply map_ext_in. intros a Ha.
  rewrite Forall_forall in Hpos.
  rewrite sqrt_mult by (lra || auto).
  apply interpolate_scale. apply sqrt_lt_R0. exact Hc.
Qed.

(** C10 (amended): in exact arithmetic, scaling every magnitude by a
    constant [c > 0] leaves the output of [calculate_star_sizes]
    unchanged. *)
Theorem calculate_star_sizes_scale_invariant_exact :
  forall (magnitudes : list R) (min_size max_size c : R),
    magnitudes <> [] ->
    Forall (fun m => 0 <= m) magnitudes ->
    (exists a b, In a magnitudes /\ In b magnitudes /\ a <> b) ->
    min_size < max_size ->
    0 < c ->
    calculate_star_sizes (map Fin (map (fun m => c * m) magnitudes))
      (Fin min_size) (Fin max_size)
    = calculate_star_sizes (map Fin magnitudes) (Fin min_size) (Fin max_size).
Proof.
  intros magnitudes mn mx c Hne Hpos _ _ Hc.
  destruct magnitudes as [|m ms]; [congruence|].
  exact (calculate_star_sizes_scale_exact mn mx Hpos Hc).
Qed.

Lemma calculate_star_sizes_scale_invariant_exact_witness :
  calculate_star_sizes (map Fin (map (fun m => 3 * m) [1; 2; 3]))
    (Fin 80) (Fin 1000)
  = calculate_star_sizes (map Fin [1; 2; 3]) (Fin 80) (Fin 1000).
Proof.
  apply (@calculate_star_sizes_scale_invariant_exact [1; 2; 3] 80 1000 3).
  - discriminate.
  - repeat constructor; lra.
  - exists 1, 2. simpl. repeat split; auto. lra.
  - lra.
  - lra.
Defined.

(** C10 (as stated) fails on binary64: scaling [[1, 2, 3]] by 3 changes the
    middle output in its last digits.  For [[1, 2, 3]] the normalised middle
    value is [(sqrt 2 - 1) / (sqrt 3 - 1)], computed as 0.5658262487936981,
    and the size 600.5601488902023; for [[3, 6, 9]] it is
    [(sqrt 6 - sqrt 3) / (3 - sqrt 3)], computed as 0.5658262487936978, and
    the size 600.560148890202 (default sizes 80 and 1000). *)
Lemma calculate_star_sizes_binary64_not_scale_invariant :
  map (np_multiply (of_Z 3)) (map of_Z [1; 2; 3]%Z)
  = map (@of_Z _ binary64) [3; 6; 9]%Z
  /\ calculate_star_sizes (N := binary64)
       (map (np_multiply (of_Z 3)) (map of_Z [1; 2; 3]%Z))
       default_min_size default_max_size
     <> calculate_star_sizes (N := binary64) (map of_Z [1; 2; 3]%Z)
          default_min_size default_max_size.
Proof.
  split; [vm_compute; reflexivity|].
  intro H.
  pose (middle := fun r : result (list PrimFloat.float) =>
                    match r with
                    | Ok [_; a; _] => a
                    | _ => PrimFloat.nan
                    end).
  match type of H with
  | ?l = ?r =>
      assert (E : PrimFloat.eqb (middle l) (middle r) = true)
        by (rewrite H; vm_compute; reflexivity)
  end.
  vm_compute in E. discriminate E.
Qed.

End ScaleInvariance.

Section Endpoints.

Local Open Scope R_scope.

(** In exact arithmetic the elements of least magnitude get [min_size] and
    those of greatest magnitude get [max_size]. *)
Lemma calculate_star_sizes_endpoints_exact
  (magnitudes : list R) (min_size max_size : R) :
  Forall (fun m => 0 <= m) magnitudes ->
  (exists a b, In a magnitudes /\ In b magnitudes /\ a <> b) ->
  exists sizes : list R,
    calculate_star_sizes (map Fin magnitudes) (Fin min_size) (Fin max_size)
    = Ok (map Fin sizes)
    /\ forall i m s,
         nth_error magnitudes i = Some m ->
         nth_error sizes i = Some s ->
         ((forall m', In m' magnitudes -> m <= m') -> s = min_size)
         /\ ((forall m', In m' magnitudes -> m' <= m) -> s = max_size).
Proof.
  intros Hpos Hdiff.
  destruct magnitudes as [|m0 ms].
  { destruct Hdiff as (a & _ & [] & _). }
  pose proof (sqrt_range_nondegenerate Hpos Hdiff) as Hr.
  destruct (fold_Rmin_lower (map sqrt ms) (sqrt m0)) as [L1 L2].
  destruct (fold_Rmax_upper (map sqrt ms) (sqrt m0)) as [U1 U2].
  pose proof (fold_Rmin_In (map sqrt ms) (sqrt m0)) as Lin.
  pose proof (fold_Rmax_In (map sqrt ms) (sqrt m0)) as Uin.
  set (lo := fold_left Rmin (map sqrt ms) (sqrt m0)) in *.
  set (hi := fold_left Rmax (map sqrt ms) (sqrt m0)) in *.
  assert (Hbnd : forall c, In c (m0 :: ms) -> lo <= sqrt c <= hi).
  { intros c Hc. rewrite Forall_forall in L2, U2.
    destruct Hc as [E | Hc].
    - rewrite <- E. lra.
    - split; [apply L2 | apply U2]; apply in_map; exact Hc. }
  exists (map (fun a => min_size
                        + (sqrt a - lo) / (hi - lo) * (max_size - min_size))
              (m0 :: ms)).
  split.
  - rewrite (calculate_star_sizes_exact min_size max_size Hpos). f_equal.
    rewrite map_map. apply map_ext. intro a.
    fold lo hi. unfold interpolate.
    destruct (Req_dec_T hi lo); [lra | reflexivity].
  - intros i m s Hm Hs.
    rewrite nth_error_map, Hm in Hs. simpl in Hs. injection Hs as <-.
    pose proof (Hbnd m (nth_error_In _ _ Hm)) as Bm.
    change (In lo (map sqrt (m0 :: ms))) in Lin.
    change (In hi (map sqrt (m0 :: ms))) in Uin.
    apply in_map_iff in Lin. destruct Lin as (a & Ea & Ha).
    apply in_map_iff in Uin. destruct Uin as (b & Eb & Hb).
    split; intro Hext.
    + assert (E : sqrt m = lo).
      { pose proof (sqrt_le_1_alt _ _ (Hext a Ha)). lra. }
      rewrite E. unfold Rdiv. replace (lo - lo) with 0 by lra.
      rewrite !Rmult_0_l. lra.
    + assert (E : sqrt m = hi).
      { pose proof (sqrt_le_1_alt _ _ (Hext b Hb)). lra. }
      rewrite E. unfold Rdiv. rewrite Rinv_r by lra. lra.
Qed.

(** C4 (amended): in exact arithmetic the elements of least magnitude map
    to [min_size] and those of greatest magnitude to [max_size] when the
    magnitudes are not all equal; on binary64 the two stated cases hold to
    the bit: [calculate_star_sizes([1,100], 10, 100) = [10, 100]], and on the
    25 records of the bundled table, whose areas range from 71 to 1156, the
    record of area 71 gets 80 and the record of area 1156 gets 1000. *)
Theorem calculate_star_sizes_endpoints :
  (forall (magnitudes : list R) (min_size max_size : R),
      Forall (fun m => 0 <= m) magnitudes ->
      (exists a b, In a magnitudes /\ In b magnitudes /\ a <> b) ->
      exists sizes : list R,
        calculate_star_sizes (map Fin magnitudes) (Fin min_size) (Fin max_size)
        = Ok (map Fin sizes)
        /\ forall i m s,
             nth_error magnitudes i = Some m ->
             nth_error sizes i = Some s ->
             ((forall m', In m' magnitudes -> m <= m') -> s = min_size)
             /\ ((forall m', In m' magnitudes -> m' <= m) -> s = max_size))
  /\ calculate_star_sizes (N := binary64) (map of_Z [1; 100]%Z)
       (of_Z 10) (of_Z 100)
     = Ok [of_Z 10; of_Z 100]
  /\ (length protected_areas = 25%nat
      /\ Forall (fun '(_, _, _, a) => (71 <= a <= 1156)%Z) protected_areas
      /\ exists sizes,
           calculate_star_sizes (N := binary64)
             (map (@area_km2 _) fetch_wdpa_vietnam) (of_Z 80) (of_Z 1000)
           = Ok sizes
           /\ nth_error (combine (map snd protected_areas) sizes) 19
              = Some (71%Z, of_Z 80)
           /\ nth_error (combine (map snd protected_areas) sizes) 8
              = Some (1156%Z, of_Z 1000)).
Proof.
  split; [exact calculate_star_sizes_endpoints_exact|].
  split; [vm_compute; reflexivity|].
  split; [reflexivity|].
  split.
  - unfold protected_areas. repeat constructor; discriminate.
  - eexists. split; [vm_compute; reflexivity|].
    split; vm_compute; reflexivity.
Qed.

Lemma calculate_star_sizes_endpoints_witness :
  calculate_star_sizes (map Fin [1; 100]) (Fin 10) (Fin 100)
  = Ok [Fin 10; Fin 100].
Proof.
  destruct (proj1 calculate_star_sizes_endpoints [1; 100] 10 100)
    as (sizes & Hres & Hend).
  - repeat constructor; lra.
  - exists 1, 100. simpl. repeat split; auto. lra.
  - rewrite Hres. f_equal.
    destruct (calculate_star_sizes_cases (map Fin [1; 100]) (Fin 10) (Fin 100))
      as [[E _] | [_ (out & Hout & Hlen)]]; [discriminate E|].
    rewrite Hres in Hout. injection Hout as <-.
    rewrite length_map in Hlen.
    destruct sizes as [|s0 [|s1 [|s2 rest]]]; try discriminate Hlen.
    destruct (Hend 0%nat 1 s0 eq_refl eq_refl) as [H0 _].
    destruct (Hend 1%nat 100 s1 eq_refl eq_refl) as [_ H1].
    rewrite H0, H1.
    + reflexivity.
    + intros m' [<- | [<- | []]]; lra.
    + intros m' [<- | [<- | []]]; lra.
Defined.

(** C4 (as stated) fails on binary64 for other sizes: with magnitudes
    [[1, 100]] and sizes 0.6 < 1.7 the element of greatest magnitude gets the
    float above 1.7 (1.7000000000000002), not 1.7: the square roots are 1
    and 10, the normalised values 0 and 1, [1.7 - 0.6] is 1.1 and
    [0.6 + 1.0 * 1.1] rounds to 1.7000000000000002. *)
Lemma calculate_star_sizes_binary64_misses_max :
  calculate_star_sizes (N := binary64) (map of_Z [1; 100]%Z)
    (lit 6 10) (lit 17 10)
  = Ok [lit 6 10; PrimFloat.next_up (lit 17 10)]
  /\ PrimFloat.eqb (PrimFloat.next_up (lit 17 10)) (lit 17 10) = false.
Proof. vm_compute. split; reflexivity. Qed.

(** On the bundled table and the default sizes, the binary64 outputs do lie
    in [[80, 1000]] and are ordered as the areas. *)
Example bundled_sizes_binary64 :
  let areas := map (@area_km2 _) (fetch_wdpa_vietnam (N := binary64)) in
  exists sizes,
    calculate_star_sizes areas default_min_size default_max_size = Ok sizes
    /\ length sizes = 25%nat
    /\ forallb (fun s => PrimFloat.leb (of_Z 80) s
                         && PrimFloat.leb s (of_Z 1000)) sizes = true
    /\ forallb (fun '(a, s) =>
                  forallb (fun '(a', s') =>
                             implb (PrimFloat.leb a a') (PrimFloat.leb s s'))
                          (combine areas sizes))
               (combine areas sizes) = true.
Proof.
  eexists. split; [vm_compute; reflexivity|].
  vm_compute. repeat split.
Qed.

End Endpoints.

(** ** The star glyphs *)

Section ListFacts.

Lemma nth_error_combine {X Y : Type} (l1 : list X) : forall (l2 : list Y) k x y,
  nth_error l1 k = Some x -> nth_error l2 k = Some y ->
  nth_error (combine l1 l2) k = Some (x, y).
Proof.
  induction l1 as [|a l1 IH]; intros [|b l2] [|k] x y H1 H2;
    simpl in *; try discriminate.
  - congruence.
  - apply IH; assumption.
Qed.

Lemma mapM_ok {X Y : Type} (f : X -> result Y) (g : X -> Y) (l : list X) :
  (forall x, In x l -> f x = Ok (g x)) -> mapM f l = Ok (map g l).
Proof.
  induction l as [|x l IH]; intros H; simpl; [reflexivity|].
  rewrite (H x (or_introl eq_refl)). simpl.
  rewrite IH by (intros y Hy; apply H; right; exact Hy).
  reflexivity.
Qed.

End ListFacts.

Section GlyphFacts.

Context {A : Type} {N : Numeric A} {T : Trig A}.
Variable rgba : Type.

(** The markers of row [k] among those of a whole-frame scatter. *)
Lemma glyph_combine_seq (ms : list (primitive A rgba)) : forall start k,
  glyph k (combine (seq start (length ms)) ms)
  = match nth_error ms (k - start) with
    | Some p => if Nat.leb start k then [p] else []
    | None => []
    end.
Proof.
  unfold glyph.
  induction ms as [|m ms IH]; intros start k.
  - simpl. destruct (k - start)%nat; reflexivity.
  - cbn [length seq combine filter fst].
    destruct (Nat.eqb start k) eqn:E; cbn [map snd]; rewrite IH.
    + apply Nat.eqb_eq in E. subst k. rewrite Nat.sub_diag.
      replace (start - S start)%nat with 0%nat by lia.
      rewrite Nat.leb_refl.
      replace (Nat.leb (S start) start) with false
        by (symmetry; apply Nat.leb_gt; lia).
      simpl. destruct ms; reflexivity.
    + apply Nat.eqb_neq in E.
      destruct (Nat.leb start k) eqn:L.
      * apply Nat.leb_le in L.
        replace (Nat.leb (S start) k) with true
          by (symmetry; apply Nat.leb_le; lia).
        replace (k - start)%nat with (S (k - S start)) by lia.
        reflexivity.
      * apply Nat.leb_gt in L.
        replace (Nat.leb (S start) k) with false
          by (symmetry; apply Nat.leb_gt; lia).
        destruct (nth_error ms (k - S start));
          destruct (nth_error (m :: ms) (k - start)); reflexivity.
Qed.

Lemma glyph_by_row (ms : list (primitive A rgba)) (k : nat) (p : primitive A rgba) :
  nth_error ms k = Some p -> glyph k (by_row ms) = [p].
Proof.
  intro H. unfold by_row. rewrite glyph_combine_seq.
  rewrite Nat.sub_0_r, H. reflexivity.
Qed.

Lemma glyph_app (k : nat) (l1 l2 : list (nat * primitive A rgba)) :
  glyph k (l1 ++ l2) = glyph k l1 ++ glyph k l2.
Proof. unfold glyph. rewrite filter_app, map_app. reflexivity. Qed.

Lemma map_snd_by_row (ms : list (primitive A rgba)) :
  map snd (by_row ms) = ms.
Proof.
  unfold by_row. generalize 0%nat.
  induction ms as [|m ms IH]; intro start; simpl; [reflexivity|].
  rewrite IH. reflexivity.
Qed.

Lemma glyph_pair (k idx : nat) (ds : list (primitive A rgba)) :
  glyph k (map (pair idx) ds) = if Nat.eqb idx k then ds else [].
Proof.
  unfold glyph. induction ds as [|d ds IH]; simpl.
  - destruct (Nat.eqb idx k); reflexivity.
  - destruct (Nat.eqb idx k) eqn:E; simpl; rewrite IH; reflexivity.
Qed.

End GlyphFacts.

Section GlyphSpec.

Context {A : Type} {N : Numeric A} {T : Trig A} {P : PyFloat A}.
Variable rgba : Type.
Variable scatter_other : forall X : Type, nat -> list X -> result (list X).

(** The markers of row [k] among per-row blocks of markers (the sparkle
    loop). *)
Lemma glyph_blocks {X : Type} (dots : nat -> X -> list (primitive A rgba))
  (rows : list X) : forall start k,
  glyph k (concat (map (fun ir => map (pair (fst ir)) (dots (fst ir) (snd ir)))
                       (combine (seq start (length rows)) rows)))
  = match nth_error rows (k - start) with
    | Some r => if Nat.leb start k then dots k r else []
    | None => []
    end.
Proof.
  induction rows as [|r rows IH]; intros start k.
  - simpl. destruct (k - start)%nat; reflexivity.
  - cbn [length seq combine map concat fst snd].
    rewrite glyph_app, glyph_pair, IH.
    destruct (Nat.eqb start k) eqn:E.
    + apply Nat.eqb_eq in E. subst k. rewrite Nat.sub_diag.
      replace (start - S start)%nat with 0%nat by lia.
      rewrite Nat.leb_refl.
      replace (Nat.leb (S start) start) with false
        by (symmetry; apply Nat.leb_gt; lia).
      simpl. destruct rows; rewrite app_nil_r; reflexivity.
    + apply Nat.eqb_neq in E.
      destruct (Nat.leb start k) eqn:L.
      * apply Nat.leb_le in L.
        replace (Nat.leb (S start) k) with true
          by (symmetry; apply Nat.leb_le; lia).
        replace (k - start)%nat with (S (k - S start)) by lia.
        reflexivity.
      * apply Nat.leb_gt in L.
        replace (Nat.leb (S start) k) with false
          by (symmetry; apply Nat.leb_gt; lia).
        destruct (nth_error rows (k - S start));
          destruct (nth_error (r :: rows) (k - start)); reflexivity.
Qed.

(** A scatter with one size and one colour per point draws one marker per
    point, each with the marker shape and the zorder of the call. *)
Lemma scatter_nth (x y : list A) (s : arg A) (c : arg (color rgba))
  (mk : marker) (e : color rgba) (lw : option A) (al : A) (z : Z)
  (ss : list A) (cs : list (color rgba)) :
  length y = length x ->
  broadcast scatter_other (length x) s = Ok ss ->
  broadcast scatter_other (length x) c = Ok cs ->
  length ss = length x ->
  length cs = length x ->
  exists ms,
    scatter scatter_other x y s c mk e lw al z = Ok ms
    /\ length ms = length x
    /\ map (@zorder A rgba) ms = repeat z (length x)
    /\ map (@shape A rgba) ms = repeat mk (length x)
    /\ forall k xk yk sk ck,
         nth_error x k = Some xk -> nth_error y k = Some yk ->
         nth_error ss k = Some sk -> nth_error cs k = Some ck ->
         nth_error ms k
         = Some {| px := xk; py := yk; size := sk; fill := ck; shape := mk;
                   edgecolor := e; linewidth := lw; alpha := al;
                   zorder := z |}.
Proof.
  intros Hy Hs Hc Lss Lcs. unfold scatter.
  rewrite Hy, Nat.eqb_refl, Hs, Hc. unfold bind.
  eexists. split; [reflexivity|].
  set (pts := combine (combine (combine x y) ss) cs).
  assert (Hlen : length pts = length x).
  { unfold pts. rewrite !length_combine, Hy, Lss, Lcs, !Nat.min_id.
    reflexivity. }
  split; [rewrite length_map; exact Hlen|].
  split; [|split].
  - rewrite <- Hlen. clear. induction pts as [|[[[x_ y_] s_] c_] pts IH];
      simpl; [reflexivity | rewrite IH; reflexivity].
  - rewrite <- Hlen. clear. induction pts as [|[[[x_ y_] s_] c_] pts IH];
      simpl; [reflexivity | rewrite IH; reflexivity].
  - intros k xk yk sk ck Hxk Hyk Hsk Hck.
    apply (map_nth_error
             (fun '(x_, y_, s_, c_) =>
                {| px := x_; py := y_; size := s_; fill := c_; shape := mk;
                   edgecolor := e; linewidth := lw; alpha := al;
                   zorder := z |})
             k _ (d := (xk, yk, sk, ck))).
    repeat apply nth_error_combine; assumption.
Qed.

(** An array with one entry per point is taken as it is. *)
Lemma broadcast_array {X : Type} (n : nat) (vs : list X) :
  length vs = n -> broadcast scatter_other n (Array vs) = Ok vs.
Proof. intro H. unfold broadcast. rewrite H, Nat.eqb_refl. reflexivity. Qed.

(** [star_sizes[idx]]: the three cases of the index. *)
Lemma getitem_position (a : list A) (k : nat) (v : A) :
  nth_error a k = Some v -> getitem a (Z.of_nat k) = Ok v.
Proof.
  intro H. unfold getitem.
  assert (Hk : (k < length a)%nat) by (apply nth_error_Some; congruence).
  replace ((0 <=? Z.of_nat k)%Z) with true by (symmetry; apply Z.leb_le; lia).
  replace ((Z.of_nat k <? Z.of_nat (length a))%Z) with true
    by (symmetry; apply Z.ltb_lt; lia).
  cbn [andb]. rewrite Nat2Z.id, H. reflexivity.
Qed.

Lemma getitem_in_range (a : list A) (idx : Z) :
  (- Z.of_nat (length a) <= idx < Z.of_nat (length a))%Z ->
  exists v, getitem a idx = Ok v.
Proof.
  intro H. unfold getitem.
  destruct (Z.leb_spec 0 idx) as [Hpos | Hneg].
  - replace ((idx <? Z.of_nat (length a))%Z) with true
      by (symmetry; apply Z.ltb_lt; lia).
    cbn [andb].
    destruct (nth_error a (Z.to_nat idx)) as [v|] eqn:E;
      [exists v; reflexivity|].
    apply nth_error_None in E. lia.
  - cbn [andb].
    replace ((- Z.of_nat (length a) <=? idx)%Z) with true
      by (symmetry; apply Z.leb_le; lia).
    replace ((idx <? 0)%Z) with true by (symmetry; apply Z.ltb_lt; lia).
    cbn [andb].
    destruct (nth_error a (Z.to_nat (Z.of_nat (length a) + idx))) as [v|] eqn:E;
      [exists v; reflexivity|].
    apply nth_error_None in E. lia.
Qed.

Lemma getitem_out_of_range (a : list A) (idx : Z) :
  ~ (- Z.of_nat (length a) <= idx < Z.of_nat (length a))%Z ->
  getitem a idx = Raise IndexError.
Proof.
  intro H. unfold getitem.
  destruct (Z.leb_spec 0 idx) as [Hpos | Hneg].
  - replace ((idx <? Z.of_nat (length a))%Z) with false
      by (symmetry; apply Z.ltb_ge; lia).
    cbn [andb].
    replace ((idx <? 0)%Z) with false by (symmetry; apply Z.ltb_ge; lia).
    rewrite andb_false_r. reflexivity.
  - cbn [andb].
    replace ((- Z.of_nat (length a) <=? idx)%Z) with false
      by (symmetry; apply Z.leb_gt; lia).
    reflexivity.
Qed.

(** In a frame with the default index the label of a row is its
    position. *)
Lemma default_index_label (gdf_pa : list (pa_row A)) (k : nat)
  (row : pa_row A) :
  default_index gdf_pa -> nth_error gdf_pa k = Some row ->
  index_label row = Z.of_nat k.
Proof.
  intros Hd Hrow.
  assert (Hk : (k < length gdf_pa)%nat) by (apply nth_error_Some; congruence).
  pose proof (map_nth_error (@index_label A) k gdf_pa Hrow) as H1.
  rewrite Hd, nth_error_map, nth_error_seq in H1.
  replace (Nat.ltb k (length gdf_pa)) with true in H1
    by (symmetry; apply Nat.ltb_lt; exact Hk).
  cbn [option_map] in H1. injection H1 as H1. symmetry. exact H1.
Qed.

Lemma default_index_in_range (gdf_pa : list (pa_row A)) (n : nat) :
  default_index gdf_pa -> length gdf_pa = n ->
  Forall (fun row => (- Z.of_nat n <= index_label row < Z.of_nat n)%Z) gdf_pa.
Proof.
  intros Hd Hn. apply Forall_forall. intros row Hin.
  destruct (In_nth_error _ _ Hin) as [k Hk].
  rewrite (@default_index_label gdf_pa k row Hd Hk).
  assert ((k < length gdf_pa)%nat) by (apply nth_error_Some; congruence).
  lia.
Qed.

(** One iteration of the sparkle loop, when the label of the row indexes a
    size. *)
Lemma sparkle_points_ok (star_sizes : list A) (k : nat) (row : pa_row A)
  (base : A) :
  getitem star_sizes (index_label row) = Ok base ->
  sparkle_points rgba scatter_other star_sizes k row
  = Ok (map (pair k)
            (map (sparkle_dot rgba (geometry_x row) (geometry_y row) base)
                 [0; 1; 2; 3; 4]%Z)).
Proof.
  intro H. unfold sparkle_points. rewrite H. reflexivity.
Qed.

Lemma sparkle_points_raises (star_sizes : list A) (k : nat) (row : pa_row A) :
  ~ (- Z.of_nat (length star_sizes) <= index_label row
     < Z.of_nat (length star_sizes))%Z ->
  sparkle_points rgba scatter_other star_sizes k row = Raise IndexError.
Proof.
  intro H. unfold sparkle_points.
  rewrite getitem_out_of_range by exact H. reflexivity.
Qed.

(** [mapM] stops at the first element that raises. *)
Lemma mapM_raises {X Y : Type} (f : X -> result Y) (g : X -> Y) (e : exn)
  (l : list X) :
  (forall x, In x l -> f x = Ok (g x) \/ f x = Raise e) ->
  Exists (fun x => f x = Raise e) l ->
  mapM f l = Raise e.
Proof.
  induction l as [|x l IH]; intros Hall Hex; [inversion Hex|].
  simpl. destruct (Hall x (or_introl eq_refl)) as [Hx | Hx]; rewrite Hx.
  - cbn [bind]. rewrite IH; [reflexivity | |].
    + intros y Hy. apply Hall. right. exact Hy.
    + inversion Hex as [? ? H | ? ? H]; subst; [congruence | exact H].
  - reflexivity.
Qed.

(** The four whole-frame scatters succeed when there is one size and one
    colour per row; they draw the four star layers of each row. *)
Lemma star_layers_ok (gdf_pa : list (pa_row A)) (star_sizes : list A)
  (colors : list rgba) :
  length star_sizes = length gdf_pa ->
  length colors = length gdf_pa ->
  let xs := map (@geometry_x A) gdf_pa in
  let ys := map (@geometry_y A) gdf_pa in
  let n := length gdf_pa in
  exists outer medium inner main_star,
    scatter scatter_other xs ys
      (Array (map (fun s => np_multiply s (lit 25 10)) star_sizes))
      (Array (map (@RGBA rgba) colors)) Star NoColor (Some (of_Z 0))
      (lit 15 100) 8 = Ok outer
    /\ scatter scatter_other xs ys
         (Array (map (fun s => np_multiply s (lit 18 10)) star_sizes))
         (Array (map (@RGBA rgba) colors)) Star NoColor (Some (of_Z 0))
         (lit 25 100) 9 = Ok medium
    /\ scatter scatter_other xs ys
         (Array (map (fun s => np_multiply s (lit 13 10)) star_sizes))
         (Scalar (Named "white")) Star NoColor (Some (of_Z 0))
         (lit 35 100) 10 = Ok inner
    /\ scatter scatter_other xs ys (Array star_sizes)
         (Array (map (@RGBA rgba) colors)) Star (Named "#34495e")
         (Some (lit 12 10)) (lit 95 100) 11 = Ok main_star
    /\ map (fun rm => zorder (snd rm))
           (by_row outer ++ by_row medium ++ by_row inner ++ by_row main_star)
       = repeat 8%Z n ++ repeat 9%Z n ++ repeat 10%Z n ++ repeat 11%Z n
    /\ map (fun rm => shape (snd rm))
           (by_row outer ++ by_row medium ++ by_row inner ++ by_row main_star)
       = repeat Star (4 * n)
    /\ forall k row base c,
         nth_error gdf_pa k = Some row ->
         nth_error star_sizes k = Some base ->
         nth_error colors k = Some c ->
         glyph k (by_row outer ++ by_row medium ++ by_row inner
                  ++ by_row main_star)
         = firstn 4 (render_glyph (geometry_x row) (geometry_y row) base c).
Proof.
  intros Hs Hc xs ys n. unfold n. clear n.
  assert (Hx : length xs = length gdf_pa) by apply length_map.
  assert (Hy : length ys = length xs)
    by (unfold xs, ys; rewrite !length_map; reflexivity).
  assert (Lcol : length (map (@RGBA rgba) colors) = length xs)
    by (rewrite length_map; congruence).
  assert (Lsz : forall f : A -> A, length (map f star_sizes) = length xs)
    by (intro f; rewrite length_map; congruence).
  assert (Lsz' : length star_sizes = length xs) by congruence.
  assert (Lwhite : length (repeat (@Named rgba "white") (length xs))
                   = length xs) by apply repeat_length.
  assert (Hcol : broadcast scatter_other (length xs)
                   (Array (map (@RGBA rgba) colors))
                 = Ok (map RGBA colors))
    by (apply broadcast_array; exact Lcol).
  assert (Hsz : forall f : A -> A,
             broadcast scatter_other (length xs) (Array (map f star_sizes))
             = Ok (map f star_sizes))
    by (intro f; apply broadcast_array; apply Lsz).
  assert (Hsz' : broadcast scatter_other (length xs) (Array star_sizes)
                 = Ok star_sizes)
    by (apply broadcast_array; exact Lsz').
  assert (Hwhite : broadcast scatter_other (length xs)
                     (Scalar (@Named rgba "white"))
                   = Ok (repeat (Named "white") (length xs))) by reflexivity.
  destruct (@scatter_nth xs ys _ _ Star NoColor (Some (of_Z 0)) (lit 15 100) 8
              _ _ Hy (Hsz (fun s => np_multiply s (lit 25 10))) Hcol
              (Lsz _) Lcol)
    as (outer & Eo & L1 & Z1 & S1 & Houter).
  destruct (@scatter_nth xs ys _ _ Star NoColor (Some (of_Z 0)) (lit 25 100) 9
              _ _ Hy (Hsz (fun s => np_multiply s (lit 18 10))) Hcol
              (Lsz _) Lcol)
    as (medium & Em & L2 & Z2 & S2 & Hmedium).
  destruct (@scatter_nth xs ys _ _ Star NoColor (Some (of_Z 0)) (lit 35 100)
              10 _ _ Hy (Hsz (fun s => np_multiply s (lit 13 10))) Hwhite
              (Lsz _) Lwhite)
    as (inner & Ei & L3 & Z3 & S3 & Hinner).
  destruct (@scatter_nth xs ys _ _ Star (Named "#34495e") (Some (lit 12 10))
              (lit 95 100) 11 _ _ Hy Hsz' Hcol Lsz' Lcol)
    as (main_star & Ef & L4 & Z4 & S4 & Hmain).
  exists outer, medium, inner, main_star.
  split; [exact Eo|]. split; [exact Em|]. split; [exact Ei|].
  split; [exact Ef|].
  assert (Hz : forall ms : list (primitive A rgba),
             map (fun rm => zorder (snd rm)) (by_row ms)
             = map (@zorder A rgba) ms).
  { intro ms. rewrite <- (map_snd_by_row ms) at 2. rewrite map_map.
    reflexivity. }
  assert (Hsh : forall ms : list (primitive A rgba),
             map (fun rm => shape (snd rm)) (by_row ms)
             = map (@shape A rgba) ms).
  { intro ms. rewrite <- (map_snd_by_row ms) at 2. rewrite map_map.
    reflexivity. }
  split; [|split].
  - rewrite !map_app, !Hz, Z1, Z2, Z3, Z4, Hx. reflexivity.
  - rewrite !map_app, !Hsh, S1, S2, S3, S4, Hx.
    replace (4 * length gdf_pa)%nat
      with (length gdf_pa + (length gdf_pa + (length gdf_pa
            + length gdf_pa)))%nat by lia.
    rewrite !repeat_app. reflexivity.
  - intros k row base c Hrow Hbase Hcolor.
    assert (Hxk : nth_error xs k = Some (geometry_x row))
      by (apply map_nth_error; exact Hrow).
    assert (Hyk : nth_error ys k = Some (geometry_y row))
      by (apply map_nth_error; exact Hrow).
    assert (Hck : nth_error (map (@RGBA rgba) colors) k = Some (RGBA c))
      by (apply map_nth_error; exact Hcolor).
    assert (Hk : (k < length xs)%nat).
    { rewrite Hx. apply nth_error_Some. congruence. }
    pose proof (Houter k _ _ _ _ Hxk Hyk
                  (map_nth_error (fun s => np_multiply s (lit 25 10))
                                 k star_sizes Hbase) Hck) as Ho.
    pose proof (Hmedium k _ _ _ _ Hxk Hyk
                  (map_nth_error (fun s => np_multiply s (lit 18 10))
                                 k star_sizes Hbase) Hck) as Hm.
    pose proof (Hinner k _ _ _ _ Hxk Hyk
                  (map_nth_error (fun s => np_multiply s (lit 13 10))
                                 k star_sizes Hbase)
                  (nth_error_repeat _ Hk)) as Hi.
    pose proof (Hmain k _ _ _ _ Hxk Hyk Hbase Hck) as Hf.
    rewrite !glyph_app.
    rewrite (glyph_by_row _ _ Ho), (glyph_by_row _ _ Hm),
      (glyph_by_row _ _ Hi), (glyph_by_row _ _ Hf).
    reflexivity.
Qed.

(** The markers of the sparkle blocks, by field. *)
Lemma sparkle_blocks_fields (dots_base : pa_row A -> A)
  (rows : list (nat * pa_row A)) :
  let block (ir : nat * pa_row A) :=
    map (pair (fst ir))
        (map (sparkle_dot rgba (geometry_x (snd ir)) (geometry_y (snd ir))
                          (dots_base (snd ir)))
             [0; 1; 2; 3; 4]%Z) in
  map (fun rm => zorder (snd rm)) (concat (map block rows))
  = repeat 12%Z (5 * length rows)
  /\ map (fun rm => shape (snd rm)) (concat (map block rows))
     = repeat Circle (5 * length rows).
Proof.
  intro block. induction rows as [|ir rows [IHz IHs]].
  - split; reflexivity.
  - cbn [map concat length]. rewrite !map_app, IHz, IHs.
    replace (5 * S (length rows))%nat with (5 + 5 * length rows)%nat by lia.
    rewrite !repeat_app. split; reflexivity.
Qed.

(** The glyph statements, with one size and one colour per row.  When the
    label of every row indexes [star_sizes], nine markers per row are
    added, zorder by zorder, and the markers of the row at position [k] are
    four stars of the size at position [k] and five dots of the size at the
    label of the row.  When the label of some row does not index
    [star_sizes], the sparkle loop raises IndexError. *)
Lemma scatter_star_glyphs_labels (gdf_pa : list (pa_row A))
  (star_sizes : list A) (colors : list rgba) :
  length star_sizes = length gdf_pa ->
  length colors = length gdf_pa ->
  let n := length gdf_pa in
  let in_range (row : pa_row A) :=
    (- Z.of_nat n <= index_label row < Z.of_nat n)%Z in
  (Forall in_range gdf_pa ->
   exists drawn,
     scatter_star_glyphs scatter_other gdf_pa star_sizes colors = Ok drawn
     /\ map (fun rm => zorder (snd rm)) drawn
        = repeat 8%Z n ++ repeat 9%Z n ++ repeat 10%Z n ++ repeat 11%Z n
          ++ repeat 12%Z (5 * n)
     /\ map (fun rm => shape (snd rm)) drawn
        = repeat Star (4 * n) ++ repeat Circle (5 * n)
     /\ forall k row base dots_base c,
          nth_error gdf_pa k = Some row ->
          nth_error star_sizes k = Some base ->
          getitem star_sizes (index_label row) = Ok dots_base ->
          nth_error colors k = Some c ->
          glyph k drawn
          = firstn 4 (render_glyph (geometry_x row) (geometry_y row) base c)
            ++ map (sparkle_dot rgba (geometry_x row) (geometry_y row)
                                dots_base) [0; 1; 2; 3; 4]%Z)
  /\ (~ Forall in_range gdf_pa ->
      scatter_star_glyphs scatter_other gdf_pa star_sizes colors
      = Raise IndexError).
Proof.
  intros Hs Hc n in_range.
  destruct (@star_layers_ok gdf_pa star_sizes colors Hs Hc)
    as (outer & medium & inner & main_star & Eo & Em & Ei & Ef & Hz & Hsh
        & Hstars).
  set (dots_base := fun row : pa_row A =>
                      match getitem star_sizes (index_label row) with
                      | Ok v => v
                      | Raise _ => of_Z 0
                      end).
  set (block := fun ir : nat * pa_row A =>
                  map (pair (fst ir))
                      (map (sparkle_dot rgba (geometry_x (snd ir))
                                        (geometry_y (snd ir))
                                        (dots_base (snd ir)))
                           [0; 1; 2; 3; 4]%Z)).
  assert (Hcases : forall ir, In ir (combine (seq 0 n) gdf_pa) ->
            (let (k, row) := ir in
             sparkle_points rgba scatter_other star_sizes k row)
            = (if Z.leb (- Z.of_nat n) (index_label (snd ir))
                  && Z.ltb (index_label (snd ir)) (Z.of_nat n)
               then Ok (block ir) else Raise IndexError)).
  { intros [k row] _. cbn [snd].
    destruct (Z.leb_spec (- Z.of_nat n) (index_label row)) as [L | L];
      destruct (Z.ltb_spec (index_label row) (Z.of_nat n)) as [U | U];
      cbn [andb];
      try (apply sparkle_points_raises; rewrite Hs; fold n; lia).
    destruct (@getitem_in_range star_sizes (index_label row)) as [v Hv];
      [rewrite Hs; fold n; lia|].
    rewrite (@sparkle_points_ok star_sizes k row v Hv).
    unfold block, dots_base. cbn [fst snd]. rewrite Hv. reflexivity. }
  unfold scatter_star_glyphs. fold n.
  rewrite Eo, Em, Ei, Ef. cbn [bind].
  split.
  - intro Hall.
    rewrite (mapM_ok _ block).
    2:{ intros ir Hin. rewrite (Hcases ir Hin).
        assert (Hr : in_range (snd ir)).
        { rewrite Forall_forall in Hall. apply Hall.
          destruct ir as [k row]. exact (in_combine_r _ _ _ _ Hin). }
        unfold in_range in Hr.
        replace (Z.leb (- Z.of_nat n) (index_label (snd ir))) with true
          by (symmetry; apply Z.leb_le; lia).
        replace (Z.ltb (index_label (snd ir)) (Z.of_nat n)) with true
          by (symmetry; apply Z.ltb_lt; lia).
        reflexivity. }
    cbn [bind]. eexists. split; [reflexivity|].
    destruct (sparkle_blocks_fields dots_base (combine (seq 0 n) gdf_pa))
      as [Z5 S5].
    assert (Hrows : length (combine (seq 0 n) gdf_pa) = n).
    { rewrite length_combine, length_seq. apply Nat.min_id. }
    rewrite Hrows in Z5, S5. fold block in Z5, S5.
    split; [|split].
    + rewrite !app_assoc, map_app, <- !app_assoc, Hz, Z5, <- !app_assoc.
      reflexivity.
    + rewrite !app_assoc, map_app, <- !app_assoc, Hsh, S5. reflexivity.
    + intros k row base dots c Hrow Hbase Hdots Hcolor.
      rewrite !app_assoc, glyph_app, <- !app_assoc.
      rewrite (Hstars k row base c Hrow Hbase Hcolor). f_equal.
      unfold block, n.
      rewrite (glyph_blocks
                 (fun (_ : nat) (r : pa_row A) =>
                    map (sparkle_dot rgba (geometry_x r) (geometry_y r)
                                     (dots_base r)) [0; 1; 2; 3; 4]%Z)).
      rewrite Nat.sub_0_r, Hrow. cbn [Nat.leb].
      unfold dots_base. rewrite Hdots. reflexivity.
  - intro Hnot.
    rewrite (@mapM_raises _ _ _ block IndexError).
    + reflexivity.
    + intros ir Hin. rewrite (Hcases ir Hin).
      destruct (_ && _); [left | right]; reflexivity.
    + apply Exists_exists.
      apply neg_Forall_Exists_neg in Hnot.
      2:{ intro row. unfold in_range.
          destruct (Z_le_dec (- Z.of_nat n) (index_label row));
            destruct (Z_lt_dec (index_label row) (Z.of_nat n));
            [left; lia | right; lia ..]. }
      apply Exists_exists in Hnot. destruct Hnot as (row & Hin & Hout).
      destruct (In_nth_error _ _ Hin) as [k Hk].
      assert (Hkn : (k < n)%nat) by (apply nth_error_Some; congruence).
      assert (Hir : In (k, row) (combine (seq 0 n) gdf_pa)).
      { apply (nth_error_In _ k). apply nth_error_combine; [|exact Hk].
        rewrite nth_error_seq.
        replace (Nat.ltb k n) with true by (symmetry; apply Nat.ltb_lt; lia).
        reflexivity. }
      exists (k, row). split; [exact Hir|].
      apply sparkle_points_raises. rewrite Hs. exact Hout.
Qed.

(** With the default index the label of every row indexes its own size, and
    the markers of a row are the layer sequence [render_glyph] of its
    centre, size and colour. *)
Lemma scatter_star_glyphs_glyph (gdf_pa : list (pa_row A))
  (star_sizes : list A) (colors : list rgba) :
  length star_sizes = length gdf_pa ->
  length colors = length gdf_pa ->
  default_index gdf_pa ->
  exists drawn,
    scatter_star_glyphs scatter_other gdf_pa star_sizes colors = Ok drawn
    /\ forall k row base c,
         nth_error gdf_pa k = Some row ->
         nth_error star_sizes k = Some base ->
         nth_error colors k = Some c ->
         glyph k drawn
         = render_glyph (geometry_x row) (geometry_y row) base c.
Proof.
  intros Hs Hc Hd.
  destruct (proj1 (@scatter_star_glyphs_labels gdf_pa star_sizes colors Hs Hc)
              (@default_index_in_range gdf_pa (length gdf_pa) Hd eq_refl))
    as (drawn & Hdrawn & _ & _ & Hg).
  exists drawn. split; [exact Hdrawn|].
  intros k row base c Hrow Hbase Hcolor.
  rewrite (Hg k row base base c Hrow Hbase); [reflexivity | | exact Hcolor].
  rewrite (@default_index_label gdf_pa k row Hd Hrow).
  apply getitem_position. exact Hbase.
Qed.

End GlyphSpec.

Section ExactGlyph.

Local Open Scope R_scope.

Lemma xdiv_Fin (a b : R) : b <> 0 -> np_divide (Fin a) (Fin b) = Fin (a / b).
Proof.
  intro Hb. simpl. unfold Reqb.
  destruct (Req_dec_T b 0); [contradiction | reflexivity].
Qed.

(** A decimal literal denotes its rational value. *)
Lemma lit_exact (p q : Z) : (q <> 0)%Z -> lit p q = Fin (IZR p / IZR q).
Proof.
  intro Hq. unfold lit. cbn [of_Z exact]. apply xdiv_Fin.
  apply not_0_IZR. exact Hq.
Qed.

Lemma tip_radius_exact (base : R) :
  0 <= base -> tip_radius (Fin base) = Fin (sqrt (base / PI) * 0.6).
Proof.
  intro Hb. unfold tip_radius.
  pose proof PI_RGT_0 as Hpi.
  cbn [np_pi exact_trig]. rewrite xdiv_Fin by apply PI_neq0.
  rewrite lit_exact by discriminate.
  cbn [np_sqrt np_multiply exact xsqrt xmul]. unfold Rltb.
  destruct (Rlt_dec (base / PI) 0) as [C | _].
  - exfalso. assert (0 <= base / PI); [|lra].
    apply Rmult_le_pos; [lra|]. left. apply Rinv_0_lt_compat. lra.
  - cbn [xmul]. reflexivity.
Qed.

Lemma tip_angle_exact (i : Z) :
  tip_angle i = Fin (IZR i * 2 * PI / 5 + PI / 2).
Proof.
  unfold tip_angle. cbn [np_pi exact_trig of_Z exact].
  rewrite (xdiv_Fin PI (b := 2)) by (apply not_0_IZR; discriminate).
  cbn [np_multiply exact xmul].
  rewrite xdiv_Fin by (apply not_0_IZR; discriminate).
  cbn [np_add exact xadd]. rewrite mult_IZR. reflexivity.
Qed.

(** The position of the [i]-th sparkle dot of a glyph with a finite centre
    and a non-negative size. *)
Lemma sparkle_dot_position (rgba : Type) (x y base : R) (i : Z) :
  0 <= base ->
  px (sparkle_dot rgba (Fin x) (Fin y) (Fin base) i)
  = Fin (x + sqrt (base / PI) * 0.6 * cos (IZR i * 2 * PI / 5 + PI / 2))
  /\ py (sparkle_dot rgba (Fin x) (Fin y) (Fin base) i)
     = Fin (y + sqrt (base / PI) * 0.6 * sin (IZR i * 2 * PI / 5 + PI / 2)).
Proof.
  intro Hb. unfold sparkle_dot. cbn [px py].
  change (np_multiply (np_sqrt (np_divide (Fin base) np_pi)) (lit 6 10))
    with (tip_radius (Fin base)).
  change (np_add (np_divide (np_multiply (of_Z (i * 2)) np_pi) (of_Z 5))
                 (np_divide np_pi (of_Z 2)))
    with (tip_angle (A := xreal) i).
  rewrite (tip_radius_exact Hb), tip_angle_exact.
  split; reflexivity.
Qed.

End ExactGlyph.

Section GlyphClaims.



(** The markers among the artists of a finished figure are the glyph
    markers: the tree adds patches, the boundary a plot. *)
Lemma markers_of_figure (A rgba patch coord : Type)
  (patches : list patch) (b : GeoDataFrame coord)
  (glyphs : list (nat * primitive A rgba)) :
  markers_of (map (@TreePatch A rgba patch coord) patches
              ++ [BoundaryPlot rgba patch b]
              ++ map (fun '(row, m) => Marker patch coord row m) glyphs)
  = glyphs.
Proof.
  unfold markers_of. rewrite !flat_map_app.
  assert (E1 : flat_map
                 (fun a : artist rgba patch coord =>
                    match a with Marker _ _ row m => [(row, m)] | _ => [] end)
                 (map (@TreePatch A rgba patch coord) patches) = []).
  { induction patches as [|p ps IH]; simpl; auto. }
  rewrite E1. simpl.
  induction glyphs as [|[row m] gs IH]; simpl; [reflexivity|].
  rewrite IH. reflexivity.
Qed.

(** The steps of [create_visualization], one after the other: the tree, the
    sizes, the glyph statements, the axis limits. *)
Lemma create_visualization_steps (A : Type) (N : Numeric A) (T : Trig A)
  (P : PyFloat A) (rgba rng patch coord : Type)
  (scatter_other : forall X : Type, nat -> list X -> result (list X))
  (seed : Z -> rng)
  (tree_patches : rng -> A * A * A * A -> result (list patch * rng))
  (total_bounds : GeoDataFrame coord -> A * A * A * A)
  (series_min series_max : list A -> A) (Normalize : A -> A -> A -> A)
  (YlOrRd : A -> rgba) (g : rng) (gdf_pa : list (pa_row A))
  (gdf_boundary : GeoDataFrame coord) :
  let areas := map (@area_km2 A) gdf_pa in
  let colors :=
    map (fun v => YlOrRd (Normalize (series_min areas) (series_max areas) v))
        areas in
  create_visualization scatter_other seed tree_patches total_bounds
    series_min series_max Normalize YlOrRd g gdf_pa gdf_boundary
  = (let '(b0, b1, b2, b3) := total_bounds gdf_boundary in
     match tree_patches (seed 42%Z) (b0, b2, b1, b3) with
     | Raise e => Raise e
     | Ok (patches, g') =>
         match calculate_star_sizes areas default_min_size
                 default_max_size with
         | Raise e => Raise e
         | Ok star_sizes =>
             match scatter_star_glyphs scatter_other gdf_pa star_sizes
                     colors with
             | Raise e => Raise e
             | Ok glyphs =>
                 match set_lim (fst (axis_limits (b0, b1, b2, b3))) with
                 | Raise e => Raise e
                 | Ok _ =>
                     match set_lim (snd (axis_limits (b0, b1, b2, b3))) with
                     | Raise e => Raise e
                     | Ok _ =>
                         Ok (map (@TreePatch A rgba patch coord) patches
                             ++ [BoundaryPlot rgba patch gdf_boundary]
                             ++ map (fun '(row, m) =>
                                       Marker patch coord row m) glyphs, g')
                     end
                 end
             end
         end
     end).
Proof.
  intros areas colors.
  unfold create_visualization, create_soft_watercolor_tree.
  destruct (total_bounds gdf_boundary) as [[[b0 b1] b2] b3].
  destruct (tree_patches (seed 42%Z) (b0, b2, b1, b3)) as [[patches g']|e];
    [|reflexivity].
  cbn [bind]. fold areas.
  destruct (calculate_star_sizes areas default_min_size default_max_size)
    as [star_sizes|e]; [|reflexivity].
  cbn [bind]. fold colors.
  destruct (scatter_star_glyphs scatter_other gdf_pa star_sizes colors)
    as [glyphs|e]; [|reflexivity].
  cbn [bind].
  destruct (axis_limits (b0, b1, b2, b3)) as [xlim ylim]. cbn [fst snd].
  destruct (set_lim xlim) as [[]|e]; [|reflexivity].
  cbn [bind].
  destruct (set_lim ylim) as [[]|e]; reflexivity.
Qed.

(** Inside [create_visualization] there is one size per row (from
    [calculate_star_sizes]) and one colour per row (a map over the areas).
    When the function returns, for a frame with its default index, the
    glyph of each row is the layer sequence at the row's point, its computed
    size and its colour. *)
Lemma create_visualization_glyphs (A : Type) (N : Numeric A) (T : Trig A)
  (P : PyFloat A) (rgba rng patch coord : Type)
  (scatter_other : forall X : Type, nat -> list X -> result (list X))
  (seed : Z -> rng)
  (tree_patches : rng -> A * A * A * A -> result (list patch * rng))
  (total_bounds : GeoDataFrame coord -> A * A * A * A)
  (series_min series_max : list A -> A) (Normalize : A -> A -> A -> A)
  (YlOrRd : A -> rgba) (g : rng) (gdf_pa : list (pa_row A))
  (gdf_boundary : GeoDataFrame coord) (arts : list (artist rgba patch coord))
  (g' : rng) :
  default_index gdf_pa ->
  create_visualization scatter_other seed tree_patches total_bounds
    series_min series_max Normalize YlOrRd g gdf_pa gdf_boundary
  = Ok (arts, g') ->
  exists star_sizes,
    calculate_star_sizes (map (@area_km2 A) gdf_pa)
      default_min_size default_max_size = Ok star_sizes
    /\ forall k row base,
         nth_error gdf_pa k = Some row ->
         nth_error star_sizes k = Some base ->
         glyph k (markers_of arts)
         = render_glyph (geometry_x row) (geometry_y row) base
             (YlOrRd (Normalize (series_min (map (@area_km2 A) gdf_pa))
                                (series_max (map (@area_km2 A) gdf_pa))
                                (area_km2 row))).
Proof.
  intros Hd Hrun. rewrite create_visualization_steps in Hrun.
  destruct (total_bounds gdf_boundary) as [[[b0 b1] b2] b3].
  destruct (tree_patches (seed 42%Z) (b0, b2, b1, b3)) as [[patches g1]|e];
    [|discriminate Hrun].
  set (areas := map (@area_km2 A) gdf_pa) in *.
  destruct (calculate_star_sizes_cases areas default_min_size default_max_size)
    as [[E Hraise] | [_ (star_sizes & Hsz & Hlen)]].
  { rewrite Hraise in Hrun. discriminate Hrun. }
  rewrite Hsz in Hrun.
  set (colors := map (fun v => YlOrRd (Normalize (series_min areas)
                                                   (series_max areas) v))
                     areas) in *.
  assert (Hs : length star_sizes = length gdf_pa).
  { rewrite Hlen. unfold areas. apply length_map. }
  assert (Hc : length colors = length gdf_pa).
  { unfold colors, areas. rewrite !length_map. reflexivity. }
  destruct (@scatter_star_glyphs_glyph A N T rgba scatter_other gdf_pa
              star_sizes colors Hs Hc Hd) as (drawn & Hdrawn & Hg).
  rewrite Hdrawn in Hrun.
  destruct (set_lim (fst (axis_limits (b0, b1, b2, b3)))) as [[]|e];
    [|discriminate Hrun].
  destruct (set_lim (snd (axis_limits (b0, b1, b2, b3)))) as [[]|e];
    [|discriminate Hrun].
  injection Hrun as <- <-.
  exists star_sizes. split; [exact Hsz|].
  intros k row base Hrow Hbase.
  pose proof (@markers_of_figure A rgba patch coord patches gdf_boundary
                drawn) as Hm.
  cbn [app] in Hm. rewrite Hm.
  apply Hg; [exact Hrow | exact Hbase |].
  unfold colors, areas. rewrite map_map.
  exact (map_nth_error
           (fun x : pa_row A =>
              YlOrRd (Normalize (series_min (map (@area_km2 A) gdf_pa))
                                (series_max (map (@area_km2 A) gdf_pa))
                                (area_km2 x)))
           k gdf_pa Hrow).
Qed.



End GlyphClaims.

Section SparkleGeometry.

Local Open Scope R_scope.





End SparkleGeometry.

Section ZeroSize.

Local Open Scope R_scope.





End ZeroSize.

(** ** [fetch_vietnam_boundary] *)

Section BoundaryClaims.

Variable coord : Type.
Variable path_exists : string -> bool.
Variable read_file : string -> result (GeoDataFrame coord).
Variable simplify : geometry coord -> geometry coord.

Lemma try_load_some (gadm_file : string) (gdf : GeoDataFrame coord) :
  try_load path_exists read_file simplify gadm_file = Ok (Some gdf) ->
  path_exists gadm_file = true
  /\ exists loaded, read_file gadm_file = Ok loaded /\ gdf = map simplify loaded.
Proof.
  unfold try_load.
  destruct (path_exists gadm_file); [|discriminate].
  destruct (read_file gadm_file) as [loaded | e]; [|discriminate].
  cbn [bind].
  destruct (count_coords loaded) as [total | e]; [|discriminate].
  cbn [bind].
  destruct (count_coords (map simplify loaded)) as [simplified | e];
    [|discriminate].
  cbn [bind].
  destruct (reduction simplified total) as [[] | e]; [|discriminate].
  cbn [bind]. intro H. injection H as <-.
  split; [reflexivity|]. exists loaded. split; reflexivity.
Qed.

End BoundaryClaims.

(** C9: when the boundary file does not exist [fetch_vietnam_boundary] raises
    its exception to the caller; whenever it returns a frame, the file
    exists, was read, and the frame is the simplified content of the file
    (never another geometry); and it raises nothing but that exception. *)
Theorem fetch_vietnam_boundary_missing_file :
  forall (coord : Type) (path_exists : string -> bool)
    (read_file : string -> result (GeoDataFrame coord))
    (simplify : geometry coord -> geometry coord) (gadm_file : string),
    (path_exists gadm_file = false ->
     fetch_vietnam_boundary path_exists read_file simplify gadm_file
     = Raise boundary_not_found)
    /\ (forall gdf,
           fetch_vietnam_boundary path_exists read_file simplify gadm_file
           = Ok gdf ->
           path_exists gadm_file = true
           /\ exists loaded,
                read_file gadm_file = Ok loaded /\ gdf = map simplify loaded)
    /\ (forall e,
           fetch_vietnam_boundary path_exists read_file simplify gadm_file
           = Raise e ->
           e = boundary_not_found).
Proof.
  intros coord path_exists read_file simplify gadm_file.
  unfold fetch_vietnam_boundary.
  split; [|split].
  - intro H. unfold try_load. rewrite H. reflexivity.
  - intros gdf H.
    destruct (try_load path_exists read_file simplify gadm_file)
      as [[loaded|] | e] eqn:E; try discriminate.
    injection H as <-. exact (try_load_some _ _ _ _ E).
  - intros e H.
    destruct (try_load path_exists read_file simplify gadm_file)
      as [[loaded|] | e']; try discriminate; injection H as <-; reflexivity.
Qed.

Lemma fetch_vietnam_boundary_missing_file_witness :
  fetch_vietnam_boundary (coord := R * R) (fun _ => false)
    (fun _ => Raise IOError) (fun g => g) "gadm41_VNM_0.json"
  = Raise boundary_not_found.
Proof.
  apply (proj1 (@fetch_vietnam_boundary_missing_file (R * R)%type
                  (fun _ => false) (fun _ => Raise IOError) (fun g => g)
                  "gadm41_VNM_0.json")).
  reflexivity.
Defined.

(** A file that exists and holds a polygon is returned, simplified. *)
Example fetch_vietnam_boundary_loads :
  fetch_vietnam_boundary (fun _ => true)
    (fun _ => Ok [Polygon [(0, 0); (1, 0); (1, 1); (0, 0)]%Z])
    (fun g => g) "gadm41_VNM_0.json"
  = Ok [Polygon [(0, 0); (1, 0); (1, 1); (0, 0)]%Z].
Proof. reflexivity. Qed.

(** A file that exists but cannot be read, or whose first geometry is
    empty, ends in the same exception. *)
Example fetch_vietnam_boundary_unreadable :
  fetch_vietnam_boundary (coord := Z * Z) (fun _ => true)
    (fun _ => Raise IOError) (fun g => g) "gadm41_VNM_0.json"
  = Raise boundary_not_found
  /\ fetch_vietnam_boundary (coord := Z * Z) (fun _ => true)
       (fun _ => Ok [Polygon []]) (fun g => g) "gadm41_VNM_0.json"
     = Raise boundary_not_found.
Proof. split; reflexivity. Qed.

(** * Further properties of the code *)

(** ** [calculate_star_sizes]: degenerate and invalid inputs *)

Section ScalingEdges.

Local Open Scope R_scope.

(** [np.minimum] and [np.maximum] propagate NaN through a reduction. *)
Lemma fold_minimum_NaN_acc (l : list xreal) :
  fold_left np_minimum l NaN = NaN.
Proof. induction l as [|y l IH]; simpl; [reflexivity | exact IH]. Qed.

Lemma fold_maximum_NaN_acc (l : list xreal) :
  fold_left np_maximum l NaN = NaN.
Proof.
  induction l as [|y l IH]; cbn [fold_left]; [reflexivity|].
  replace (np_maximum NaN y) with NaN by (destruct y; reflexivity).
  exact IH.
Qed.

Lemma minimum_NaN_r (x : xreal) : Exact.minimum x NaN = NaN.
Proof. destruct x; reflexivity. Qed.

Lemma maximum_NaN_r (x : xreal) : Exact.maximum x NaN = NaN.
Proof. destruct x; reflexivity. Qed.

Lemma fold_minimum_NaN (l : list xreal) : forall x,
  In NaN (x :: l) -> fold_left np_minimum l x = NaN.
Proof.
  induction l as [|y l IH]; intros x [Hx | Hin].
  - simpl. auto.
  - destruct Hin.
  - subst x. apply fold_minimum_NaN_acc.
  - cbn [fold_left]. apply IH. destruct Hin as [Hy | Hin].
    + left. subst y. apply minimum_NaN_r.
    + right. exact Hin.
Qed.

Lemma fold_maximum_NaN (l : list xreal) : forall x,
  In NaN (x :: l) -> fold_left np_maximum l x = NaN.
Proof.
  induction l as [|y l IH]; intros x [Hx | Hin].
  - simpl. auto.
  - destruct Hin.
  - subst x. apply fold_maximum_NaN_acc.
  - cbn [fold_left]. apply IH. destruct Hin as [Hy | Hin].
    + left. subst y. apply maximum_NaN_r.
    + right. exact Hin.
Qed.

Lemma element_NaN (mn mx s hi : xreal) :
  np_add mn
    (np_multiply (np_divide (np_subtract s NaN) (np_subtract hi NaN))
                 (np_subtract mx mn))
  = NaN.
Proof. destruct mn, mx, s, hi; reflexivity. Qed.

(** X1: one negative magnitude spoils the whole result: the square root of
    a negative number is NaN, the reductions [min] and [max] propagate it,
    and every output is NaN, whatever the other magnitudes and the sizes. *)
Theorem negative_magnitude_makes_all_nan :
  forall (magnitudes : list R) (m : R) (min_size max_size : xreal),
    In m magnitudes ->
    m < 0 ->
    calculate_star_sizes (map Fin magnitudes) min_size max_size
    = Ok (repeat NaN (length magnitudes)).
Proof.
  intros ms m mn mx Hin Hneg.
  assert (Hnan : In NaN (map np_sqrt (map Fin ms))).
  { apply in_map_iff. exists (Fin m). split; [|apply in_map; exact Hin].
    simpl. unfold Rltb. destruct (Rlt_dec m 0); [reflexivity | contradiction]. }
  destruct ms as [|m0 ms]; [destruct Hin|].
  change (map Fin (m0 :: ms)) with (Fin m0 :: map Fin ms).
  rewrite calculate_star_sizes_formula. f_equal.
  change (map Fin (m0 :: ms)) with (Fin m0 :: map Fin ms) in Hnan.
  cbn [map] in Hnan.
  rewrite (fold_minimum_NaN Hnan), (fold_maximum_NaN Hnan).
  change (Fin m0 :: map Fin ms) with (map Fin (m0 :: ms)).
  generalize (m0 :: ms). intro l.
  induction l as [|a l IH]; [reflexivity|].
  cbn [map length repeat]. rewrite IH. f_equal.
  apply element_NaN.
Qed.

Lemma negative_magnitude_makes_all_nan_witness :
  calculate_star_sizes (map Fin [100; -1; 720]) (Fin 80) (Fin 1000)
  = Ok [NaN; NaN; NaN].
Proof.
  apply (@negative_magnitude_makes_all_nan [100; -1; 720] (-1)
           (Fin 80) (Fin 1000)).
  - right; left; reflexivity.
  - lra.
Defined.

(** X2: on any non-empty input whose magnitudes are all the same
    non-negative number (a single record included) every output is NaN:
    the range of square roots is zero and the normalisation divides zero by
    zero. *)
Theorem equal_magnitudes_give_nan :
  forall (magnitudes : list R) (m min_size max_size : R),
    magnitudes <> [] ->
    0 <= m ->
    (forall a, In a magnitudes -> a = m) ->
    calculate_star_sizes (map Fin magnitudes) (Fin min_size) (Fin max_size)
    = Ok (repeat NaN (length magnitudes)).
Proof.
  intros ms m mn mx Hne Hm Hall.
  assert (E : ms = repeat m (length ms)).
  { clear Hne. induction ms as [|a l IH]; [reflexivity|].
    cbn [length repeat]. rewrite (Hall a (or_introl eq_refl)).
    f_equal. apply IH. intros b Hb. apply Hall. right. exact Hb. }
  destruct ms as [|a l]; [congruence|].
  rewrite E at 1. cbn [length].
  apply calculate_star_sizes_all_equal_exact. exact Hm.
Qed.

Lemma equal_magnitudes_give_nan_witness :
  calculate_star_sizes (map Fin [71]) (Fin 80) (Fin 1000) = Ok [NaN].
Proof.
  apply (@equal_magnitudes_give_nan [71] 71 80 1000).
  - discriminate.
  - lra.
  - intros a [<- | []]. reflexivity.
Defined.

End ScalingEdges.

(** ** [calculate_star_sizes]: what a size depends on *)

Section ScalingShape.

Local Open Scope R_scope.

(** With [a] a least and [b] a greatest magnitude of the list, the result is
    the interpolation between [sqrt a] and [sqrt b]. *)
Lemma calculate_star_sizes_extremes (ms : list R) (a b mn mx : R) :
  Forall (fun m => 0 <= m) ms ->
  In a ms -> In b ms ->
  (forall m, In m ms -> a <= m <= b) ->
  calculate_star_sizes (map Fin ms) (Fin mn) (Fin mx)
  = Ok (map (fun m => interpolate (sqrt a) (sqrt b) mn mx (sqrt m)) ms).
Proof.
  intros Hpos Ha Hb Hext.
  destruct ms as [|m0 ms]; [destruct Ha|].
  rewrite (calculate_star_sizes_exact mn mx Hpos).
  destruct (fold_Rmin_lower (map sqrt ms) (sqrt m0)) as [L1 L2].
  destruct (fold_Rmax_upper (map sqrt ms) (sqrt m0)) as [U1 U2].
  pose proof (fold_Rmin_In (map sqrt ms) (sqrt m0)) as Lin.
  pose proof (fold_Rmax_In (map sqrt ms) (sqrt m0)) as Uin.
  set (lo := fold_left Rmin (map sqrt ms) (sqrt m0)) in *.
  set (hi := fold_left Rmax (map sqrt ms) (sqrt m0)) in *.
  assert (Hall : forall s, In s (map sqrt (m0 :: ms)) -> lo <= s <= hi).
  { intros s [<- | Hs]; [lra|].
    rewrite Forall_forall in L2, U2. split; [apply L2 | apply U2]; exact Hs. }
  change (In lo (map sqrt (m0 :: ms))) in Lin.
  change (In hi (map sqrt (m0 :: ms))) in Uin.
  apply in_map_iff in Lin. destruct Lin as (x & Ex & Hx).
  apply in_map_iff in Uin. destruct Uin as (y & Ey & Hy).
  assert (Elo : lo = sqrt a).
  { pose proof (Hall (sqrt a) (in_map sqrt _ _ Ha)).
    pose proof (sqrt_le_1_alt _ _ (proj1 (Hext x Hx))). lra. }
  assert (Ehi : hi = sqrt b).
  { pose proof (Hall (sqrt b) (in_map sqrt _ _ Hb)).
    pose proof (sqrt_le_1_alt _ _ (proj2 (Hext y Hy))). lra. }
  rewrite Elo, Ehi. reflexivity.
Qed.

(** X3: in exact arithmetic, for non-negative magnitudes with least value
    [a] and greatest value [b], the size of an element [m] is
    [min_size + (sqrt m - sqrt a) / (sqrt b - sqrt a) * (max_size - min_size)],
    or NaN when [sqrt a = sqrt b]: the result is the map of this one function
    of [m], [a] and [b] over the input.  So in two inputs with the same
    extremes, records of the same magnitude get the same size, whatever the
    other records, their number and their order. *)
Theorem size_depends_on_extremes_only :
  forall (ms ms' : list R) (a b min_size max_size : R),
    Forall (fun m => 0 <= m) ms ->
    Forall (fun m => 0 <= m) ms' ->
    In a ms -> In b ms -> (forall m, In m ms -> a <= m <= b) ->
    In a ms' -> In b ms' -> (forall m, In m ms' -> a <= m <= b) ->
    let size_of (m : R) : xreal :=
      if Req_dec_T (sqrt b) (sqrt a) then NaN
      else Fin (min_size
                + (sqrt m - sqrt a) / (sqrt b - sqrt a)
                  * (max_size - min_size)) in
    calculate_star_sizes (map Fin ms) (Fin min_size) (Fin max_size)
    = Ok (map size_of ms)
    /\ calculate_star_sizes (map Fin ms') (Fin min_size) (Fin max_size)
       = Ok (map size_of ms')
    /\ forall i j m,
         nth_error ms i = Some m ->
         nth_error ms' j = Some m ->
         nth_error (map size_of ms) i = Some (size_of m)
         /\ nth_error (map size_of ms') j = Some (size_of m).
Proof.
  intros ms ms' a b mn mx Hpos Hpos' Ha Hb Hext Ha' Hb' Hext' size_of.
  change size_of
    with (fun m => interpolate (sqrt a) (sqrt b) mn mx (sqrt m)).
  split; [apply (calculate_star_sizes_extremes mn mx Hpos Ha Hb Hext)|].
  split; [apply (calculate_star_sizes_extremes mn mx Hpos' Ha' Hb' Hext')|].
  intros i j m Hi Hj.
  rewrite !nth_error_map, Hi, Hj. split; reflexivity.
Qed.

Lemma size_depends_on_extremes_only_witness :
  exists size_of : R -> xreal,
    calculate_star_sizes (map Fin [71; 100; 1156]) (Fin 80) (Fin 1000)
    = Ok (map size_of [71; 100; 1156])
    /\ calculate_star_sizes (map Fin [1156; 720; 100; 71; 100])
         (Fin 80) (Fin 1000) = Ok (map size_of [1156; 720; 100; 71; 100]).
Proof.
  eexists.
  refine (let H := @size_depends_on_extremes_only
                     [71; 100; 1156] [1156; 720; 100; 71; 100] 71 1156 80 1000
                     _ _ _ _ _ _ _ _ in
          conj (proj1 H) (proj1 (proj2 H))).
  - repeat constructor; lra.
  - repeat constructor; lra.
  - simpl; auto.
  - simpl; auto.
  - intros m [<- | [<- | [<- | []]]]; lra.
  - simpl; auto 6.
  - simpl; auto.
  - intros m [<- | [<- | [<- | [<- | [<- | []]]]]]; lra.
Defined.

Lemma interpolate_strict (lo hi mn mx s t : R) :
  lo < hi -> mn < mx -> s < t ->
  mn + (s - lo) / (hi - lo) * (mx - mn) < mn + (t - lo) / (hi - lo) * (mx - mn).
Proof.
  intros Hr Hm Hst.
  assert (Hi : 0 < / (hi - lo)) by (apply Rinv_0_lt_compat; lra).
  assert (H : (s - lo) / (hi - lo) < (t - lo) / (hi - lo)).
  { unfold Rdiv. apply Rmult_lt_compat_r; lra. }
  nra.
Qed.

(** X4: in exact arithmetic, for non-negative magnitudes that are not all
    equal and [min_size < max_size], the function returns finite sizes and
    the scaling is strictly increasing: of any two records, the one of
    strictly larger magnitude gets the strictly larger size, and records of
    equal magnitude get equal sizes. *)
Theorem sizes_strictly_increasing :
  forall (magnitudes : list R) (min_size max_size : R),
    Forall (fun m => 0 <= m) magnitudes ->
    (exists a b, In a magnitudes /\ In b magnitudes /\ a <> b) ->
    min_size < max_size ->
    exists sizes : list R,
      calculate_star_sizes (map Fin magnitudes) (Fin min_size) (Fin max_size)
      = Ok (map Fin sizes)
      /\ length sizes = length magnitudes
      /\ forall i j mi mj,
           nth_error magnitudes i = Some mi ->
           nth_error magnitudes j = Some mj ->
           exists si sj,
             nth_error sizes i = Some si
             /\ nth_error sizes j = Some sj
             /\ (mi < mj -> si < sj)
             /\ (mi = mj -> si = sj).
Proof.
  intros ms mn mx Hpos Hdiff Hm.
  destruct ms as [|m0 ms].
  { destruct Hdiff as (a & _ & [] & _). }
  pose proof (sqrt_range_nondegenerate Hpos Hdiff) as Hr.
  set (lo := fold_left Rmin (map sqrt ms) (sqrt m0)) in *.
  set (hi := fold_left Rmax (map sqrt ms) (sqrt m0)) in *.
  exists (map (fun a => mn + (sqrt a - lo) / (hi - lo) * (mx - mn)) (m0 :: ms)).
  split; [|split].
  - rewrite (calculate_star_sizes_exact mn mx Hpos). f_equal.
    rewrite map_map. apply map_ext. intro a.
    fold lo hi. unfold interpolate.
    destruct (Req_dec_T hi lo); [lra | reflexivity].
  - apply length_map.
  - intros i j mi mj Hi Hj.
    exists (mn + (sqrt mi - lo) / (hi - lo) * (mx - mn)),
           (mn + (sqrt mj - lo) / (hi - lo) * (mx - mn)).
    rewrite !nth_error_map, Hi, Hj. cbn [option_map].
    split; [reflexivity|]. split; [reflexivity|]. split.
    + intro Hlt. apply interpolate_strict; [exact Hr | exact Hm |].
      rewrite Forall_forall in Hpos.
      apply sqrt_lt_1_alt. split; [|exact Hlt].
      apply Hpos. eapply nth_error_In; eauto.
    + intros ->. reflexivity.
Qed.

Lemma sizes_strictly_increasing_witness :
  exists (sizes : list R) si sj,
    calculate_star_sizes (map Fin [100; 720; 100]) (Fin 80) (Fin 1000)
    = Ok (map Fin sizes)
    /\ nth_error sizes 0 = Some si
    /\ nth_error sizes 1 = Some sj
    /\ nth_error sizes 2 = Some si
    /\ si < sj.
Proof.
  assert (Hpos : Forall (fun m => 0 <= m) [100; 720; 100])
    by (repeat constructor; lra).
  assert (Hdiff : exists a b,
             In a [100; 720; 100] /\ In b [100; 720; 100] /\ a <> b).
  { exists 100, 720. simpl. repeat split; auto. lra. }
  assert (Hm : 80 < 1000) by lra.
  assert (Hlt : 100 < 720) by lra.
  destruct (@sizes_strictly_increasing [100; 720; 100] 80 1000 Hpos Hdiff Hm)
    as (sizes & Hres & _ & Hord).
  destruct (Hord 0%nat 1%nat 100 720 eq_refl eq_refl)
    as (si & sj & H0 & H1 & Hs & _).
  destruct (Hord 0%nat 2%nat 100 100 eq_refl eq_refl)
    as (si' & sk & H0' & H2 & _ & He).
  exists sizes, si, sj.
  split; [exact Hres|]. split; [exact H0|]. split; [exact H1|].
  split; [|exact (Hs Hlt)].
  rewrite H2. rewrite H0 in H0'. injection H0' as <-.
  rewrite (He eq_refl). reflexivity.
Defined.

(** X5: the bounds are not checked against each other.  In exact
    arithmetic, when they are given in reverse ([max_size <= min_size]) the
    function raises nothing: for non-negative magnitudes that are not all
    equal every size lies in [[max_size, min_size]], the sizes are
    non-increasing in the magnitudes, a record of least magnitude gets
    [min_size] and a record of greatest magnitude gets [max_size]. *)
Theorem sizes_with_reversed_bounds :
  forall (magnitudes : list R) (min_size max_size : R),
    Forall (fun m => 0 <= m) magnitudes ->
    (exists a b, In a magnitudes /\ In b magnitudes /\ a <> b) ->
    max_size <= min_size ->
    exists sizes : list R,
      calculate_star_sizes (map Fin magnitudes) (Fin min_size) (Fin max_size)
      = Ok (map Fin sizes)
      /\ length sizes = length magnitudes
      /\ Forall (fun s => max_size <= s <= min_size) sizes
      /\ (forall i j mi mj si sj,
             nth_error magnitudes i = Some mi ->
             nth_error magnitudes j = Some mj ->
             nth_error sizes i = Some si ->
             nth_error sizes j = Some sj ->
             mi <= mj -> sj <= si)
      /\ (forall i mi,
             nth_error magnitudes i = Some mi ->
             (forall m, In m magnitudes -> mi <= m) ->
             nth_error sizes i = Some min_size)
      /\ (forall i mi,
             nth_error magnitudes i = Some mi ->
             (forall m, In m magnitudes -> m <= mi) ->
             nth_error sizes i = Some max_size).
Proof.
  intros ms mn mx Hpos Hdiff Hm.
  destruct ms as [|m0 ms].
  { destruct Hdiff as (a & _ & [] & _). }
  pose proof (sqrt_range_nondegenerate Hpos Hdiff) as Hr.
  destruct (fold_Rmin_lower (map sqrt ms) (sqrt m0)) as [L1 L2].
  destruct (fold_Rmax_upper (map sqrt ms) (sqrt m0)) as [U1 U2].
  pose proof (fold_Rmin_In (map sqrt ms) (sqrt m0)) as Lin.
  pose proof (fold_Rmax_In (map sqrt ms) (sqrt m0)) as Uin.
  set (lo := fold_left Rmin (map sqrt ms) (sqrt m0)) in *.
  set (hi := fold_left Rmax (map sqrt ms) (sqrt m0)) in *.
  change (In lo (map sqrt (m0 :: ms))) in Lin.
  change (In hi (map sqrt (m0 :: ms))) in Uin.
  apply in_map_iff in Lin. destruct Lin as (xl & Exl & Hxl).
  apply in_map_iff in Uin. destruct Uin as (xh & Exh & Hxh).
  assert (Hbnd : forall c, In c (m0 :: ms) -> lo <= sqrt c <= hi).
  { intros c Hc. rewrite Forall_forall in L2, U2.
    destruct Hc as [E | Hc].
    - rewrite <- E. lra.
    - split; [apply L2 | apply U2]; apply in_map; exact Hc. }
  assert (Hunit : forall c, In c (m0 :: ms) ->
            0 <= (sqrt c - lo) / (hi - lo) <= 1).
  { intros c Hc. pose proof (Hbnd c Hc) as B. split.
    - apply Rmult_le_pos; [lra|]. left. apply Rinv_0_lt_compat. lra.
    - apply Rmult_le_reg_r with (hi - lo); [lra|].
      unfold Rdiv. rewrite Rmult_assoc, Rinv_l; lra. }
  exists (map (fun a => mn + (sqrt a - lo) / (hi - lo) * (mx - mn)) (m0 :: ms)).
  split; [|split; [|split; [|split; [|split]]]].
  - rewrite (calculate_star_sizes_exact mn mx Hpos). f_equal.
    rewrite map_map. apply map_ext. intro a.
    fold lo hi. unfold interpolate.
    destruct (Req_dec_T hi lo); [lra | reflexivity].
  - apply length_map.
  - apply Forall_forall. intros s Hs. apply in_map_iff in Hs.
    destruct Hs as (a & <- & Ha). pose proof (Hunit a Ha). nra.
  - intros i j mi mj si sj Hi Hj Hsi Hsj Hle.
    rewrite nth_error_map in Hsi, Hsj.
    rewrite Hi in Hsi. rewrite Hj in Hsj. simpl in Hsi, Hsj.
    injection Hsi as <-. injection Hsj as <-.
    assert (Hi' : 0 < / (hi - lo)) by (apply Rinv_0_lt_compat; lra).
    pose proof (sqrt_le_1_alt _ _ Hle) as Hsq.
    assert (H : (sqrt mi - lo) / (hi - lo) <= (sqrt mj - lo) / (hi - lo)).
    { unfold Rdiv. apply Rmult_le_compat_r; lra. }
    nra.
  - intros i mi Hi Hleast.
    rewrite nth_error_map, Hi. cbn [option_map]. f_equal.
    assert (E : sqrt mi = lo).
    { pose proof (Hbnd mi (nth_error_In _ _ Hi)).
      pose proof (sqrt_le_1_alt _ _ (Hleast xl Hxl)). lra. }
    rewrite E. unfold Rdiv. rewrite Rminus_diag. lra.
  - intros i mi Hi Hmost.
    rewrite nth_error_map, Hi. cbn [option_map]. f_equal.
    assert (E : sqrt mi = hi).
    { pose proof (Hbnd mi (nth_error_In _ _ Hi)).
      pose proof (sqrt_le_1_alt _ _ (Hmost xh Hxh)). lra. }
    rewrite E. unfold Rdiv. rewrite Rinv_r by lra. lra.
Qed.

Lemma sizes_with_reversed_bounds_witness :
  exists sizes : list R,
    calculate_star_sizes (map Fin [1; 100]) (Fin 100) (Fin 10)
    = Ok (map Fin sizes)
    /\ nth_error sizes 0 = Some 100
    /\ nth_error sizes 1 = Some 10.
Proof.
  destruct (@sizes_with_reversed_bounds [1; 100] 100 10)
    as (sizes & Hres & _ & _ & _ & Hleast & Hmost).
  - repeat constructor; lra.
  - exists 1, 100. simpl. repeat split; auto. lra.
  - lra.
  - exists sizes. split; [exact Hres|]. split.
    + apply (Hleast 0%nat 1 eq_refl).
      intros m [<- | [<- | []]]; lra.
    + apply (Hmost 1%nat 100 eq_refl).
      intros m [<- | [<- | []]]; lra.
Defined.

End ScalingShape.

(** ** The glyph statements: index labels and drawing order *)

Section GlyphLabels.

Context {A : Type} {N : Numeric A} {T : Trig A}.
Variable rgba : Type.
Variable scatter_other : forall X : Type, nat -> list X -> result (list X).

(** X6: the sparkle loop reads [star_sizes[idx]] at the index label of the
    row, not at its position.  With one size and one colour per row of a
    frame of [n] rows, the glyph statements succeed exactly when every label
    lies in [[-n, n)]; otherwise the indexing raises IndexError.  When they
    succeed, the four stars of the row at position [k] have the size at
    position [k], and its five dots are computed from the size at the row's
    label (counted from the end when the label is negative). *)
Theorem sparkle_loop_indexes_by_label :
  forall (gdf_pa : list (pa_row A)) (star_sizes : list A) (colors : list rgba),
    length star_sizes = length gdf_pa ->
    length colors = length gdf_pa ->
    let n := Z.of_nat (length gdf_pa) in
    let in_range (row : pa_row A) := (- n <= index_label row < n)%Z in
    (Forall in_range gdf_pa ->
     exists drawn,
       scatter_star_glyphs scatter_other gdf_pa star_sizes colors = Ok drawn
       /\ forall k row base dots_base c,
            nth_error gdf_pa k = Some row ->
            nth_error star_sizes k = Some base ->
            getitem star_sizes (index_label row) = Ok dots_base ->
            nth_error colors k = Some c ->
            glyph k drawn
            = firstn 4 (render_glyph (geometry_x row) (geometry_y row) base c)
              ++ map (sparkle_dot rgba (geometry_x row) (geometry_y row)
                                  dots_base)
                     [0; 1; 2; 3; 4]%Z)
    /\ (~ Forall in_range gdf_pa ->
        scatter_star_glyphs scatter_other gdf_pa star_sizes colors
        = Raise IndexError).
Proof.
  intros gdf_pa star_sizes colors Hs Hc n in_range.
  destruct (@scatter_star_glyphs_labels A N T rgba scatter_other gdf_pa
              star_sizes colors Hs Hc) as [Hok Hraise].
  split.
  - intro Hall. destruct (Hok Hall) as (drawn & Hd & _ & _ & Hg).
    exists drawn. split; [exact Hd | exact Hg].
  - exact Hraise.
Qed.

(** X7: with one size and one colour per row and every index label in
    [[-n, n)], the glyph statements add nine markers per row, in this
    order: the outer glows of all rows, the medium glows, the inner glows,
    the foreground stars, then the five dots of each row; the zorders 8, 9,
    10, 11, 12 never decrease along that order, so the order in which the
    axes draw (by zorder, ties in order of addition) is the order of the
    calls. *)
Theorem glyph_markers_in_zorder :
  forall (gdf_pa : list (pa_row A)) (star_sizes : list A) (colors : list rgba),
    length star_sizes = length gdf_pa ->
    length colors = length gdf_pa ->
    Forall (fun row : pa_row A =>
              (- Z.of_nat (length gdf_pa) <= index_label row
               < Z.of_nat (length gdf_pa))%Z) gdf_pa ->
    exists drawn,
      scatter_star_glyphs scatter_other gdf_pa star_sizes colors = Ok drawn
      /\ length drawn = (9 * length gdf_pa)%nat
      /\ map (fun rm => zorder (snd rm)) drawn
         = repeat 8%Z (length gdf_pa) ++ repeat 9%Z (length gdf_pa)
           ++ repeat 10%Z (length gdf_pa) ++ repeat 11%Z (length gdf_pa)
           ++ repeat 12%Z (5 * length gdf_pa)
      /\ map (fun rm => shape (snd rm)) drawn
         = repeat Star (4 * length gdf_pa) ++ repeat Circle (5 * length gdf_pa).
Proof.
  intros gdf_pa star_sizes colors Hs Hc Hall.
  destruct (proj1 (@scatter_star_glyphs_labels A N T rgba scatter_other gdf_pa
                     star_sizes colors Hs Hc) Hall)
    as (drawn & Hd & Hz & Hsh & _).
  exists drawn. split; [exact Hd|]. split; [|split; [exact Hz | exact Hsh]].
  rewrite <- (length_map (fun rm => shape (snd rm)) drawn), Hsh.
  rewrite length_app, !repeat_length. lia.
Qed.

End GlyphLabels.

Lemma sparkle_loop_indexes_by_label_witness :
  scatter_star_glyphs (N := binary64) (T := trig64 (fun a => a) (fun a => a))
    (fun _ _ _ => Raise ValueError)
    [ {| index_label := 1; name := "b"; lat := of_Z 1; lon := of_Z 1;
         area_km2 := of_Z 75 |};
      {| index_label := 2; name := "c"; lat := of_Z 2; lon := of_Z 2;
         area_km2 := of_Z 1156 |} ]
    [of_Z 80; of_Z 1000] [tt; tt]
  = Raise IndexError.
Proof.
  apply (proj2 (@sparkle_loop_indexes_by_label
                  _ binary64 (trig64 (fun a => a) (fun a => a)) unit
                  (fun _ _ _ => Raise ValueError)
                  [ {| index_label := 1; name := "b"; lat := of_Z 1;
                       lon := of_Z 1; area_km2 := of_Z 75 |};
                    {| index_label := 2; name := "c"; lat := of_Z 2;
                       lon := of_Z 2; area_km2 := of_Z 1156 |} ]
                  [of_Z 80; of_Z 1000] [tt; tt] eq_refl eq_refl)).
  intro H. inversion H as [|r1 l1 _ H2]. inversion H2 as [|r2 l2 H3 _].
  cbn in H3. lia.
Defined.

(** A frame whose rows carry the labels 1 and 0: the stars of the first row
    have its own size 80, its dots the size of the other row
    ([0.08 * 1000]). *)
Example sparkle_loop_reordered_frame_binary64 :
  option_map (fun drawn => map (@size _ _) (glyph 0 drawn))
    (match
       scatter_star_glyphs (N := binary64)
         (T := trig64 (fun a => a) (fun a => a))
         (fun _ _ _ => Raise ValueError)
         [ {| index_label := 1; name := "b"; lat := of_Z 1; lon := of_Z 1;
              area_km2 := of_Z 75 |};
           {| index_label := 0; name := "a"; lat := of_Z 2; lon := of_Z 2;
              area_km2 := of_Z 1156 |} ]
         [of_Z 80; of_Z 1000] [tt; tt]
     with Ok drawn => Some drawn | Raise _ => None end)
  = Some [of_Z 200; of_Z 144; of_Z 104; of_Z 80;
          of_Z 80; of_Z 80; of_Z 80; of_Z 80; of_Z 80].
Proof. vm_compute. reflexivity. Qed.

Lemma glyph_markers_in_zorder_witness :
  exists drawn,
    scatter_star_glyphs (N := exact) (fun _ _ _ => Raise ValueError)
      [ {| index_label := 0; name := "a"; lat := of_Z 0; lon := of_Z 0;
           area_km2 := of_Z 71 |};
        {| index_label := 1; name := "b"; lat := of_Z 1; lon := of_Z 1;
           area_km2 := of_Z 75 |} ]
      [of_Z 80; of_Z 1000] [tt; tt]
    = Ok drawn
    /\ length drawn = 18%nat.
Proof.
  destruct (@glyph_markers_in_zorder xreal exact exact_trig unit
              (fun _ _ _ => Raise ValueError)
              [ {| index_label := 0; name := "a"; lat := of_Z 0;
                   lon := of_Z 0; area_km2 := of_Z 71 |};
                {| index_label := 1; name := "b"; lat := of_Z 1;
                   lon := of_Z 1; area_km2 := of_Z 75 |} ]
              [of_Z 80; of_Z 1000] [tt; tt] eq_refl eq_refl)
    as (drawn & Hd & Hlen & _).
  - repeat constructor; cbn; lia.
  - exists drawn. split; [exact Hd | exact Hlen].
Defined.

(** ** The sparkle dots and the marker sizes of the figure *)

Section SparkleCircle.

Local Open Scope R_scope.

Lemma tip_offset_on_circle (r theta : R) :
  (r * cos theta) * (r * cos theta) + (r * sin theta) * (r * sin theta)
  = r * r.
Proof.
  pose proof (sin2_cos2 theta) as H. unfold Rsqr in H. nra.
Qed.

(** X8: in exact arithmetic, in a frame with its default index, the five
    sparkle dots of a glyph with a finite centre [(x, y)] and a size
    [base >= 0] lie on one circle around the centre, of squared radius
    [0.36 * base / pi]: the disc through the tips has 0.36 times the area
    [base] of the marker. *)
Theorem sparkle_dots_on_circle :
  forall (rgba : Type)
         (scatter_other : forall X : Type, nat -> list X -> result (list X))
         (gdf_pa : list (pa_row xreal))
         (star_sizes : list xreal) (colors : list rgba),
    length star_sizes = length gdf_pa ->
    length colors = length gdf_pa ->
    default_index gdf_pa ->
    exists drawn,
      scatter_star_glyphs scatter_other gdf_pa star_sizes colors = Ok drawn
      /\ forall k row (x y base : R),
           nth_error gdf_pa k = Some row ->
           geometry_x row = Fin x ->
           geometry_y row = Fin y ->
           nth_error star_sizes k = Some (Fin base) ->
           0 <= base ->
           length (skipn 4 (glyph k drawn)) = 5%nat
           /\ Forall (fun p =>
                        exists a b,
                          px p = Fin a /\ py p = Fin b
                          /\ (a - x) * (a - x) + (b - y) * (b - y)
                             = 0.36 * base / PI)
                     (skipn 4 (glyph k drawn)).
Proof.
  intros rgba other gdf_pa star_sizes colors Hs Hc Hdef.
  destruct (@scatter_star_glyphs_glyph xreal exact exact_trig rgba other
              gdf_pa star_sizes colors Hs Hc Hdef) as (drawn & Hd & Hg).
  exists drawn. split; [exact Hd|].
  intros k row x y base Hrow Hx Hy Hbase Hpos.
  assert (Hk : (k < length colors)%nat).
  { rewrite Hc. apply nth_error_Some. congruence. }
  destruct (nth_error colors k) as [c|] eqn:Hcol;
    [|apply nth_error_None in Hcol; lia].
  rewrite (Hg k row (Fin base) c Hrow Hbase Hcol), Hx, Hy.
  unfold render_glyph. cbn [app skipn map length].
  split; [reflexivity|].
  assert (Hr : sqrt (base / PI) * sqrt (base / PI) = base / PI).
  { apply sqrt_sqrt. apply Rmult_le_pos; [exact Hpos|].
    left. apply Rinv_0_lt_compat. apply PI_RGT_0. }
  repeat constructor;
    match goal with
    | |- exists a b, px (sparkle_dot _ _ _ _ ?i) = _ /\ _ =>
        destruct (sparkle_dot_position rgba x y i Hpos) as [Hpx Hpy];
        eexists; eexists; split; [exact Hpx|]; split; [exact Hpy|];
        match goal with
        | |- (x + ?r * cos ?t - x) * _ + _ = _ =>
            pose proof (tip_offset_on_circle r t) as Hc'
        end;
        unfold Rdiv in *; nra
    end.
Qed.

Lemma sparkle_dots_on_circle_witness :
  exists drawn,
    scatter_star_glyphs (N := exact) (fun _ _ _ => Raise ValueError)
      [ {| index_label := 0; name := "origin"; lat := Fin 0; lon := Fin 0;
           area_km2 := of_Z 1156 |} ]
      [Fin 100] [tt]
    = Ok drawn
    /\ length (skipn 4 (glyph 0 drawn)) = 5%nat.
Proof.
  destruct (@sparkle_dots_on_circle unit (fun _ _ _ => Raise ValueError)
              [ {| index_label := 0; name := "origin"; lat := Fin 0;
                   lon := Fin 0; area_km2 := of_Z 1156 |} ]
              [Fin 100] [tt] eq_refl eq_refl eq_refl) as (drawn & Hd & Hg).
  exists drawn. split; [exact Hd|].
  assert (H100 : 0 <= 100) by lra.
  exact (proj1 (Hg 0%nat _ 0 0 100 eq_refl eq_refl eq_refl eq_refl H100)).
Defined.

End SparkleCircle.

(** ** [create_visualization]: when it fails, and what it adds *)

Section FigureArtists.

Context {A : Type} {N : Numeric A} {T : Trig A} {P : PyFloat A}.
Context {rgba rng patch coord : Type}.
Variable scatter_other : forall X : Type, nat -> list X -> result (list X).
Variable seed : Z -> rng.
Variable tree_patches : rng -> A * A * A * A -> result (list patch * rng).
Variable total_bounds : GeoDataFrame coord -> A * A * A * A.
Variable series_min : list A -> A.
Variable series_max : list A -> A.
Variable Normalize : A -> A -> A -> A.
Variable YlOrRd : A -> rgba.

(** X10: the outcome of [create_visualization] at every carrier, whatever
    the areas are.  The tree is drawn first, seeded with 42 and given the
    bounds as [(xmin, xmax, ymin, ymax)]; an exception of the tree is the
    exception of the function.  Otherwise a frame without rows fails with
    the ValueError of [calculate_star_sizes]; a frame with a row whose index
    label is outside [[-n, n)] fails with the IndexError of
    [star_sizes[idx]]; with every label in range, an axis limit that is NaN
    or infinite fails with ValueError; and in the remaining case the function
    returns: the artists are the patches of the tree, then the boundary,
    then nine markers per row, and the generator handed back is the one the
    tree left. *)
Theorem create_visualization_outcome :
  forall (g : rng) (gdf_pa : list (pa_row A))
         (gdf_boundary : GeoDataFrame coord),
    let run :=
      create_visualization scatter_other seed tree_patches total_bounds
        series_min series_max Normalize YlOrRd g gdf_pa gdf_boundary in
    let '(xmin, ymin, xmax, ymax) := total_bounds gdf_boundary in
    let n := Z.of_nat (length gdf_pa) in
    let in_range (row : pa_row A) := (- n <= index_label row < n)%Z in
    let xlim := fst (axis_limits (xmin, ymin, xmax, ymax)) in
    let ylim := snd (axis_limits (xmin, ymin, xmax, ymax)) in
    let finite (l : A * A) := np_isfinite (fst l) && np_isfinite (snd l) in
    match tree_patches (seed 42%Z) (xmin, xmax, ymin, ymax) with
    | Raise e => run = Raise e
    | Ok (patches, g') =>
        (gdf_pa = [] -> run = Raise ValueError)
        /\ (gdf_pa <> [] -> ~ Forall in_range gdf_pa ->
            run = Raise IndexError)
        /\ (gdf_pa <> [] -> Forall in_range gdf_pa ->
            finite xlim && finite ylim = false ->
            run = Raise ValueError)
        /\ (gdf_pa <> [] -> Forall in_range gdf_pa ->
            finite xlim && finite ylim = true ->
            exists drawn,
              run = Ok (map (@TreePatch A rgba patch coord) patches
                        ++ [@BoundaryPlot A rgba patch coord gdf_boundary]
                        ++ map (fun '(row, m) =>
                                  @Marker A rgba patch coord row m) drawn, g')
              /\ length drawn = (9 * length gdf_pa)%nat)
    end.
Proof.
  intros g gdf_pa gdf_boundary run.
  unfold run. rewrite create_visualization_steps.
  destruct (total_bounds gdf_boundary) as [[[xmin ymin] xmax] ymax].
  set (n := Z.of_nat (length gdf_pa)).
  set (in_range := fun row : pa_row A => (- n <= index_label row < n)%Z).
  set (xlim := fst (axis_limits (xmin, ymin, xmax, ymax))).
  set (ylim := snd (axis_limits (xmin, ymin, xmax, ymax))).
  pose (finite := fun l : A * A => np_isfinite (fst l) && np_isfinite (snd l)).
  destruct (tree_patches (seed 42%Z) (xmin, xmax, ymin, ymax))
    as [[patches g']|e]; [|reflexivity].
  set (areas := map (@area_km2 A) gdf_pa).
  destruct (calculate_star_sizes_cases areas default_min_size default_max_size)
    as [[E Hraise] | [Hne (sizes & Hsizes & Hlen)]].
  { assert (Hnil : gdf_pa = []).
    { unfold areas in E. destruct gdf_pa; [reflexivity | discriminate E]. }
    rewrite Hraise.
    split; [reflexivity|].
    split; [intro C; contradiction|].
    split; intro C; contradiction. }
  assert (Hrows : gdf_pa <> []).
  { intro C. apply Hne. unfold areas. rewrite C. reflexivity. }
  rewrite Hsizes.
  set (colors := map _ areas).
  assert (Hs : length sizes = length gdf_pa)
    by (rewrite Hlen; apply length_map).
  assert (Hc : length colors = length gdf_pa)
    by (unfold colors, areas; rewrite !length_map; reflexivity).
  destruct (@scatter_star_glyphs_labels A N T rgba scatter_other gdf_pa sizes
              colors Hs Hc) as [Hok Hfail].
  split; [intro C; contradiction|].
  split.
  { intros _ Hout. rewrite (Hfail Hout). reflexivity. }
  assert (Hlim : forall l : A * A,
            set_lim l = if finite l then Ok tt else Raise ValueError).
  { intros [lo hi]. reflexivity. }
  split.
  - intros _ Hall Hfin. destruct (Hok Hall) as (drawn & Hd & _).
    change (finite xlim && finite ylim = false) in Hfin.
    rewrite Hd, !Hlim.
    destruct (finite xlim); [|reflexivity].
    cbn [andb] in Hfin. rewrite Hfin. reflexivity.
  - intros _ Hall Hfin. destruct (Hok Hall) as (drawn & Hd & _ & Hsh & _).
    change (finite xlim && finite ylim = true) in Hfin.
    rewrite Hd, !Hlim.
    apply andb_prop in Hfin. destruct Hfin as [-> ->].
    exists drawn. split; [reflexivity|].
    rewrite <- (length_map (fun rm => shape (snd rm)) drawn), Hsh.
    rewrite length_app, !repeat_length. lia.
Qed.

End FigureArtists.

(** ** [fetch_vietnam_boundary]: which files are accepted *)

Section BoundaryAccepted.

Variable coord : Type.
Variable path_exists : string -> bool.
Variable read_file : string -> result (GeoDataFrame coord).
Variable simplify : geometry coord -> geometry coord.

Lemma fold_count_acc (polys : list (list coord)) (n : nat) :
  fold_left (fun total poly => total + length poly)%nat polys n
  = (n + fold_left (fun total poly => total + length poly)%nat polys 0)%nat.
Proof.
  revert n. induction polys as [|p polys IH]; intro n; simpl; [lia|].
  rewrite (IH (n + length p)%nat), (IH (length p)). lia.
Qed.

Lemma fold_count_zero (polys : list (list coord)) :
  fold_left (fun total poly => total + length poly)%nat polys 0%nat = 0%nat
  <-> forall poly, In poly polys -> poly = [].
Proof.
  induction polys as [|p polys IH]; simpl.
  - split; [intros _ poly [] | reflexivity].
  - rewrite fold_count_acc. split.
    + intros H poly [<- | Hin].
      * apply length_zero_iff_nil. lia.
      * apply IH; [lia | exact Hin].
    + intros H. rewrite (H p (or_introl eq_refl)). simpl.
      apply IH. intros poly Hin. apply H. right. exact Hin.
Qed.

Lemma fold_count_positive (polys : list (list coord)) :
  fold_left (fun total poly => total + length poly)%nat polys 0%nat <> 0%nat
  <-> exists poly, In poly polys /\ poly <> [].
Proof.
  split.
  - induction polys as [|p polys IH]; simpl; [congruence|].
    rewrite fold_count_acc. intro H.
    destruct p as [|c p].
    + destruct IH as (poly & Hin & Hne); [simpl in H; lia|].
      exists poly. split; [right; exact Hin | exact Hne].
    + exists (c :: p). split; [left; reflexivity | discriminate].
  - intros (poly & Hin & Hne) E. apply Hne.
    exact (proj1 (fold_count_zero polys) E poly Hin).
Qed.

Lemma count_coords_positive (gdf : GeoDataFrame coord) :
  (exists n, count_coords gdf = Ok (S n))
  <-> exists first rest, gdf = first :: rest /\ has_coords first.
Proof.
  split.
  - intros (n & H). destruct gdf as [|first rest]; [discriminate H|].
    exists first, rest. split; [reflexivity|].
    destruct first as [ext | polys | ty]; simpl in H.
    + intro E. subst ext. discriminate H.
    + injection H as H. apply fold_count_positive. lia.
    + discriminate H.
  - intros (first & rest & -> & Hc).
    destruct first as [ext | polys | ty]; simpl in *.
    + destruct ext as [|c ext]; [contradiction|]. exists (length ext).
      reflexivity.
    + apply fold_count_positive in Hc.
      destruct (fold_left (fun total poly => (total + length poly)%nat)
                  polys 0%nat) as [|n] eqn:E; [congruence|].
      exists n. unfold count_coords. cbn [iloc0 bind]. rewrite E.
      reflexivity.
    + contradiction.
Qed.

Lemma count_coords_ok (gdf : GeoDataFrame coord) :
  (exists n, count_coords gdf = Ok n)
  <-> exists first rest, gdf = first :: rest /\ polygonal first.
Proof.
  split.
  - intros (n & H). destruct gdf as [|first rest]; [discriminate H|].
    exists first, rest. split; [reflexivity|].
    destruct first; simpl in *; [exact I | exact I | discriminate H].
  - intros (first & rest & -> & Hp).
    destruct first; simpl in *; [eexists; reflexivity .. | contradiction].
Qed.

(** X11: [fetch_vietnam_boundary] returns a frame exactly when the file
    exists, is read without an exception, its first geometry is a polygon
    with a non-empty exterior or a multi-polygon with a polygon of non-empty
    exterior, and simplifying that geometry leaves a polygon or
    multi-polygon; the frame is then the simplified content.  The
    geometries after the first are not inspected, and neither is the number
    of coordinates left by the simplification.  In every other case, also
    for a file that exists, the exception of the missing file is raised. *)
Theorem fetch_vietnam_boundary_accepts :
  forall (gadm_file : string) (gdf : GeoDataFrame coord),
    (fetch_vietnam_boundary path_exists read_file simplify gadm_file = Ok gdf
     <-> path_exists gadm_file = true
         /\ exists first rest,
              read_file gadm_file = Ok (first :: rest)
              /\ has_coords first
              /\ polygonal (simplify first)
              /\ gdf = simplify first :: map simplify rest)
    /\ ((forall gdf', fetch_vietnam_boundary path_exists read_file simplify
                        gadm_file <> Ok gdf')
        -> fetch_vietnam_boundary path_exists read_file simplify gadm_file
           = Raise boundary_not_found).
Proof.
  intros gadm_file gdf. split.
  - unfold fetch_vietnam_boundary, try_load. split.
    + destruct (path_exists gadm_file); [|discriminate].
      destruct (read_file gadm_file) as [loaded | e]; [|discriminate].
      cbn [bind].
      destruct (count_coords loaded) as [total | e] eqn:Ht; [|discriminate].
      cbn [bind].
      destruct (count_coords (map simplify loaded)) as [simplified | e] eqn:Hs;
        [|discriminate].
      cbn [bind].
      destruct total as [|n]; [discriminate|]. cbn [reduction bind].
      intro H. injection H as <-. split; [reflexivity|].
      destruct (proj1 (count_coords_positive loaded) (ex_intro _ n Ht))
        as (first & rest & -> & Hc).
      exists first, rest. split; [reflexivity|]. split; [exact Hc|].
      split; [|reflexivity].
      destruct (proj1 (count_coords_ok (map simplify (first :: rest)))
                  (ex_intro _ simplified Hs)) as (f' & r' & E & Hp).
      cbn [map] in E. injection E as <- _. exact Hp.
    + intros (Hex & first & rest & Hread & Hc & Hp & ->).
      rewrite Hex, Hread. cbn [bind].
      destruct (proj2 (count_coords_positive (first :: rest)))
        as (n & ->).
      { exists first, rest. split; [reflexivity | exact Hc]. }
      cbn [bind].
      destruct (proj2 (count_coords_ok (map simplify (first :: rest))))
        as (k & ->).
      { exists (simplify first), (map simplify rest).
        split; [reflexivity | exact Hp]. }
      reflexivity.
  - intro Hno. unfold fetch_vietnam_boundary in *.
    destruct (try_load path_exists read_file simplify gadm_file)
      as [[loaded|] | e]; try reflexivity.
    exfalso. exact (Hno loaded eq_refl).
Qed.

End BoundaryAccepted.

(** ** [create_soft_watercolor_tree]: the patches and the generator *)

Section TreeLoops.

Context {rng : Type}.

Lemma ret_ok {X : Type} (x y : X) (g g' : rng) :
  ret x g = Ok (y, g') -> y = x /\ g' = g.
Proof. unfold ret. intro H. injection H as <- <-. split; reflexivity. Qed.

Lemma rbind_ok {X Y : Type} (m : rand rng X) (k : X -> rand rng Y)
  (g : rng) (y : Y) (g2 : rng) :
  rbind m k g = Ok (y, g2) ->
  exists x g1, m g = Ok (x, g1) /\ k x g1 = Ok (y, g2).
Proof.
  unfold rbind. destruct (m g) as [[x g1]|e]; [|discriminate].
  intro H. exists x, g1. split; [reflexivity | exact H].
Qed.

Lemma rbind_raise {X Y : Type} (m : rand rng X) (k : X -> rand rng Y)
  (g : rng) (e : exn) :
  rbind m k g = Raise e ->
  m g = Raise e \/ exists x g1, m g = Ok (x, g1) /\ k x g1 = Raise e.
Proof.
  unfold rbind. destruct (m g) as [[x g1]|e0].
  - intro H. right. exists x, g1. split; [reflexivity | exact H].
  - intro H. injection H as <-. left. reflexivity.
Qed.

(** What a loop that returns has collected: one result of the body per
    item, in order. *)
Lemma for_each_ok {X Y : Type} (xs : list X) (body : X -> rand rng Y) :
  forall g ys g',
    for_each xs body g = Ok (ys, g') ->
    Forall2 (fun x y => exists g0 g1, body x g0 = Ok (y, g1)) xs ys.
Proof.
  induction xs as [|x xs IH]; intros g ys g' H; cbn [for_each] in H.
  - apply ret_ok in H. destruct H as [-> _]. constructor.
  - apply rbind_ok in H. destruct H as (y & g1 & Hy & H).
    apply rbind_ok in H. destruct H as (ys0 & g2 & Hys & H).
    apply ret_ok in H. destruct H as [-> _].
    constructor; [exists g, g1; exact Hy | exact (IH g1 ys0 g2 Hys)].
Qed.

Lemma for_each_length {X Y : Type} (xs : list X) (body : X -> rand rng Y)
  (g : rng) (ys : list Y) (g' : rng) :
  for_each xs body g = Ok (ys, g') -> length ys = length xs.
Proof.
  intro H. symmetry. exact (Forall2_length (for_each_ok _ _ _ H)).
Qed.

(** What holds of every result of the body holds of every element the loop
    collects. *)
Lemma for_each_Forall {X Y : Type} (Q : Y -> Prop) (xs : list X)
  (body : X -> rand rng Y) (g : rng) (ys : list Y) (g' : rng) :
  (forall x g0 y g1, In x xs -> body x g0 = Ok (y, g1) -> Q y) ->
  for_each xs body g = Ok (ys, g') -> Forall Q ys.
Proof.
  intros HQ H. apply for_each_ok in H.
  induction H as [|x y xs ys (g0 & g1 & Hy) _ IH]; constructor.
  - exact (HQ x g0 y g1 (or_introl eq_refl) Hy).
  - apply IH. intros x0 g2 y0 g3 Hin. apply HQ. right. exact Hin.
Qed.

(** The element a loop collects at position [k] is a result of the body on
    the [k]-th item, from some state of the generator. *)
Lemma for_each_nth {X Y : Type} (xs : list X) (body : X -> rand rng Y)
  (g : rng) (ys : list Y) (g' : rng) (k : nat) (y : Y) :
  for_each xs body g = Ok (ys, g') ->
  nth_error ys k = Some y ->
  exists x g0 g1, nth_error xs k = Some x /\ body x g0 = Ok (y, g1).
Proof.
  intro H. apply for_each_ok in H. revert k.
  induction H as [|x y0 xs ys (g0 & g1 & Hy) _ IH]; intros k Hk.
  - destruct k; discriminate Hk.
  - destruct k as [|k]; cbn [nth_error] in Hk |- *.
    + injection Hk as <-. exists x, g0, g1. split; [reflexivity | exact Hy].
    + exact (IH k Hk).
Qed.

(** What a loop collects, seen through [f], when the result of the body
    seen through [f] does not depend on the generator. *)
Lemma for_each_map {X Y Z0 : Type} (f : Y -> Z0) (h : X -> Z0) (xs : list X)
  (body : X -> rand rng Y) (g : rng) (ys : list Y) (g' : rng) :
  (forall x g0 y g1, body x g0 = Ok (y, g1) -> f y = h x) ->
  for_each xs body g = Ok (ys, g') -> map f ys = map h xs.
Proof.
  intros Hf H. apply for_each_ok in H.
  induction H as [|x y xs ys (g0 & g1 & Hy) _ IH]; cbn [map].
  - reflexivity.
  - rewrite (Hf x g0 y g1 Hy), IH. reflexivity.
Qed.

Lemma returns_ret {X : Type} (Q : X -> Prop) (x : X) :
  Q x -> returns Q (ret (rng := rng) x).
Proof. intros H g. exists x, g. split; [reflexivity | exact H]. Qed.

Lemma returns_bind {X Y : Type} (Q0 : X -> Prop) (Q : Y -> Prop)
  (m : rand rng X) (k : X -> rand rng Y) :
  returns Q0 m -> (forall x, Q0 x -> returns Q (k x)) ->
  returns Q (rbind m k).
Proof.
  intros Hm Hk g. unfold rbind.
  destruct (Hm g) as (x & g1 & -> & Hx). exact (Hk x Hx g1).
Qed.

Lemma returns_for_each {X Y : Type} (Q : Y -> Prop) (xs : list X)
  (body : X -> rand rng Y) :
  (forall x, In x xs -> returns Q (body x)) ->
  returns (Forall Q) (for_each xs body).
Proof.
  induction xs as [|x xs IH]; intro H; cbn [for_each].
  - apply returns_ret. constructor.
  - apply returns_bind with (Q0 := Q); [apply H; left; reflexivity|].
    intros y Hy. apply returns_bind with (Q0 := Forall Q).
    + apply IH. intros x0 Hin. apply H. right. exact Hin.
    + intros ys Hys. apply returns_ret. constructor; assumption.
Qed.

Lemma returns_weaken {X : Type} (Q Q' : X -> Prop) (m : rand rng X) :
  returns Q m -> (forall x, Q x -> Q' x) -> returns Q' m.
Proof.
  intros H HQ g. destruct (H g) as (x & g' & E & Hx).
  exists x, g'. split; [exact E | exact (HQ x Hx)].
Qed.

(** A statement that always returns a result satisfying [Q] has no other
    results. *)
Lemma returns_inv {X : Type} (Q : X -> Prop) (m : rand rng X) (g : rng)
  (x : X) (g' : rng) :
  returns Q m -> m g = Ok (x, g') -> Q x.
Proof.
  intros H E. destruct (H g) as (x0 & g0 & E0 & Hx).
  rewrite E in E0. injection E0 as <- _. exact Hx.
Qed.

Lemma raises_ret {X : Type} (E : exn -> Prop) (x : X) :
  raises_only E (ret (rng := rng) x).
Proof. intros g e H. discriminate H. Qed.

Lemma raises_bind {X Y : Type} (E : exn -> Prop) (m : rand rng X)
  (k : X -> rand rng Y) :
  raises_only E m -> (forall x, raises_only E (k x)) ->
  raises_only E (rbind m k).
Proof.
  intros Hm Hk g e H. apply rbind_raise in H.
  destruct H as [H | (x & g1 & _ & H)];
    [exact (Hm g e H) | exact (Hk x g1 e H)].
Qed.

Lemma raises_for_each {X Y : Type} (E : exn -> Prop) (xs : list X)
  (body : X -> rand rng Y) :
  (forall x, raises_only E (body x)) -> raises_only E (for_each xs body).
Proof.
  intro H. induction xs as [|x xs IH]; cbn [for_each].
  - apply raises_ret.
  - apply raises_bind; [apply H|]. intro y.
    apply raises_bind; [exact IH|]. intro ys. apply raises_ret.
Qed.

Lemma map_constant {Y Z0 : Type} (f : Y -> Z0) (c : Z0) (l : list Y) :
  Forall (fun y => f y = c) l -> map f l = repeat c (length l).
Proof.
  induction 1 as [|y l Hy _ IH]; simpl; [reflexivity|].
  rewrite Hy, IH. reflexivity.
Qed.

End TreeLoops.

(** Inversion of a statement that returned, bind by bind. *)
Ltac rand_inv H :=
  repeat
    (let x := fresh "x" in
     let g := fresh "g" in
     let Hm := fresh "Hm" in
     apply rbind_ok in H; destruct H as (x & g & Hm & H)).

Section TreeStructure.

Context {A : Type} {N : Numeric A} {T : Trig A} {P : PyFloat A}.
Variable rng : Type.
Variable random_sample : rng -> A * rng.
Variable choice_index : nat -> rng -> nat * rng.

(** [np.random.uniform] raises nothing but OverflowError, and
    [np.random.choice] nothing. *)
Lemma raises_uniform (low high : A) :
  raises_only (eq OverflowError) (uniform random_sample low high).
Proof.
  intros g e. unfold uniform.
  destruct (np_isfinite (np_subtract high low)).
  - destruct (random_sample g). discriminate.
  - intro H. injection H as <-. reflexivity.
Qed.

Lemma raises_choice (items : list string) :
  raises_only (eq OverflowError) (choice choice_index items).
Proof.
  intros g e. unfold choice. destruct (choice_index _ g). discriminate.
Qed.

Ltac raises :=
  repeat first
    [ apply raises_ret
    | apply raises_uniform
    | apply raises_choice
    | apply raises_for_each; intro
    | apply raises_bind; [|intro] ].

Lemma segment_raises (center_x width height branch_base_y tree_top_y
                      tree_height tree_width_base : A) (seg : Z) :
  raises_only (eq OverflowError)
    (segment random_sample choice_index center_x width height branch_base_y
             tree_top_y tree_height tree_width_base seg).
Proof. unfold segment. raises. destruct (Z.eqb (seg mod 2) 0); raises. Qed.

Lemma needle_raises (center_x width branch_base_y tree_top_y
                     tree_width_base : A) :
  raises_only (eq OverflowError)
    (needle random_sample choice_index center_x width branch_base_y
            tree_top_y tree_width_base).
Proof. unfold needle. raises. Qed.

Lemma ornament_raises (center_x width branch_base_y tree_top_y
                       tree_width_base : A) :
  raises_only (eq OverflowError)
    (ornament random_sample choice_index center_x width branch_base_y
              tree_top_y tree_width_base).
Proof. unfold ornament. raises. Qed.

(** The only exception of the tree is the OverflowError of a draw. *)
Lemma tree_patches_raises (g : rng) (bounds : A * A * A * A) (e : exn) :
  tree_patches random_sample choice_index g bounds = Raise e ->
  e = OverflowError.
Proof.
  destruct bounds as [[[min_x max_x] min_y] max_y]. unfold tree_patches.
  intro H.
  apply rbind_raise in H. destruct H as [H | (segs & g1 & _ & H)].
  { symmetry.
    refine (@raises_for_each _ _ _ (eq OverflowError) _ _ _ g e H).
    intro. apply segment_raises. }
  apply rbind_raise in H. destruct H as [H | (needles & g2 & _ & H)].
  { symmetry.
    refine (@raises_for_each _ _ _ (eq OverflowError) _ _ _ g1 e H).
    intro. apply needle_raises. }
  apply rbind_raise in H. destruct H as [H | (ornaments & g3 & _ & H)].
  { symmetry.
    refine (@raises_for_each _ _ _ (eq OverflowError) _ _ _ g2 e H).
    intro. apply ornament_raises. }
  discriminate H.
Qed.

Lemma segment_kind (center_x width height branch_base_y tree_top_y
                    tree_height tree_width_base : A) (seg : Z) (g : rng)
  (p : patch) (g' : rng) :
  segment random_sample choice_index center_x width height branch_base_y
          tree_top_y tree_height tree_width_base seg g = Ok (p, g') ->
  kind_of p = KPolygon 40 /\ patch_zorder p = 2%Z.
Proof.
  unfold segment. intro H.
  apply rbind_ok in H. destruct H as (l1 & g1 & H1 & H).
  apply rbind_ok in H. destruct H as (l2 & g2 & H2 & H).
  apply rbind_ok in H. destruct H as (l3 & g3 & H3 & H).
  apply rbind_ok in H. destruct H as (l4 & g4 & H4 & H).
  apply for_each_length in H1, H2, H3, H4.
  assert (Hlen : length (l1 ++ l2 ++ l3 ++ l4) = 40%nat).
  { rewrite !length_app, H1, H2, H3, H4. reflexivity. }
  destruct (Z.eqb (seg mod 2) 0);
    apply rbind_ok in H; destruct H as (c & g5 & _ & H);
    apply ret_ok in H; destruct H as [-> _];
    cbn [kind_of patch_zorder]; rewrite Hlen; split; reflexivity.
Qed.

Lemma needle_kind (center_x width branch_base_y tree_top_y
                   tree_width_base : A) (g : rng) (p : patch) (g' : rng) :
  needle random_sample choice_index center_x width branch_base_y tree_top_y
         tree_width_base g = Ok (p, g') ->
  kind_of p = KCircle /\ patch_zorder p = 3%Z.
Proof.
  unfold needle. intro H. rand_inv H.
  apply ret_ok in H. destruct H as [-> _]. split; reflexivity.
Qed.

Lemma ornament_kind (center_x width branch_base_y tree_top_y
                     tree_width_base : A) (g : rng) (l : list patch)
  (g' : rng) :
  ornament random_sample choice_index center_x width branch_base_y
           tree_top_y tree_width_base g = Ok (l, g') ->
  map (fun p => (kind_of p, patch_zorder p)) l
  = [(KCircle, 10%Z); (KCircle, 11%Z)].
Proof.
  unfold ornament. intro H. rand_inv H.
  apply ret_ok in H. destruct H as [-> _]. reflexivity.
Qed.

Lemma concat_constant {X Y : Type} (f : X -> Y) (c : list Y)
  (ls : list (list X)) :
  Forall (fun l => map f l = c) ls ->
  map f (concat ls) = concat (repeat c (length ls)).
Proof.
  induction 1 as [|l ls Hl _ IH]; simpl; [reflexivity|].
  rewrite map_app, Hl, IH. reflexivity.
Qed.

(** The classes and zorders of the patches of a tree that was drawn. *)
Lemma tree_patches_kinds (g : rng) (bounds : A * A * A * A)
  (patches : list patch) (g' : rng) :
  tree_patches random_sample choice_index g bounds = Ok (patches, g') ->
  map (fun p => (kind_of p, patch_zorder p)) patches
  = repeat (KRectangle, 1%Z) 3 ++ repeat (KPolygon 40, 2%Z) 15
    ++ repeat (KCircle, 3%Z) 60
    ++ concat (repeat [(KCircle, 10%Z); (KCircle, 11%Z)] 22)
    ++ repeat (KRegularPolygon 5, 12%Z) 3.
Proof.
  destruct bounds as [[[min_x max_x] min_y] max_y]. unfold tree_patches.
  intro H.
  apply rbind_ok in H. destruct H as (segs & g1 & H1 & H).
  apply rbind_ok in H. destruct H as (needles & g2 & H2 & H).
  apply rbind_ok in H. destruct H as (ornaments & g3 & H3 & H).
  apply ret_ok in H. destruct H as [-> _].
  pose proof (for_each_length _ _ _ H1) as L1.
  pose proof (for_each_length _ _ _ H2) as L2.
  pose proof (for_each_length _ _ _ H3) as L3.
  assert (F1 : Forall (fun p => (kind_of p, patch_zorder p)
                                = (KPolygon 40, 2%Z)) segs).
  { refine (for_each_Forall _ _ _ _ _ H1).
    intros x g0 y g4 _ Hy. destruct (segment_kind _ _ _ _ _ _ _ _ _ Hy)
      as [K Z0]. rewrite K, Z0. reflexivity. }
  assert (F2 : Forall (fun p => (kind_of p, patch_zorder p)
                                = (KCircle, 3%Z)) needles).
  { refine (for_each_Forall _ _ _ _ _ H2).
    intros x g0 y g4 _ Hy. destruct (needle_kind _ _ _ _ _ _ Hy) as [K Z0].
    rewrite K, Z0. reflexivity. }
  assert (F3 : Forall (fun l => map (fun p => (kind_of p, patch_zorder p)) l
                                = [(KCircle, 10%Z); (KCircle, 11%Z)])
                      ornaments).
  { refine (for_each_Forall _ _ _ _ _ H3).
    intros x g0 y g4 _ Hy. exact (ornament_kind _ _ _ _ _ _ Hy). }
  rewrite !map_app.
  rewrite (map_constant _ F1), (map_constant _ F2), (concat_constant _ F3).
  rewrite L1, L2, L3. reflexivity.
Qed.

End TreeStructure.

(** The tree evaluates on binary64: with a generator that always draws 0.5
    and picks the first colour, and the bounds 102..110, 8..24. *)
Example tree_patches_binary64 :
  match
    tree_patches (N := binary64) (T := trig64 (fun a => a) (fun a => a))
      (fun g : unit => (lit 1 2, g))
      (fun (_ : nat) (g : unit) => (0%nat, g)) tt
      (of_Z 102, of_Z 110, of_Z 8, of_Z 24)
  with
  | Ok (patches, _) =>
      length patches = 125%nat
      /\ map patch_color (firstn 4 patches)
         = ["#8b7355"; "#9d8468"; "#a89176"; "#7aa67a"]%string
  | Raise _ => False
  end.
Proof. vm_compute. split; reflexivity. Qed.

(** On binary64 the range of a draw can overflow: between the finite bounds
    [-2^1023] and [2^1023] the width is infinite and the tree raises
    OverflowError. *)
Example tree_patches_binary64_overflow :
  let big := PrimFloat.ldshiftexp (of_Z 1) (Uint63.of_Z (1023 + 2101)) in
  PrimFloat.is_finite big = true
  /\ tree_patches (N := binary64) (T := trig64 (fun a => a) (fun a => a))
       (fun g : unit => (lit 1 2, g))
       (fun (_ : nat) (g : unit) => (0%nat, g)) tt
       (PrimFloat.opp big, big, of_Z 8, of_Z 24)
     = Raise OverflowError.
Proof. vm_compute. split; reflexivity. Qed.

Section TreeRandomness.

Context {A : Type} {N : Numeric A} {T : Trig A} {P : PyFloat A}.
Variable rng : Type.
Variable random_sample : rng -> A * rng.
Variable choice_index : nat -> rng -> nat * rng.

Lemma draw_alike_ret {X Y : Type} (Q : X -> Y -> Prop) (x : X) (y : Y) :
  Q x y -> draw_alike Q (ret (rng := rng) x) (ret y).
Proof.
  intros H g x0 g1 y0 g2 H1 H2.
  apply ret_ok in H1. apply ret_ok in H2.
  destruct H1 as [-> ->], H2 as [-> ->]. split; [exact H | reflexivity].
Qed.

Lemma draw_alike_bind {X X' Y Y' : Type} (Q : X -> X' -> Prop)
  (Q' : Y -> Y' -> Prop) (m : rand rng X) (m' : rand rng X')
  (k : X -> rand rng Y) (k' : X' -> rand rng Y') :
  draw_alike Q m m' ->
  (forall x x', Q x x' -> draw_alike Q' (k x) (k' x')) ->
  draw_alike Q' (rbind m k) (rbind m' k').
Proof.
  intros Hm Hk g y g1 y' g2 H1 H2.
  apply rbind_ok in H1. destruct H1 as (x & h1 & E1 & H1).
  apply rbind_ok in H2. destruct H2 as (x' & h2 & E2 & H2).
  destruct (Hm g x h1 x' h2 E1 E2) as [Hq <-].
  exact (Hk x x' Hq h1 y g1 y' g2 H1 H2).
Qed.

Lemma draw_alike_for_each {X Y Y' : Type} (Q : Y -> Y' -> Prop)
  (xs : list X) (body : X -> rand rng Y) (body' : X -> rand rng Y') :
  (forall x, draw_alike Q (body x) (body' x)) ->
  draw_alike (Forall2 Q) (for_each xs body) (for_each xs body').
Proof.
  intro H. induction xs as [|x xs IH]; cbn [for_each].
  - apply draw_alike_ret. constructor.
  - eapply draw_alike_bind; [apply H|]. intros y y' Hy.
    eapply draw_alike_bind; [exact IH|]. intros ys ys' Hys.
    apply draw_alike_ret. constructor; assumption.
Qed.

(** A [uniform] that returns has advanced the generator as [random_sample]
    does, whatever its arguments. *)
Lemma draw_alike_uniform (low high low' high' : A) :
  draw_alike (fun _ _ => True) (uniform random_sample low high)
             (uniform random_sample low' high').
Proof.
  intros g x g1 y g2. unfold uniform.
  destruct (np_isfinite (np_subtract high low)); [|discriminate].
  destruct (np_isfinite (np_subtract high' low')); [|discriminate].
  destruct (random_sample g) as [u h].
  intros H1 H2. injection H1 as _ <-. injection H2 as _ <-.
  split; [exact I | reflexivity].
Qed.

Lemma draw_alike_choice (items : list string) :
  draw_alike eq (choice choice_index items) (choice choice_index items).
Proof.
  intros g x g1 y g2 H1 H2. rewrite H1 in H2. injection H2 as <- <-.
  split; reflexivity.
Qed.

Ltac skip_draw :=
  eapply draw_alike_bind;
  [apply draw_alike_uniform | intros ? ? _].

Lemma segment_alike (center_x width height branch_base_y tree_top_y
                     tree_height tree_width_base : A)
  (center_x' width' height' branch_base_y' tree_top_y' tree_height'
   tree_width_base' : A) (seg : Z) :
  draw_alike (fun p p' => patch_color p = patch_color p')
    (segment random_sample choice_index center_x width height branch_base_y
             tree_top_y tree_height tree_width_base seg)
    (segment random_sample choice_index center_x' width' height'
             branch_base_y' tree_top_y' tree_height' tree_width_base' seg).
Proof.
  unfold segment.
  eapply draw_alike_bind.
  { apply draw_alike_for_each with (Q := fun _ _ => True). intro i.
    skip_draw. skip_draw. apply draw_alike_ret. exact I. }
  intros l1 l1' _. eapply draw_alike_bind.
  { apply draw_alike_for_each with (Q := fun _ _ => True). intro i.
    skip_draw. apply draw_alike_ret. exact I. }
  intros l2 l2' _. eapply draw_alike_bind.
  { apply draw_alike_for_each with (Q := fun _ _ => True). intro i.
    skip_draw. skip_draw. apply draw_alike_ret. exact I. }
  intros l3 l3' _. eapply draw_alike_bind.
  { apply draw_alike_for_each with (Q := fun _ _ => True). intro i.
    skip_draw. apply draw_alike_ret. exact I. }
  intros l4 l4' _.
  destruct (Z.eqb (seg mod 2) 0);
    (eapply draw_alike_bind; [apply draw_alike_choice|]);
    intros c c' <-; apply draw_alike_ret; reflexivity.
Qed.

Lemma needle_alike (center_x width branch_base_y tree_top_y
                    tree_width_base : A)
  (center_x' width' branch_base_y' tree_top_y' tree_width_base' : A) :
  draw_alike (fun p p' => patch_color p = patch_color p')
    (needle random_sample choice_index center_x width branch_base_y
            tree_top_y tree_width_base)
    (needle random_sample choice_index center_x' width' branch_base_y'
            tree_top_y' tree_width_base').
Proof.
  unfold needle. skip_draw. skip_draw. skip_draw.
  eapply draw_alike_bind; [apply draw_alike_choice|]. intros c c' <-.
  skip_draw. apply draw_alike_ret. reflexivity.
Qed.

Lemma ornament_alike (center_x width branch_base_y tree_top_y
                      tree_width_base : A)
  (center_x' width' branch_base_y' tree_top_y' tree_width_base' : A) :
  draw_alike (fun l l' => map patch_color l = map patch_color l')
    (ornament random_sample choice_index center_x width branch_base_y
              tree_top_y tree_width_base)
    (ornament random_sample choice_index center_x' width' branch_base_y'
              tree_top_y' tree_width_base').
Proof.
  unfold ornament. skip_draw. skip_draw. skip_draw.
  eapply draw_alike_bind; [apply draw_alike_choice|]. intros c c' <-.
  apply draw_alike_ret. reflexivity.
Qed.

Lemma Forall2_map_eq {X Y Z0 : Type} (f : X -> Z0) (f' : Y -> Z0)
  (l : list X) (l' : list Y) :
  Forall2 (fun x y => f x = f' y) l l' -> map f l = map f' l'.
Proof.
  induction 1 as [|x y l l' H _ IH]; simpl; [reflexivity|].
  rewrite H, IH. reflexivity.
Qed.

Lemma Forall2_concat_map_eq {X Y Z0 : Type} (f : X -> Z0) (f' : Y -> Z0)
  (ls : list (list X)) (ls' : list (list Y)) :
  Forall2 (fun l l' => map f l = map f' l') ls ls' ->
  map f (concat ls) = map f' (concat ls').
Proof.
  induction 1 as [|l l' ls ls' H _ IH]; simpl; [reflexivity|].
  rewrite !map_app, H, IH. reflexivity.
Qed.

Lemma tree_patches_alike (g : rng) (bounds bounds' : A * A * A * A)
  (patches patches' : list patch) (g1 g2 : rng) :
  tree_patches random_sample choice_index g bounds = Ok (patches, g1) ->
  tree_patches random_sample choice_index g bounds' = Ok (patches', g2) ->
  map patch_color patches = map patch_color patches' /\ g1 = g2.
Proof.
  destruct bounds as [[[min_x max_x] min_y] max_y].
  destruct bounds' as [[[min_x' max_x'] min_y'] max_y'].
  unfold tree_patches.
  match goal with
  | |- ?m g = _ -> ?m' g = _ -> _ =>
      cut (draw_alike (fun l l' => map patch_color l = map patch_color l')
                      m m'); [intro H; exact (H g patches g1 patches' g2)|]
  end.
  eapply draw_alike_bind.
  { apply draw_alike_for_each. intro seg. apply segment_alike. }
  intros segs segs' Hsegs. eapply draw_alike_bind.
  { apply draw_alike_for_each. intro n. apply needle_alike. }
  intros needles needles' Hneedles. eapply draw_alike_bind.
  { apply draw_alike_for_each. intro i. apply ornament_alike. }
  intros ornaments ornaments' Hornaments.
  apply draw_alike_ret.
  rewrite !map_app.
  rewrite (Forall2_map_eq _ _ Hsegs), (Forall2_map_eq _ _ Hneedles),
          (Forall2_concat_map_eq _ _ Hornaments).
  rewrite !map_map. reflexivity.
Qed.

(** X13: in any two calls of [create_soft_watercolor_tree] that return, the
    colours of the patches, in order, are the same and the generator of
    [np.random] is left in the same state, whatever the bounds and the
    state of the generator before each call: the function seeds with 42,
    and every uniform draw advances the generator alike whatever its
    limits.  The bounds decide only where the patches are, and whether a
    draw raises. *)
Theorem tree_colours_and_generator_fixed :
  forall (seed : Z -> rng) (g g' : rng) (bounds bounds' : A * A * A * A)
         (patches patches' : list patch) (g1 g2 : rng),
    create_soft_watercolor_tree seed
      (tree_patches random_sample choice_index) g bounds = Ok (patches, g1) ->
    create_soft_watercolor_tree seed
      (tree_patches random_sample choice_index) g' bounds'
    = Ok (patches', g2) ->
    map patch_color patches = map patch_color patches' /\ g1 = g2.
Proof.
  intros seed g g' bounds bounds' patches patches' g1 g2.
  unfold create_soft_watercolor_tree. apply tree_patches_alike.
Qed.

End TreeRandomness.

Lemma tree_colours_and_generator_fixed_witness :
  let run :=
    create_soft_watercolor_tree (fun _ : Z => 0%nat)
      (tree_patches (N := binary64) (T := trig64 (fun a => a) (fun a => a))
         (fun g : nat => (lit 1 2, S g))
         (fun (n : nat) (g : nat) => (Nat.modulo g n, S g))) in
  match run 7%nat (of_Z 102, of_Z 110, of_Z 8, of_Z 24),
        run 9%nat (of_Z 0, of_Z 1, of_Z 0, of_Z 3) with
  | Ok (patches, g1), Ok (patches', g2) =>
      map patch_color patches = map patch_color patches' /\ g1 = g2
  | _, _ => False
  end.
Proof.
  intro run.
  destruct (run 7%nat (of_Z 102, of_Z 110, of_Z 8, of_Z 24))
    as [[patches g1]|e] eqn:E1;
    [|vm_compute in E1; discriminate E1].
  destruct (run 9%nat (of_Z 0, of_Z 1, of_Z 0, of_Z 3))
    as [[patches' g2]|e] eqn:E2;
    [|vm_compute in E2; discriminate E2].
  exact (@tree_colours_and_generator_fixed _ binary64
           (trig64 (fun a => a) (fun a => a)) py_binary64 nat
           (fun g : nat => (lit 1 2, S g))
           (fun (n : nat) (g : nat) => (Nat.modulo g n, S g))
           (fun _ : Z => 0%nat) 7%nat 9%nat _ _ patches patches' g1 g2 E1 E2).
Defined.

(** ** The parts of the tree *)

Section TreeParts.

Context {A : Type} {N : Numeric A} {T : Trig A} {P : PyFloat A}.
Variable rng : Type.
Variable random_sample : rng -> A * rng.
Variable choice_index : nat -> rng -> nat * rng.

Local Open Scope np_scope.

Lemma py_range_nth (n : nat) (k : nat) (x : Z) :
  nth_error (py_range 0 (Z.of_nat n) 1) k = Some x -> x = Z.of_nat k.
Proof.
  unfold py_range. cbn [Z.ltb Z.compare].
  replace (Z.to_nat ((Z.of_nat n - 0 + 1 - 1) / 1)) with n
    by (rewrite Z.div_1_r; lia).
  rewrite nth_error_map, nth_error_seq.
  destruct (Nat.ltb k n); cbn [option_map]; [|discriminate].
  intro H. injection H as <-. lia.
Qed.

(** The patches of a tree that was drawn are those of the trunk, then what
    the segment, needle and ornament loops collected, then the star; each
    collected patch is a result of its loop body from some state of the
    generator. *)
Lemma tree_patches_parts (g : rng) (min_x max_x min_y max_y : A)
  (patches : list patch) (g' : rng) :
  let center_x := (min_x + max_x) / of_Z 2 in
  let width := max_x - min_x in
  let height := max_y - min_y in
  let tree_base_y := min_y - lit 5 100 * height in
  let tree_top_y := max_y + lit 5 100 * height in
  let tree_height := tree_top_y - tree_base_y in
  let trunk_width := width * lit 5 100 in
  let trunk_height := height * lit 12 100 in
  let branch_base_y := tree_base_y + trunk_height in
  let tree_width_base := width * lit 11 10 in
  let star_y := tree_top_y + height * lit 15 1000 in
  let star_size := width * lit 65 1000 in
  tree_patches random_sample choice_index g (min_x, max_x, min_y, max_y)
  = Ok (patches, g') ->
  exists segments needles ornaments,
    patches
    = map (trunk center_x tree_base_y trunk_width trunk_height) [0; 1; 2]%Z
      ++ segments ++ needles ++ concat ornaments
      ++ map (top_star center_x star_y star_size) [0; 1; 2]%Z
    /\ length segments = 15%nat
    /\ length needles = 60%nat
    /\ length ornaments = 22%nat
    /\ (forall k p, nth_error segments k = Some p ->
          exists g0 g1,
            segment random_sample choice_index center_x width height
                    branch_base_y tree_top_y tree_height tree_width_base
                    (Z.of_nat k) g0 = Ok (p, g1))
    /\ (forall k p, nth_error needles k = Some p ->
          exists g0 g1,
            needle random_sample choice_index center_x width branch_base_y
                   tree_top_y tree_width_base g0 = Ok (p, g1))
    /\ (forall k l, nth_error ornaments k = Some l ->
          exists g0 g1,
            ornament random_sample choice_index center_x width branch_base_y
                     tree_top_y tree_width_base g0 = Ok (l, g1)).
Proof.
  intros center_x width height tree_base_y tree_top_y tree_height trunk_width
         trunk_height branch_base_y tree_width_base star_y star_size.
  unfold tree_patches.
  fold center_x width height tree_base_y tree_top_y tree_height trunk_width
       trunk_height branch_base_y tree_width_base star_y star_size.
  intro H.
  apply rbind_ok in H. destruct H as (segs & g1 & H1 & H).
  apply rbind_ok in H. destruct H as (needles & g2 & H2 & H).
  apply rbind_ok in H. destruct H as (ornaments & g3 & H3 & H).
  apply ret_ok in H. destruct H as [-> _].
  exists segs, needles, ornaments.
  split; [reflexivity|].
  split; [exact (for_each_length _ _ _ H1)|].
  split; [exact (for_each_length _ _ _ H2)|].
  split; [exact (for_each_length _ _ _ H3)|].
  split; [|split].
  - intros k p Hp.
    destruct (for_each_nth _ _ _ k H1 Hp) as (x & g0 & g4 & Hx & Hb).
    apply (py_range_nth 15) in Hx. subst x. exists g0, g4. exact Hb.
  - intros k p Hp.
    destruct (for_each_nth _ _ _ k H2 Hp) as (x & g0 & g4 & _ & Hb).
    exists g0, g4. exact Hb.
  - intros k l Hl.
    destruct (for_each_nth _ _ _ k H3 Hl) as (x & g0 & g4 & _ & Hb).
    exists g0, g4. exact Hb.
Qed.

End TreeParts.

(** ** [create_soft_watercolor_tree] in exact arithmetic *)

Section TreeGeometry.

Local Open Scope R_scope.

Variable rng : Type.
Variable random_sample : rng -> xreal * rng.
Variable choice_index : nat -> rng -> nat * rng.

(** [random_sample] draws from [0, 1). *)
Hypothesis random_sample_unit :
  forall g, exists u, fst (random_sample g) = Fin u /\ 0 <= u < 1.

Lemma xdiv_by_literal (a : R) (k : Z) :
  (k <> 0)%Z -> xdiv (Fin a) (Fin (IZR k)) = Fin (a / IZR k).
Proof.
  intro Hk. apply (xdiv_Fin a). apply not_0_IZR. exact Hk.
Qed.

Ltac xnorm :=
  rewrite ?lit_exact by discriminate;
  repeat (cbn [np_add np_subtract np_multiply np_divide of_Z exact xadd
               xsub xopp xmul py_neg py_exact fst snd];
          rewrite ?xdiv_by_literal by discriminate).

(** Between finite limits [np.random.uniform] returns, a value of
    [[low, high)] when [low <= high]. *)
Lemma uniform_exact (lo hi : R) :
  returns (fun v => exists u, v = Fin (lo + (hi - lo) * u) /\ 0 <= u < 1)
          (uniform random_sample (Fin lo) (Fin hi)).
Proof.
  intro g. unfold uniform.
  cbn [np_subtract exact xsub xadd xopp np_isfinite py_exact xisfinite].
  destruct (random_sample_unit g) as (u & E & Hu).
  destruct (random_sample g) as [v g']. cbn [fst] in E. subst v.
  cbn [np_add np_multiply exact xadd xmul].
  exists (Fin (lo + (hi - lo) * u)), g'. split; [reflexivity|].
  exists u. split; [reflexivity | exact Hu].
Qed.

Lemma choice_returns (items : list string) :
  returns (fun _ => True) (choice choice_index items).
Proof.
  intro g. unfold choice. destruct (choice_index _ g) as [i g'].
  exists (nth i items EmptyString), g'. split; [reflexivity | exact I].
Qed.

(** One draw: the statement is a bind of a [uniform] between finite
    limits. *)
Ltac draw u Hu :=
  xnorm;
  eapply returns_bind; [apply uniform_exact|];
  let v := fresh "v" in
  intros v (u & -> & Hu).

Ltac pick c :=
  eapply returns_bind; [apply choice_returns|];
  intros c _.

Lemma needle_exact (cx w bby tty twb : R) :
  0 <= w -> 0 <= twb ->
  returns
    (fun p => exists x y r c a t,
       p = CirclePatch (Fin x, Fin y) (Fin r) c (Fin a) 3
       /\ 0.05 <= t <= 0.95
       /\ y = bby + t * (tty - bby)
       /\ Rabs (x - cx) <= 0.8 * (twb * (1 - 0.75 * t) / 2)
       /\ 0.01 * w <= r <= 0.02 * w
       /\ 0.08 <= a <= 0.14)
    (needle random_sample choice_index (Fin cx) (Fin w) (Fin bby) (Fin tty)
            (Fin twb)).
Proof.
  intros Hw Htwb. unfold needle.
  draw u1 H1. draw u2 H2. draw u3 H3. pick c. draw u4 H4.
  xnorm. apply returns_ret.
  do 5 eexists. exists (0.05 + (0.95 - 0.05) * u1).
  split; [reflexivity|].
  split; [lra|]. split; [lra|].
  split; [|split; [nra | lra]].
  apply Rabs_le.
  set (m := twb * (1 - 0.75 * (0.05 + (0.95 - 0.05) * u1)) / 2).
  assert (Hm : 0 <= m) by (unfold m; nra).
  replace (cx + _ - cx) with (- (m * 0.8) + (m * 0.8 + m * 0.8) * u2)
    by (unfold m; lra).
  nra.
Qed.

Lemma ornament_exact (cx w bby tty twb : R) :
  0 <= w -> 0 <= twb ->
  returns
    (fun l => exists x y r c t,
       l = [ CirclePatch (Fin x, Fin y) (Fin r) c (Fin 0.38) 10;
             CirclePatch (Fin (x - r * 0.3), Fin (y + r * 0.3))
                         (Fin (r * 0.28)) "white"%string (Fin 0.28) 11 ]
       /\ 0.15 <= t <= 0.88
       /\ y = bby + t * (tty - bby)
       /\ Rabs (x - cx) <= 0.65 * (twb * (1 - 0.75 * t) / 2)
       /\ 0.013 * w <= r <= 0.027 * w)
    (ornament random_sample choice_index (Fin cx) (Fin w) (Fin bby) (Fin tty)
              (Fin twb)).
Proof.
  intros Hw Htwb. unfold ornament.
  draw u1 H1. draw u2 H2. draw u3 H3. pick c.
  xnorm. apply returns_ret.
  do 4 eexists. exists (0.15 + (0.88 - 0.15) * u1).
  split; [reflexivity|].
  split; [lra|]. split; [lra|].
  split; [|nra].
  apply Rabs_le.
  set (m := twb * (1 - 0.75 * (0.15 + (0.88 - 0.15) * u1)) / 2).
  assert (Hm : 0 <= m) by (unfold m; nra).
  replace (cx + _ - cx) with (- (m * 0.65) + (m * 0.65 + m * 0.65) * u2)
    by (unfold m; lra).
  nra.
Qed.

(** For finite arguments the segment loop body returns: the limits of its
    draws are finite. *)
Lemma segment_returns (cx w h bby tty th twb : R) (seg : Z) :
  returns (fun _ => True)
    (segment random_sample choice_index (Fin cx) (Fin w) (Fin h) (Fin bby)
             (Fin tty) (Fin th) (Fin twb) seg).
Proof.
  unfold segment.
  eapply returns_bind.
  { apply returns_for_each with (Q := fun _ => True). intros i _.
    draw u1 H1. draw u2 H2. apply returns_ret. exact I. }
  intros l1 _. eapply returns_bind.
  { apply returns_for_each with (Q := fun _ => True). intros i _.
    draw u1 H1. apply returns_ret. exact I. }
  intros l2 _. eapply returns_bind.
  { apply returns_for_each with (Q := fun _ => True). intros i _.
    draw u1 H1. draw u2 H2. apply returns_ret. exact I. }
  intros l3 _. eapply returns_bind.
  { apply returns_for_each with (Q := fun _ => True). intros i _.
    draw u1 H1. apply returns_ret. exact I. }
  intros l4 _.
  destruct (Z.eqb (seg mod 2) 0); pick c; apply returns_ret; exact I.
Qed.

Lemma needle_returns (cx w bby tty twb : R) :
  returns (fun _ => True)
    (needle random_sample choice_index (Fin cx) (Fin w) (Fin bby) (Fin tty)
            (Fin twb)).
Proof.
  unfold needle.
  draw u1 H1. draw u2 H2. draw u3 H3. pick c. draw u4 H4.
  apply returns_ret. exact I.
Qed.

Lemma ornament_returns (cx w bby tty twb : R) :
  returns (fun _ => True)
    (ornament random_sample choice_index (Fin cx) (Fin w) (Fin bby) (Fin tty)
              (Fin twb)).
Proof.
  unfold ornament.
  draw u1 H1. draw u2 H2. draw u3 H3. pick c.
  apply returns_ret. exact I.
Qed.

(** For finite bounds the tree is drawn: no draw raises. *)
Lemma tree_patches_returns_exact (g : rng) (x0 x1 y0 y1 : R) :
  exists patches g',
    tree_patches random_sample choice_index g
      (Fin x0, Fin x1, Fin y0, Fin y1) = Ok (patches, g').
Proof.
  cut (returns (fun _ : list (@patch xreal) => True)
         (fun g => tree_patches random_sample choice_index g
                     (Fin x0, Fin x1, Fin y0, Fin y1))).
  { intro H. destruct (H g) as (patches & g' & E & _).
    exists patches, g'. exact E. }
  unfold tree_patches. xnorm.
  match goal with
  | |- returns _ (fun g => ?m g) => change (returns (fun _ => True) m)
  end.
  eapply returns_bind.
  { apply returns_for_each with (Q := fun _ => True). intros seg _.
    apply segment_returns. }
  intros segs _. eapply returns_bind.
  { apply returns_for_each with (Q := fun _ => True). intros n _.
    apply needle_returns. }
  intros needles _. eapply returns_bind.
  { apply returns_for_each with (Q := fun _ => True). intros n _.
    apply ornament_returns. }
  intros ornaments _. apply returns_ret. exact I.
Qed.

Lemma Forall_nth_error {X : Type} (Q : X -> Prop) (l : list X) :
  (forall k x, nth_error l k = Some x -> Q x) -> Forall Q l.
Proof.
  intro H. apply Forall_forall. intros x Hin.
  destruct (In_nth_error _ _ Hin) as [k Hk]. exact (H k x Hk).
Qed.

(** The parts of a tree drawn for finite bounds, with the quantities the
    function derives from them. *)
Lemma tree_patches_parts_exact (g : rng) (x0 x1 y0 y1 : R)
  (patches : list (@patch xreal)) (g' : rng) :
  let w := x1 - x0 in
  let h := y1 - y0 in
  let center_x := (x0 + x1) / 2 in
  let tree_base_y := y0 - 0.05 * h in
  let tree_top_y := y1 + 0.05 * h in
  let branch_base_y := tree_base_y + h * 0.12 in
  tree_patches random_sample choice_index g (Fin x0, Fin x1, Fin y0, Fin y1)
  = Ok (patches, g') ->
  exists segments needles ornaments,
    patches
    = map (trunk (Fin center_x) (Fin tree_base_y) (Fin (w * 0.05))
                 (Fin (h * 0.12))) [0; 1; 2]%Z
      ++ segments ++ needles ++ concat ornaments
      ++ map (top_star (Fin center_x) (Fin (tree_top_y + h * 0.015))
                       (Fin (w * 0.065))) [0; 1; 2]%Z
    /\ length segments = 15%nat
    /\ length needles = 60%nat
    /\ length ornaments = 22%nat
    /\ (forall k p, nth_error segments k = Some p ->
          exists g0 g1,
            segment random_sample choice_index (Fin center_x)
                    (Fin w) (Fin h) (Fin branch_base_y)
                    (Fin tree_top_y) (Fin (tree_top_y - tree_base_y))
                    (Fin (w * 1.1)) (Z.of_nat k) g0 = Ok (p, g1))
    /\ (forall k p, nth_error needles k = Some p ->
          exists g0 g1,
            needle random_sample choice_index (Fin center_x) (Fin w)
                   (Fin branch_base_y) (Fin tree_top_y)
                   (Fin (w * 1.1)) g0 = Ok (p, g1))
    /\ (forall k l, nth_error ornaments k = Some l ->
          exists g0 g1,
            ornament random_sample choice_index (Fin center_x)
                     (Fin w) (Fin branch_base_y) (Fin tree_top_y)
                     (Fin (w * 1.1)) g0 = Ok (l, g1)).
Proof.
  intros w h center_x tree_base_y tree_top_y branch_base_y Hrun.
  pose proof (@tree_patches_parts xreal exact exact_trig py_exact rng
                random_sample choice_index g
                (Fin x0) (Fin x1) (Fin y0) (Fin y1) patches g') as H.
  cbv zeta in H.
  rewrite ?lit_exact in H by discriminate.
  repeat (cbn [np_add np_subtract np_multiply np_divide of_Z exact xadd
               xsub xopp xmul py_neg py_exact] in H;
          rewrite ?xdiv_by_literal in H by discriminate).
  exact (H Hrun).
Qed.

(** X14: for finite bounds with [x0 < x1] and [y0 < y1], and draws in
    [0, 1), the tree is drawn, every circle it adds has a finite centre and
    radius, and every needle cluster and bauble (the circles other than the
    highlights, of zorder 11) lies inside the nominal outline of the tree at
    the height of its centre. *)
Theorem tree_circles_inside_outline :
  forall (g : rng) (x0 x1 y0 y1 : R),
    x0 < x1 -> y0 < y1 ->
    exists patches g',
      tree_patches random_sample choice_index g
        (Fin x0, Fin x1, Fin y0, Fin y1) = Ok (patches, g')
      /\ Forall (fun p =>
                   match p with
                   | CirclePatch (Fin x, Fin y) (Fin r) _ _ z =>
                       z <> 11%Z -> inside_outline x0 x1 y0 y1 x y r
                   | CirclePatch _ _ _ _ _ => False
                   | _ => True
                   end)
                patches.
Proof.
  intros g x0 x1 y0 y1 Hx Hy.
  destruct (tree_patches_returns_exact g x0 x1 y0 y1)
    as (patches & g' & Hrun).
  exists patches, g'. split; [exact Hrun|].
  destruct (tree_patches_parts_exact _ _ _ _ _ Hrun)
    as (segs & needles & orns & -> & _ & _ & _ & Hsegs & Hneedles & Horns).
  assert (Hspan : y1 + 0.05 * (y1 - y0) - (y0 - 0.05 * (y1 - y0)
                  + (y1 - y0) * 0.12) = 0.98 * (y1 - y0)) by lra.
  assert (Hfrac : forall t,
             (y0 - 0.05 * (y1 - y0) + (y1 - y0) * 0.12
              + t * (y1 + 0.05 * (y1 - y0)
                     - (y0 - 0.05 * (y1 - y0) + (y1 - y0) * 0.12))
              - (y0 - 0.05 * (y1 - y0) + 0.12 * (y1 - y0)))
             / (y1 + 0.05 * (y1 - y0)
                - (y0 - 0.05 * (y1 - y0) + 0.12 * (y1 - y0))) = t).
  { intro t. field. lra. }
  repeat rewrite Forall_app. repeat split.
  - cbn [map trunk]. repeat constructor.
  - apply Forall_nth_error. intros k p Hp.
    destruct (Hsegs k p Hp) as (g0 & g1 & Hb).
    destruct (segment_kind _ _ _ _ _ _ _ _ _ _ _ Hb) as [K _].
    destruct p; try exact I; discriminate K.
  - apply Forall_nth_error. intros k p Hp.
    destruct (Hneedles k p Hp) as (g0 & g1 & Hb).
    assert (Hw : 0 <= x1 - x0) by lra.
    assert (Htwb : 0 <= (x1 - x0) * 1.1) by lra.
    destruct (@returns_inv _ _ _ _ _ _ _
                (@needle_exact ((x0 + x1) / 2) (x1 - x0)
                   (y0 - 0.05 * (y1 - y0) + (y1 - y0) * 0.12)
                   (y1 + 0.05 * (y1 - y0)) ((x1 - x0) * 1.1) Hw Htwb) Hb)
      as (x & y & r & c & a & t & -> & Ht & Ey & Hxb & Hr & _).
    intros _. unfold inside_outline. cbv zeta. rewrite Ey, Hfrac.
    split; [lra|]. split; [nra|]. nra.
  - apply Forall_concat. apply Forall_nth_error. intros k l Hl.
    destruct (Horns k l Hl) as (g0 & g1 & Hb).
    assert (Hw : 0 <= x1 - x0) by lra.
    assert (Htwb : 0 <= (x1 - x0) * 1.1) by lra.
    destruct (@returns_inv _ _ _ _ _ _ _
                (@ornament_exact ((x0 + x1) / 2) (x1 - x0)
                   (y0 - 0.05 * (y1 - y0) + (y1 - y0) * 0.12)
                   (y1 + 0.05 * (y1 - y0)) ((x1 - x0) * 1.1) Hw Htwb) Hb)
      as (x & y & r & c & t & -> & Ht & Ey & Hxb & Hr).
    constructor; [|constructor; [|constructor]].
    + intros _. unfold inside_outline. cbv zeta. rewrite Ey, Hfrac.
      split; [lra|]. split; [nra|]. nra.
    + intro H. exfalso. apply H. reflexivity.
  - cbn [map top_star]. repeat constructor.
Qed.

Lemma nth_error_concat_pairs {X : Type} (ls : list (list X)) (k : nat)
  (a b : X) :
  Forall (fun l => length l = 2%nat) ls ->
  nth_error ls k = Some [a; b] ->
  nth_error (concat ls) (2 * k) = Some a
  /\ nth_error (concat ls) (2 * k + 1) = Some b.
Proof.
  intro Hall. revert k.
  induction Hall as [|l ls Hl _ IH]; intros k Hk.
  - destruct k; discriminate Hk.
  - destruct k as [|k]; simpl in Hk.
    + injection Hk as ->. split; reflexivity.
    + destruct (IH k Hk) as [Ha Hb].
      destruct l as [|c [|d [|e l]]]; try discriminate Hl.
      replace (2 * S k)%nat with (S (S (2 * k))) by lia.
      replace (S (S (2 * k)) + 1)%nat with (S (S (2 * k + 1))) by lia.
      split; assumption.
Qed.

Lemma length_concat_pairs {X : Type} (ls : list (list X)) :
  Forall (fun l => length l = 2%nat) ls ->
  length (concat ls) = (2 * length ls)%nat.
Proof.
  induction 1 as [|l ls Hl _ IH]; simpl; [reflexivity|].
  rewrite length_app, Hl, IH. lia.
Qed.

(** A disc of radius [0.28 r] centred [0.3 r] to the left of and [0.3 r]
    above the centre of a disc of radius [r] lies inside it. *)
Lemma highlight_inside (x y r a b : R) :
  0 <= r ->
  (a - (x - r * 0.3)) ^ 2 + (b - (y + r * 0.3)) ^ 2 <= (r * 0.28) ^ 2 ->
  (a - x) ^ 2 + (b - y) ^ 2 <= r ^ 2.
Proof.
  intros Hr H.
  set (p := a - (x - r * 0.3)) in *. set (q := b - (y + r * 0.3)) in *.
  replace (a - x) with (p - r * 0.3) by (unfold p; lra).
  replace (b - y) with (q + r * 0.3) by (unfold q; lra).
  clearbody p q.
  replace ((r * 0.28) ^ 2) with (0.0784 * (r * r)) in H by nra.
  replace (p ^ 2 + q ^ 2) with (p * p + q * q) in H by ring.
  pose proof (Rle_0_sqr (p + q)) as Hs. unfold Rsqr in Hs.
  assert (Hd : q - p <= 0.4 * r).
  { destruct (Rle_dec (q - p) (0.4 * r)) as [L | G]; [exact L|].
    exfalso. assert (G' : 0.4 * r < q - p) by lra.
    assert (Hsq : (0.4 * r) * (0.4 * r) < (q - p) * (q - p))
      by (apply Rmult_le_0_lt_compat; lra).
    pose proof (Rle_0_sqr r) as Hrr. unfold Rsqr in Hrr.
    lra. }
  pose proof (Rmult_le_compat_l r (q - p) (0.4 * r) Hr Hd) as Hm.
  replace ((p - r * 0.3) ^ 2 + (q + r * 0.3) ^ 2)
    with (p * p + q * q + 0.18 * (r * r) + 0.6 * (r * (q - p))) by nra.
  replace (r ^ 2) with (r * r) by ring.
  pose proof (Rle_0_sqr r) as Hrr. unfold Rsqr in Hrr.
  lra.
Qed.

(** X15: for finite bounds with [x0 < x1] and draws in [0, 1), the tree is
    drawn and its patches 78 + 2k and 79 + 2k, [k < 22], are a bauble of
    radius [r] between [0.013 w] and [0.027 w] and its white highlight, a
    circle of radius [0.28 r] centred at [(-0.3 r, +0.3 r)] from the centre
    of the bauble; every point of the highlight is a point of the bauble. *)
Theorem highlight_inside_bauble :
  forall (g : rng) (x0 x1 y0 y1 : R) (k : nat),
    x0 < x1 -> (k < 22)%nat ->
    exists patches g',
      tree_patches random_sample choice_index g
        (Fin x0, Fin x1, Fin y0, Fin y1) = Ok (patches, g')
      /\ exists x y r c,
           nth_error patches (78 + 2 * k)
           = Some (CirclePatch (Fin x, Fin y) (Fin r) c (Fin 0.38) 10)
           /\ nth_error patches (79 + 2 * k)
              = Some (CirclePatch (Fin (x - r * 0.3), Fin (y + r * 0.3))
                                  (Fin (r * 0.28)) "white"%string
                                  (Fin 0.28) 11)
           /\ 0.013 * (x1 - x0) <= r <= 0.027 * (x1 - x0)
           /\ forall a b,
                (a - (x - r * 0.3)) ^ 2 + (b - (y + r * 0.3)) ^ 2
                <= (r * 0.28) ^ 2 ->
                (a - x) ^ 2 + (b - y) ^ 2 <= r ^ 2.
Proof.
  intros g x0 x1 y0 y1 k Hx Hk.
  destruct (tree_patches_returns_exact g x0 x1 y0 y1)
    as (patches & g' & Hrun).
  exists patches, g'. split; [exact Hrun|].
  destruct (tree_patches_parts_exact _ _ _ _ _ Hrun)
    as (segs & needles & orns & -> & L1 & L2 & L3 & _ & _ & Horns).
  assert (Hw : 0 <= x1 - x0) by lra.
  assert (Htwb : 0 <= (x1 - x0) * 1.1) by lra.
  pose proof (@ornament_exact ((x0 + x1) / 2) (x1 - x0)
                (y0 - 0.05 * (y1 - y0) + (y1 - y0) * 0.12)
                (y1 + 0.05 * (y1 - y0)) ((x1 - x0) * 1.1) Hw Htwb) as Hexact.
  assert (Hpairs : Forall (fun l : list (@patch xreal) => length l = 2%nat)
                          orns).
  { apply Forall_nth_error. intros j l Hl.
    destruct (Horns j l Hl) as (g0 & g1 & Hb).
    destruct (@returns_inv _ _ _ _ _ _ _ Hexact Hb) as (x & y & r & c & t & -> & _).
    reflexivity. }
  destruct (nth_error orns k) as [l|] eqn:Hl;
    [|apply nth_error_None in Hl; lia].
  destruct (Horns k l Hl) as (g0 & g1 & Hb).
  destruct (@returns_inv _ _ _ _ _ _ _ Hexact Hb)
    as (x & y & r & c & t & E & _ & _ & _ & Hr).
  subst l.
  destruct (@nth_error_concat_pairs _ orns k _ _ Hpairs Hl) as [Ha Hb'].
  assert (Hlen : length (concat orns) = 44%nat).
  { rewrite (length_concat_pairs Hpairs), L3. reflexivity. }
  exists x, y, r, c.
  assert (Hskip : forall j : nat, (j < 44)%nat ->
            nth_error
              (map (trunk (Fin ((x0 + x1) / 2)) (Fin (y0 - 0.05 * (y1 - y0)))
                          (Fin ((x1 - x0) * 0.05)) (Fin ((y1 - y0) * 0.12)))
                   [0; 1; 2]%Z
               ++ segs ++ needles ++ concat orns
               ++ map (top_star (Fin ((x0 + x1) / 2))
                                (Fin (y1 + 0.05 * (y1 - y0)
                                      + (y1 - y0) * 0.015))
                                (Fin ((x1 - x0) * 0.065))) [0; 1; 2]%Z)
              (78 + j)
            = nth_error (concat orns) j).
  { intros j Hj.
    rewrite nth_error_app2 by (cbn [map length]; lia).
    rewrite nth_error_app2 by (cbn [map length]; lia).
    rewrite nth_error_app2 by (cbn [map length]; lia).
    rewrite nth_error_app1 by (cbn [map length]; lia).
    f_equal. cbn [map length]. lia. }
  split; [rewrite Hskip by lia; exact Ha|].
  split.
  { replace (79 + 2 * k)%nat with (78 + (2 * k + 1))%nat by lia.
    rewrite Hskip by lia. exact Hb'. }
  split; [exact Hr|].
  intros a b. apply highlight_inside. nra.
Qed.

End TreeGeometry.

Lemma tree_circles_inside_outline_witness :
  exists patches g',
    tree_patches (fun g : unit => (Fin (1 / 2), g))
                 (fun (_ : nat) (g : unit) => (0%nat, g)) tt
                 (Fin 102, Fin 110, Fin 8, Fin 24) = Ok (patches, g')
    /\ Forall (fun p =>
                 match p with
                 | CirclePatch (Fin x, Fin y) (Fin r) _ _ z =>
                     z <> 11%Z -> inside_outline 102 110 8 24 x y r
                 | CirclePatch _ _ _ _ _ => False
                 | _ => True
                 end)
              patches.
Proof.
  apply (@tree_circles_inside_outline unit
           (fun g : unit => (Fin (1 / 2), g))
           (fun (_ : nat) (g : unit) => (0%nat, g))).
  - intro g. exists (1 / 2)%R. split; [reflexivity | lra].
  - lra.
  - lra.
Defined.

Lemma highlight_inside_bauble_witness :
  exists patches g',
    tree_patches (fun g : unit => (Fin (1 / 2), g))
                 (fun (_ : nat) (g : unit) => (0%nat, g)) tt
                 (Fin 102, Fin 110, Fin 8, Fin 24) = Ok (patches, g')
    /\ exists x y r c,
         nth_error patches 78
         = Some (CirclePatch (Fin x, Fin y) (Fin r) c (Fin 0.38) 10)
         /\ (0.013 * (110 - 102) <= r <= 0.027 * (110 - 102))%R.
Proof.
  assert (Hu : forall g : unit,
             exists u, fst (Fin (1 / 2), g) = Fin u /\ (0 <= u < 1)%R).
  { intro g. exists (1 / 2)%R. split; [reflexivity | lra]. }
  destruct (@highlight_inside_bauble unit
              (fun g : unit => (Fin (1 / 2), g))
              (fun (_ : nat) (g : unit) => (0%nat, g))
              Hu tt 102%R 110%R 8%R 24%R 0%nat)
    as (patches & g' & Hrun & x & y & r & c & H1 & _ & Hr & _).
  - lra.
  - lia.
  - exists patches, g'. split; [exact Hrun|].
    exists x, y, r, c. split; [exact H1 | exact Hr].
Defined.

(** X12: whatever the bounds, the numeric carrier and the draws of the
    generator, [create_soft_watercolor_tree] either raises the
    OverflowError of a draw whose range is not finite, or adds 125 patches
    in this order: three rectangles of zorder 1, fifteen polygons of 40
    vertices of zorder 2, sixty circles of zorder 3, twenty-two times a
    circle of zorder 10 followed by one of zorder 11, and three regular
    polygons of five vertices of zorder 12.  In exact arithmetic, for finite
    bounds and draws in [0, 1), it does not raise. *)
Theorem tree_patches_sequence :
  (forall (A : Type) (N : Numeric A) (T : Trig A) (P : PyFloat A)
          (rng : Type) (random_sample : rng -> A * rng)
          (choice_index : nat -> rng -> nat * rng) (seed : Z -> rng)
          (g : rng) (bounds : A * A * A * A),
      match create_soft_watercolor_tree seed
              (tree_patches random_sample choice_index) g bounds with
      | Ok (patches, _) =>
          map (fun p => (kind_of p, patch_zorder p)) patches
          = repeat (KRectangle, 1%Z) 3 ++ repeat (KPolygon 40, 2%Z) 15
            ++ repeat (KCircle, 3%Z) 60
            ++ concat (repeat [(KCircle, 10%Z); (KCircle, 11%Z)] 22)
            ++ repeat (KRegularPolygon 5, 12%Z) 3
      | Raise e => e = OverflowError
      end)
  /\ (forall (rng : Type) (random_sample : rng -> xreal * rng)
             (choice_index : nat -> rng -> nat * rng) (seed : Z -> rng)
             (g : rng) (x0 x1 y0 y1 : R),
         (forall g0, exists u,
             fst (random_sample g0) = Fin u /\ (0 <= u < 1)%R) ->
         exists patches g',
           create_soft_watercolor_tree seed
             (tree_patches random_sample choice_index) g
             (Fin x0, Fin x1, Fin y0, Fin y1) = Ok (patches, g')
           /\ length patches = 125%nat).
Proof.
  split.
  - intros A N T P rng random_sample choice_index seed g bounds.
    unfold create_soft_watercolor_tree.
    destruct (tree_patches random_sample choice_index (seed 42%Z) bounds)
      as [[patches g']|e] eqn:E.
    + exact (tree_patches_kinds _ _ _ _ E).
    + exact (tree_patches_raises _ _ _ _ E).
  - intros rng random_sample choice_index seed g x0 x1 y0 y1 Hunit.
    unfold create_soft_watercolor_tree.
    destruct (tree_patches_returns_exact random_sample choice_index Hunit
                (seed 42%Z) x0 x1 y0 y1) as (patches & g' & E).
    exists patches, g'. split; [exact E|].
    pose proof (tree_patches_kinds _ _ _ _ E) as K.
    apply (f_equal (@length _)) in K. rewrite length_map in K.
    rewrite K. reflexivity.
Qed.

Section TreeSegments.

Local Open Scope R_scope.

Variable rng : Type.
Variable random_sample : rng -> xreal * rng.
Variable choice_index : nat -> rng -> nat * rng.

Lemma py_min_exact (a b : R) : py_min (Fin a) (Fin b) = Fin (Rmin a b).
Proof.
  unfold py_min. cbn [py_lt py_exact xltb]. unfold Rltb, Rmin.
  destruct (Rlt_dec b a) as [L | G], (Rle_dec a b) as [L' | G'];
    try reflexivity; lra.
Qed.

(** The four edges of a polygon of 40 vertices collected as 15 + 5 + 15 + 5
    points. *)
Lemma segment_pts_edges {X : Type} (l1 l2 l3 l4 : list X) :
  length l1 = 15%nat -> length l2 = 5%nat -> length l3 = 15%nat ->
  length l4 = 5%nat ->
  length (l1 ++ l2 ++ l3 ++ l4) = 40%nat
  /\ firstn 5 (skipn 15 (l1 ++ l2 ++ l3 ++ l4)) = l2
  /\ skipn 35 (l1 ++ l2 ++ l3 ++ l4) = l4.
Proof.
  intros L1 L2 L3 L4.
  split; [rewrite !length_app, L1, L2, L3, L4; reflexivity|]. split.
  - rewrite skipn_app, L1, skipn_all2 by lia. cbn [app Nat.sub skipn].
    rewrite firstn_app, L2, firstn_all2 by lia. cbn [Nat.sub firstn].
    apply app_nil_r.
  - rewrite !app_assoc. rewrite skipn_app, skipn_all2
      by (rewrite !length_app; lia).
    rewrite !length_app, L1, L2, L3. reflexivity.
Qed.

Lemma segment_edges_exact (cx w h bby tty th twb : R) (k : nat) (g : rng)
  (p : @patch xreal) (g' : rng) :
  (k < 15)%nat ->
  segment random_sample choice_index (Fin cx) (Fin w) (Fin h) (Fin bby)
          (Fin tty) (Fin th) (Fin twb) (Z.of_nat k) g = Ok (p, g') ->
  let wb := twb * (1 - 0.05 * INR k) in
  let wt := twb * (1 - 0.05 * (INR k + 1)) in
  exists pts c a,
    p = MPLPolygon pts c a 2
    /\ length pts = 40%nat
    /\ map fst (firstn 5 (skipn 15 pts))
       = map Fin [cx - wt / 2; cx - wt / 4; cx; cx + wt / 4; cx + wt / 2]
    /\ map fst (skipn 35 pts)
       = map Fin [cx + 3 * wb / 4; cx + wb / 2; cx + wb / 4; cx;
                  cx - wb / 4].
Proof.
  intros Hk H wb wt.
  assert (Hs : 0 <= INR k <= 14).
  { split; [apply pos_INR|].
    replace 14 with (INR 14) by (simpl; lra). apply le_INR. lia. }
  unfold segment, n_segments, n_edge_pts in H.
  apply rbind_ok in H. destruct H as (l1 & g1 & H1 & H).
  apply rbind_ok in H. destruct H as (l2 & g2 & H2 & H).
  apply rbind_ok in H. destruct H as (l3 & g3 & H3 & H).
  apply rbind_ok in H. destruct H as (l4 & g4 & H4 & H).
  pose proof (for_each_length _ _ _ H1) as L1.
  pose proof (for_each_length _ _ _ H2) as L2.
  pose proof (for_each_length _ _ _ H3) as L3.
  pose proof (for_each_length _ _ _ H4) as L4.
  change (length (py_range 0 15 1)) with 15%nat in L1.
  change (length (py_range 0 5 1)) with 5%nat in L2.
  change (length (py_range (15 - 1) (-1) (-1))) with 15%nat in L3.
  change (length (py_range 5 0 (-1))) with 5%nat in L4.
  destruct (segment_pts_edges l1 l2 l3 l4 L1 L2 L3 L4)
    as (Hlen & Htop & Hbottom).
  assert (Etop : map fst l2
                 = map Fin [cx - wt / 2; cx - wt / 4; cx; cx + wt / 4;
                            cx + wt / 2]).
  { refine (eq_trans (@for_each_map _ _ _ _ fst ?[h] _ _ _ _ _ _ H2) _).
    { intros x g0 y g5 Hy.
      apply rbind_ok in Hy. destruct Hy as (dy & g6 & _ & Hy).
      apply ret_ok in Hy. destruct Hy as [-> _]. cbn [fst]. reflexivity. }
    change (py_range 0 5 1) with [0; 1; 2; 3; 4]%Z.
    cbn [map].
    rewrite ?lit_exact by discriminate.
    cbn [np_add np_divide of_Z exact xadd].
    rewrite ?xdiv_by_literal by discriminate.
    cbn [np_add exact xadd]. rewrite py_min_exact.
    cbn [np_add np_subtract np_multiply np_divide of_Z exact xadd xsub xopp
         xmul].
    rewrite ?xdiv_by_literal by discriminate.
    cbn [np_add np_subtract np_multiply np_divide of_Z exact xadd xsub xopp
         xmul].
    rewrite <- INR_IZR_INZ.
    assert (Emin : Rmin 1 (INR k / 15 + 1 / 15) = INR k / 15 + 1 / 15)
      by (apply Rmin_right; lra).
    rewrite Emin. unfold wt.
    repeat (apply (f_equal2 (@cons xreal)); [f_equal; lra|]).
    reflexivity. }
  assert (Ebottom : map fst l4
                    = map Fin [cx + 3 * wb / 4; cx + wb / 2; cx + wb / 4; cx;
                               cx - wb / 4]).
  { refine (eq_trans (@for_each_map _ _ _ _ fst ?[h] _ _ _ _ _ _ H4) _).
    { intros x g0 y g5 Hy.
      apply rbind_ok in Hy. destruct Hy as (dy & g6 & _ & Hy).
      apply ret_ok in Hy. destruct Hy as [-> _]. cbn [fst]. reflexivity. }
    change (py_range 5 0 (-1)) with [5; 4; 3; 2; 1]%Z.
    cbn [map].
    rewrite ?lit_exact by discriminate.
    cbn [np_add np_subtract np_multiply np_divide of_Z exact xadd xsub xopp
         xmul].
    rewrite ?xdiv_by_literal by discriminate.
    cbn [np_add np_subtract np_multiply np_divide of_Z exact xadd xsub xopp
         xmul].
    rewrite ?xdiv_by_literal by discriminate.
    cbn [np_add np_subtract np_multiply np_divide of_Z exact xadd xsub xopp
         xmul].
    rewrite <- INR_IZR_INZ. unfold wb.
    repeat (apply (f_equal2 (@cons xreal)); [f_equal; lra|]).
    reflexivity. }
  destruct (Z.eqb (Z.of_nat k mod 2) 0);
    apply rbind_ok in H; destruct H as (c & g5 & _ & H);
    apply ret_ok in H; destruct H as [-> _];
    do 3 eexists; (split; [reflexivity|]);
    rewrite Htop, Hbottom; auto.
Qed.

(** X16: for finite bounds, whatever the generator draws, the patch
    3 + k, [k < 15], of a tree that was drawn is a polygon of 40 vertices in
    which the five vertices of the top edge run from the left end to the
    right end of the upper width [wt], symmetrically about the centre, while
    the five of the bottom edge start a quarter of the lower width [wb] to
    the right of its right end and stop a quarter of it short of its left
    end ([range(5, 0, -1)] gives t = 5/4, 1, 3/4, 1/2, 1/4).  The upper
    width of a segment is the lower width of the next one.  With draws in
    [0, 1) the tree is drawn. *)
Theorem segment_top_and_bottom_vertices :
  forall (g : rng) (x0 x1 y0 y1 : R) (k : nat),
    (k < 15)%nat ->
    let cx := (x0 + x1) / 2 in
    let wb := (x1 - x0) * 1.1 * (1 - 0.05 * INR k) in
    let wt := (x1 - x0) * 1.1 * (1 - 0.05 * (INR k + 1)) in
    let run := tree_patches random_sample choice_index g
                 (Fin x0, Fin x1, Fin y0, Fin y1) in
    (forall patches g',
        run = Ok (patches, g') ->
        exists pts c a,
          nth_error patches (3 + k) = Some (MPLPolygon pts c a 2)
          /\ length pts = 40%nat
          /\ map fst (firstn 5 (skipn 15 pts))
             = map Fin [cx - wt / 2; cx - wt / 4; cx; cx + wt / 4;
                        cx + wt / 2]
          /\ map fst (skipn 35 pts)
             = map Fin [cx + 3 * wb / 4; cx + wb / 2; cx + wb / 4; cx;
                        cx - wb / 4])
    /\ ((forall g0, exists u, fst (random_sample g0) = Fin u /\ 0 <= u < 1) ->
        exists patches g', run = Ok (patches, g')).
Proof.
  intros g x0 x1 y0 y1 k Hk cx wb wt run. split.
  - intros patches g' Hrun.
    destruct (tree_patches_parts_exact random_sample choice_index g
                x0 x1 y0 y1 Hrun)
      as (segs & needles & orns & -> & L1 & _ & _ & Hsegs & _ & _).
    destruct (nth_error segs k) as [p|] eqn:Hp;
      [|apply nth_error_None in Hp; lia].
    destruct (Hsegs k p Hp) as (g0 & g1 & Hb).
    destruct (segment_edges_exact _ _ _ _ _ _ _ _ Hk Hb)
      as (pts & c & a & -> & Hlen & Htop & Hbottom).
    exists pts, c, a.
    split; [|split; [exact Hlen | split; [exact Htop | exact Hbottom]]].
    rewrite nth_error_app2 by (cbn [map length]; lia).
    rewrite nth_error_app1 by (cbn [map length]; lia).
    rewrite <- Hp. f_equal. cbn [map length]. lia.
  - intro Hunit.
    exact (tree_patches_returns_exact random_sample choice_index Hunit
             g x0 x1 y0 y1).
Qed.

End TreeSegments.

Lemma segment_top_and_bottom_vertices_witness :
  exists patches g' pts c a,
    tree_patches (fun g : unit => (Fin (1 / 2), g))
                 (fun (_ : nat) (g : unit) => (0%nat, g)) tt
                 (Fin 102, Fin 110, Fin 8, Fin 24) = Ok (patches, g')
    /\ nth_error patches 3 = Some (MPLPolygon pts c a 2)
    /\ length pts = 40%nat.
Proof.
  assert (H0 : (0 < 15)%nat) by lia.
  destruct (@segment_top_and_bottom_vertices unit
              (fun g : unit => (Fin (1 / 2), g))
              (fun (_ : nat) (g : unit) => (0%nat, g))
              tt 102%R 110%R 8%R 24%R 0%nat H0)
    as [Hparts Hreturns].
  destruct Hreturns as (patches & g' & Hrun).
  { intro g. exists (1 / 2)%R. split; [reflexivity | lra]. }
  destruct (Hparts patches g' Hrun) as (pts & c & a & H1 & H2 & _).
  exists patches, g', pts, c, a.
  split; [exact Hrun|]. split; [exact H1 | exact H2].
Defined.

(** ** The tree and the axis limits of [create_visualization] *)

Section TreeAxes.

Local Open Scope R_scope.

Variable rng : Type.
Variable random_sample : rng -> xreal * rng.
Variable choice_index : nat -> rng -> nat * rng.

Ltac xnorm :=
  rewrite ?lit_exact by discriminate;
  repeat (cbn [np_add np_subtract np_multiply np_divide of_Z exact xadd
               xsub xopp xmul py_neg py_exact np_pi exact_trig fst snd];
          rewrite ?xdiv_by_literal by discriminate).

Ltac fin_eq := repeat (f_equal; try lra).

(** The axis limits of finite bounds are finite. *)
Lemma axis_limits_exact (x0 y0 x1 y1 : R) :
  axis_limits (Fin x0, Fin y0, Fin x1, Fin y1)
  = ((Fin (x0 - (x1 - x0) * 0.05), Fin (x1 + (x1 - x0) * 0.05)),
     (Fin (y0 - (y1 - y0) * 0.05), Fin (y1 + (y1 - y0) * 0.05))).
Proof. unfold axis_limits. xnorm. reflexivity. Qed.

(** X17: with the bounds in the order [create_visualization] passes them,
    and whatever the generator draws, the three rectangles of the trunk of
    a tree that was drawn stand on the lower limit of the y axis, centred
    on the middle of the x axis, and the three stars of the top are centred
    [0.015 h] above the upper limit of the y axis, on that middle; the
    x axis is as wide as the base of the nominal outline, [1.1 w].  With
    draws in [0, 1) the tree is drawn. *)
Theorem tree_spans_axis_limits :
  forall (g : rng) (x0 x1 y0 y1 : R),
    let w := x1 - x0 in
    let h := y1 - y0 in
    let cx := (x0 + x1) / 2 in
    let ylo := y0 - 0.05 * h in
    let yhi := y1 + 0.05 * h in
    let run := tree_patches random_sample choice_index g
                 (Fin x0, Fin x1, Fin y0, Fin y1) in
    axis_limits (Fin x0, Fin y0, Fin x1, Fin y1)
    = ((Fin (cx - 1.1 * w / 2), Fin (cx + 1.1 * w / 2)), (Fin ylo, Fin yhi))
    /\ (forall patches g',
           run = Ok (patches, g') ->
           firstn 3 patches
           = [ Rectangle (Fin (cx - 0.05 * w / 2), Fin ylo) (Fin (0.05 * w))
                         (Fin (0.12 * h)) "#8b7355"%string (Fin 0.25) 1;
               Rectangle (Fin (cx - 0.042 * w / 2), Fin ylo) (Fin (0.042 * w))
                         (Fin (0.12 * h)) "#9d8468"%string (Fin 0.20) 1;
               Rectangle (Fin (cx - 0.034 * w / 2), Fin ylo) (Fin (0.034 * w))
                         (Fin (0.12 * h)) "#a89176"%string (Fin 0.15) 1 ]
           /\ skipn 122 patches
              = [ RegularPolygon (Fin cx, Fin (yhi + 0.015 * h)) 5
                                 (Fin (0.065 * w)) (Fin (PI / 2))
                                 "#f1c40f"%string (Fin 0.38) 12;
                  RegularPolygon (Fin cx, Fin (yhi + 0.015 * h)) 5
                                 (Fin (0.0533 * w)) (Fin (PI / 2))
                                 "#f1c40f"%string (Fin 0.30) 12;
                  RegularPolygon (Fin cx, Fin (yhi + 0.015 * h)) 5
                                 (Fin (0.0416 * w)) (Fin (PI / 2))
                                 "#f1c40f"%string (Fin 0.22) 12 ])
    /\ ((forall g0, exists u, fst (random_sample g0) = Fin u /\ 0 <= u < 1) ->
        exists patches g', run = Ok (patches, g')).
Proof.
  intros g x0 x1 y0 y1 w h cx ylo yhi run.
  split.
  { rewrite axis_limits_exact. unfold cx, ylo, yhi, w, h. fin_eq. }
  split.
  2:{ intro Hunit.
      exact (tree_patches_returns_exact random_sample choice_index Hunit
               g x0 x1 y0 y1). }
  intros patches g' Hrun.
  destruct (tree_patches_parts_exact random_sample choice_index g x0 x1 y0 y1
              Hrun)
    as (segs & needles & orns & -> & L1 & L2 & L3 & _ & _ & Horns).
  assert (Hlen : length (concat orns) = 44%nat).
  { assert (Hpairs : Forall (fun l : list (@patch xreal) =>
                               length l = 2%nat) orns).
    { apply Forall_nth_error. intros j l Hl.
      destruct (Horns j l Hl) as (g0 & g1 & Hb).
      pose proof (ornament_kind _ _ _ _ _ _ _ _ Hb) as K.
      apply (f_equal (@length _)) in K. rewrite length_map in K. exact K. }
    rewrite (length_concat_pairs Hpairs), L3. reflexivity. }
  split.
  - cbn [map app firstn]. unfold trunk. cbn [Z.to_nat Pos.to_nat
      Pos.iter_op Nat.add nth]. xnorm.
    unfold cx, ylo, w, h. fin_eq.
  - rewrite !app_assoc.
    rewrite skipn_app, skipn_all2
      by (rewrite !length_app; cbn [map length]; lia).
    rewrite !length_app, L1, L2, Hlen. cbn [map length Nat.add Nat.sub app skipn].
    unfold top_star. xnorm. unfold cx, yhi, w, h. fin_eq.
Qed.

End TreeAxes.

(** ** The marker sizes of the figure *)

(** [create_visualization] returns when the tree is drawn, the frame has
    rows and its default index, and the axis limits are finite. *)
Lemma create_visualization_returns (A : Type) (N : Numeric A) (T : Trig A)
  (P : PyFloat A) (rgba rng patch coord : Type)
  (scatter_other : forall X : Type, nat -> list X -> result (list X))
  (seed : Z -> rng)
  (tree_patches : rng -> A * A * A * A -> result (list patch * rng))
  (total_bounds : GeoDataFrame coord -> A * A * A * A)
  (series_min series_max : list A -> A) (Normalize : A -> A -> A -> A)
  (YlOrRd : A -> rgba) (g : rng) (gdf_pa : list (pa_row A))
  (gdf_boundary : GeoDataFrame coord) (b0 b1 b2 b3 : A)
  (patches : list patch) (g1 : rng) :
  total_bounds gdf_boundary = (b0, b1, b2, b3) ->
  tree_patches (seed 42%Z) (b0, b2, b1, b3) = Ok (patches, g1) ->
  gdf_pa <> [] ->
  default_index gdf_pa ->
  set_lim (fst (axis_limits (b0, b1, b2, b3))) = Ok tt ->
  set_lim (snd (axis_limits (b0, b1, b2, b3))) = Ok tt ->
  exists drawn,
    create_visualization scatter_other seed tree_patches total_bounds
      series_min series_max Normalize YlOrRd g gdf_pa gdf_boundary
    = Ok (map (@TreePatch A rgba patch coord) patches
          ++ [@BoundaryPlot A rgba patch coord gdf_boundary]
          ++ map (fun '(row, m) => @Marker A rgba patch coord row m) drawn,
          g1).
Proof.
  intros Hb Htree Hne Hd Hx Hy.
  rewrite create_visualization_steps, Hb, Htree.
  set (areas := map (@area_km2 A) gdf_pa).
  destruct (calculate_star_sizes_cases areas default_min_size default_max_size)
    as [[E _] | [_ (sizes & Hsizes & Hlen)]].
  { exfalso. apply Hne. unfold areas in E.
    destruct gdf_pa; [reflexivity | discriminate E]. }
  rewrite Hsizes.
  set (colors := map _ areas).
  assert (Hs : length sizes = length gdf_pa)
    by (rewrite Hlen; apply length_map).
  assert (Hc : length colors = length gdf_pa)
    by (unfold colors, areas; rewrite !length_map; reflexivity).
  destruct (@scatter_star_glyphs_glyph A N T rgba scatter_other gdf_pa sizes
              colors Hs Hc Hd) as (drawn & Hdrawn & _).
  rewrite Hdrawn, Hx, Hy. exists drawn. reflexivity.
Qed.

Section FigureSizes.

Local Open Scope R_scope.

Context {rgba rng coord : Type}.
Variable scatter_other : forall X : Type, nat -> list X -> result (list X).
Variable seed : Z -> rng.
Variable random_sample : rng -> xreal * rng.
Variable choice_index : nat -> rng -> nat * rng.
Variable total_bounds : GeoDataFrame coord -> xreal * xreal * xreal * xreal.
Variable series_min : list xreal -> xreal.
Variable series_max : list xreal -> xreal.
Variable Normalize : xreal -> xreal -> xreal -> xreal.
Variable YlOrRd : xreal -> rgba.

(** [random_sample] draws from [0, 1). *)
Hypothesis random_sample_unit :
  forall g, exists u, fst (random_sample g) = Fin u /\ 0 <= u < 1.

(** The sizes [calculate_star_sizes] computes with its default bounds. *)
Lemma default_sizes_exact (ms : list R) :
  Forall (fun m => 0 <= m) ms ->
  (exists a b, In a ms /\ In b ms /\ a <> b) ->
  exists sizes : list R,
    calculate_star_sizes (map Fin ms) default_min_size default_max_size
    = Ok (map Fin sizes)
    /\ forall k m s,
         nth_error ms k = Some m ->
         nth_error sizes k = Some s ->
         80 <= s <= 1000
         /\ ((forall m', In m' ms -> m' <= m) -> s = 1000)
         /\ ((forall m', In m' ms -> m <= m') -> s = 80).
Proof.
  intros Hpos Hdiff.
  destruct (calculate_star_sizes_endpoints_exact 80 1000 Hpos Hdiff)
    as (sizes & Hres & Hend).
  exists sizes. split; [exact Hres|].
  intros k m s Hm Hs.
  destruct (Hend k m s Hm Hs) as [Hmin Hmax].
  split; [|split; assumption].
  destruct ms as [|m0 ms]; [destruct k; discriminate Hm|].
  pose proof (sqrt_range_nondegenerate Hpos Hdiff) as Hr.
  change default_min_size with (Fin 80) in Hres.
  change default_max_size with (Fin 1000) in Hres.
  rewrite (calculate_star_sizes_exact 80 1000 Hpos) in Hres.
  assert (E : nth_error (map Fin sizes) k
              = nth_error
                  (map (fun a =>
                          interpolate
                            (fold_left Rmin (map sqrt ms) (sqrt m0))
                            (fold_left Rmax (map sqrt ms) (sqrt m0))
                            80 1000 (sqrt a)) (m0 :: ms)) k)
    by (f_equal; injection Hres; intro H; symmetry; exact H).
  rewrite !nth_error_map, Hm, Hs in E. cbn [option_map] in E.
  unfold interpolate in E.
  destruct (Req_dec_T _ _) as [C | _] in E; [lra|].
  assert (Es : s = 80 + (sqrt m - fold_left Rmin (map sqrt ms) (sqrt m0))
                        / (fold_left Rmax (map sqrt ms) (sqrt m0)
                           - fold_left Rmin (map sqrt ms) (sqrt m0))
                        * (1000 - 80)) by congruence.
  rewrite Es.
  destruct (fold_Rmin_lower (map sqrt ms) (sqrt m0)) as [L1 L2].
  destruct (fold_Rmax_upper (map sqrt ms) (sqrt m0)) as [U1 U2].
  apply interpolate_bounds; [exact Hr | | lra].
  rewrite Forall_forall in L2, U2.
  destruct (nth_error_In _ _ Hm) as [<- | Hin]; [lra|].
  split; [apply L2 | apply U2]; apply in_map; exact Hin.
Qed.

(** X9: [create_visualization] composed with [calculate_star_sizes] and the
    tree, in exact arithmetic: for finite bounds, draws in [0, 1) and a
    frame with its default index whose areas are finite, non-negative and
    not all equal, the figure is created, and the glyph of every row has
    marker sizes [2.5 s, 1.8 s, 1.3 s, s] for its stars and [0.08 s] for its
    five dots, with [80 <= s <= 1000]; [s] is 1000 for a row of greatest
    area and 80 for a row of least area. *)
Theorem figure_marker_sizes :
  forall (g : rng) (gdf_pa : list (pa_row xreal))
         (gdf_boundary : GeoDataFrame coord) (areas : list R)
         (x0 y0 x1 y1 : R),
    total_bounds gdf_boundary = (Fin x0, Fin y0, Fin x1, Fin y1) ->
    default_index gdf_pa ->
    map (@area_km2 xreal) gdf_pa = map Fin areas ->
    Forall (fun m => 0 <= m) areas ->
    (exists a b, In a areas /\ In b areas /\ a <> b) ->
    exists arts g',
      create_visualization scatter_other seed
        (tree_patches random_sample choice_index) total_bounds series_min
        series_max Normalize YlOrRd g gdf_pa gdf_boundary = Ok (arts, g')
      /\ forall k row m,
           nth_error gdf_pa k = Some row ->
           nth_error areas k = Some m ->
           exists s,
             80 <= s <= 1000
             /\ ((forall m', In m' areas -> m' <= m) -> s = 1000)
             /\ ((forall m', In m' areas -> m <= m') -> s = 80)
             /\ map (@size xreal rgba) (glyph k (markers_of arts))
                = map Fin [s * 2.5; s * 1.8; s * 1.3; s;
                           s * 0.08; s * 0.08; s * 0.08; s * 0.08; s * 0.08].
Proof.
  intros g gdf_pa gdf_boundary areas x0 y0 x1 y1 Hb Hd Hareas Hpos Hdiff.
  assert (Hne : gdf_pa <> []).
  { intro E. subst gdf_pa. destruct areas; [|discriminate Hareas].
    destruct Hdiff as (a & _ & [] & _). }
  destruct (tree_patches_returns_exact random_sample choice_index
              random_sample_unit (seed 42%Z) x0 x1 y0 y1)
    as (patches & g1 & Htree).
  destruct (@create_visualization_returns xreal exact exact_trig py_exact
              rgba rng _ coord scatter_other seed
              (tree_patches random_sample choice_index) total_bounds
              series_min series_max Normalize YlOrRd g gdf_pa gdf_boundary
              _ _ _ _ patches g1 Hb Htree Hne Hd)
    as (drawn & Hrun).
  { rewrite axis_limits_exact. reflexivity. }
  { rewrite axis_limits_exact. reflexivity. }
  destruct (create_visualization_glyphs exact exact_trig py_exact
              scatter_other seed (tree_patches random_sample choice_index)
              total_bounds series_min series_max Normalize YlOrRd g
              gdf_boundary Hd Hrun)
    as (star_sizes & Hsizes & Hg).
  destruct (default_sizes_exact Hpos Hdiff) as (sizes & Hres & Hs).
  rewrite Hareas, Hres in Hsizes. injection Hsizes as <-.
  eexists _, g1. split; [exact Hrun|].
  intros k row m Hrow Hm.
  assert (Hk : (k < length sizes)%nat).
  { assert (length (map Fin sizes) = length (map Fin areas)).
    { destruct (calculate_star_sizes_cases (map Fin areas)
                  default_min_size default_max_size)
        as [[_ E] | [_ (out & Hout & Hlen)]]; [congruence|].
      rewrite Hres in Hout. injection Hout as <-. exact Hlen. }
    rewrite !length_map in H. rewrite H. apply nth_error_Some. congruence. }
  destruct (nth_error sizes k) as [s|] eqn:Hsk;
    [|apply nth_error_None in Hsk; lia].
  destruct (Hs k m s Hm Hsk) as (Hrange & Hmax & Hmin).
  exists s. split; [exact Hrange|]. split; [exact Hmax|]. split; [exact Hmin|].
  rewrite (Hg k row (Fin s) Hrow (map_nth_error Fin k sizes Hsk)).
  unfold render_glyph, star_layer, sparkle_dot. cbn [map app size].
  rewrite !lit_exact by discriminate.
  cbn [np_multiply exact xmul].
  repeat (f_equal; try lra).
Qed.

End FigureSizes.

Lemma figure_marker_sizes_witness :
  exists arts g',
    create_visualization (fun _ _ _ => Raise ValueError) (fun _ : Z => tt)
      (tree_patches (fun g : unit => (Fin (1 / 2), g))
                    (fun (_ : nat) (g : unit) => (0%nat, g)))
      (fun _ : GeoDataFrame unit => (of_Z 102, of_Z 8, of_Z 110, of_Z 24))
      (fun _ => of_Z 71) (fun _ => of_Z 1156) (fun _ _ v : xreal => v)
      (fun _ : xreal => tt) tt
      [ {| index_label := 0; name := "a"; lat := of_Z 22; lon := of_Z 105;
           area_km2 := of_Z 71 |};
        {| index_label := 1; name := "b"; lat := of_Z 11; lon := of_Z 107;
           area_km2 := of_Z 1156 |} ]
      [] = Ok (arts, g')
    /\ exists s,
         (80 <= s <= 1000)%R
         /\ map (@size xreal unit) (glyph 1 (markers_of arts))
            = map Fin [s * 2.5; s * 1.8; s * 1.3; s;
                       s * 0.08; s * 0.08; s * 0.08; s * 0.08; s * 0.08]%R.
Proof.
  destruct (@figure_marker_sizes unit unit unit
              (fun _ _ _ => Raise ValueError) (fun _ : Z => tt)
              (fun g : unit => (Fin (1 / 2), g))
              (fun (_ : nat) (g : unit) => (0%nat, g))
              (fun _ : GeoDataFrame unit =>
                 (of_Z 102, of_Z 8, of_Z 110, of_Z 24))
              (fun _ => of_Z 71) (fun _ => of_Z 1156) (fun _ _ v : xreal => v)
              (fun _ : xreal => tt))
    with (g := tt) (gdf_boundary := @nil (geometry unit))
         (gdf_pa := [ {| index_label := 0%Z; name := "a"%string;
                         lat := of_Z 22; lon := of_Z 105;
                         area_km2 := of_Z 71 |};
                      {| index_label := 1%Z; name := "b"%string;
                         lat := of_Z 11; lon := of_Z 107;
                         area_km2 := of_Z 1156 |} ])
         (areas := [71; 1156]%R)
         (x0 := 102%R) (y0 := 8%R) (x1 := 110%R) (y1 := 24%R)
    as (arts & g' & Hrun & Hg).
  - intro g. exists (1 / 2)%R. split; [reflexivity | lra].
  - reflexivity.
  - reflexivity.
  - reflexivity.
  - repeat constructor; lra.
  - exists 71%R, 1156%R. simpl. split; [tauto|]. split; [tauto|lra].
  - exists arts, g'. split; [exact Hrun|].
    destruct (Hg 1%nat _ 1156%R eq_refl eq_refl) as (s & Hs & _ & _ & Hsz).
    exists s. split; [exact Hs | exact Hsz].
Defined.

(** ** The labels *)

Section Labels.

Context {A : Type} {N : Numeric A}.

Lemma StronglySorted_app {X : Type} (R0 : X -> X -> Prop) (l1 l2 : list X) :
  StronglySorted R0 (l1 ++ l2) ->
  forall a b, In a l1 -> In b l2 -> R0 a b.
Proof.
  induction l1 as [|x l1 IH]; intros Hs a b Ha Hb; [destruct Ha|].
  simpl in Hs. apply StronglySorted_inv in Hs. destruct Hs as [Hs Hx].
  destruct Ha as [<- | Ha].
  - rewrite Forall_forall in Hx. apply Hx. apply in_or_app. right. exact Hb.
  - exact (IH Hs a b Ha Hb).
Qed.

(** X18: when [sort_values] returns the rows of the frame in an order in
    which no row comes before one it is not [ge] to by area (descending
    order, whatever it does with ties), the annotations are those of ten
    rows of the frame, or of all if there are fewer; each is the name of the
    row, placed at its point [(lon, lat)]; and every labelled row is [ge] by
    area to every row left without a label. *)
Theorem labels_are_largest :
  forall (sort_values_descending : list (pa_row A) -> list (pa_row A))
         (ge : A -> A -> Prop) (gdf_pa : list (pa_row A)),
    Permutation (sort_values_descending gdf_pa) gdf_pa ->
    StronglySorted (fun r1 r2 => ge (area_km2 r1) (area_km2 r2))
                   (sort_values_descending gdf_pa) ->
    exists labelled rest,
      Permutation (labelled ++ rest) gdf_pa
      /\ annotations sort_values_descending gdf_pa
         = map (fun row => (name row, (lon row, lat row))) labelled
      /\ length labelled = Nat.min 10 (length gdf_pa)
      /\ forall r1 r2, In r1 labelled -> In r2 rest ->
                       ge (area_km2 r1) (area_km2 r2).
Proof.
  intros sort ge gdf_pa Hperm Hsorted.
  exists (firstn 10 (sort gdf_pa)), (skipn 10 (sort gdf_pa)).
  split; [rewrite firstn_skipn; exact Hperm|].
  split; [reflexivity|].
  split.
  - rewrite length_firstn, (Permutation_length Hperm). reflexivity.
  - intros r1 r2 H1 H2.
    refine (@StronglySorted_app _ (fun r1 r2 => ge (area_km2 r1) (area_km2 r2))
              _ _ _ r1 r2 H1 H2).
    rewrite firstn_skipn. exact Hsorted.
Qed.

End Labels.

Lemma labels_are_largest_witness :
  exists labelled rest,
    Permutation (labelled ++ rest)
      [ {| index_label := 0; name := "b"; lat := Fin 11; lon := Fin 107;
           area_km2 := Fin 1156 |};
        {| index_label := 1; name := "a"; lat := Fin 22; lon := Fin 105;
           area_km2 := Fin 71 |} ]
    /\ annotations (fun l : list (pa_row xreal) => l)
         [ {| index_label := 0; name := "b"; lat := Fin 11; lon := Fin 107;
              area_km2 := Fin 1156 |};
           {| index_label := 1; name := "a"; lat := Fin 22; lon := Fin 105;
              area_km2 := Fin 71 |} ]
       = map (fun row => (name row, (lon row, lat row))) labelled
    /\ length labelled = 2%nat.
Proof.
  destruct (@labels_are_largest xreal (fun l => l)
              (fun a b => xltb a b = false)
              [ {| index_label := 0; name := "b"; lat := Fin 11;
                   lon := Fin 107; area_km2 := Fin 1156 |};
                {| index_label := 1; name := "a"; lat := Fin 22;
                   lon := Fin 105; area_km2 := Fin 71 |} ])
    as (labelled & rest & Hp & Ha & Hl & _).
  - apply Permutation_refl.
  - repeat constructor. cbn [area_km2 xltb]. unfold Rltb.
    destruct (Rlt_dec 1156 71) as [C | _]; [lra | reflexivity].
  - exists labelled, rest. split; [exact Hp|]. split; [exact Ha | exact Hl].
Defined.

(** ** [main] *)

Section MainProperties.

Context {A : Type} {N : Numeric A} {T : Trig A} {P : PyFloat A}.
Context {rgba rng patch coord : Type}.
Variable scatter_other : forall X : Type, nat -> list X -> result (list X).
Variable seed : Z -> rng.
Variable tree_patches : rng -> A * A * A * A -> result (list patch * rng).
Variable total_bounds : GeoDataFrame coord -> A * A * A * A.
Variable series_min : list A -> A.
Variable series_max : list A -> A.
Variable Normalize : A -> A -> A -> A.
Variable YlOrRd : A -> rgba.
Variable path_exists : string -> bool.
Variable read_file : string -> result (GeoDataFrame coord).
Variable simplify : geometry coord -> geometry coord.
Variable fs : Type.
Variable makedirs : string -> fs -> result unit * fs.
Variable savefig :
  string -> list (@artist A rgba patch coord) -> fs -> result unit * fs.
Variable to_csv : string -> list (string * A * A * A) -> fs -> result unit * fs.
Variable path_join : string -> string -> string.

Lemma fetch_vietnam_boundary_raises (gadm_file : string) (e : exn) :
  fetch_vietnam_boundary path_exists read_file simplify gadm_file = Raise e ->
  e = boundary_not_found.
Proof.
  unfold fetch_vietnam_boundary.
  destruct (try_load path_exists read_file simplify gadm_file)
    as [[loaded|] | e']; intro H; try discriminate H;
    injection H as <-; reflexivity.
Qed.

(** The bundled table has its default index, [0 .. 24]. *)
Lemma bundled_default_index : default_index (fetch_wdpa_vietnam (A := A)).
Proof. reflexivity. Qed.

(** The figure of the bundled table: [create_visualization] raises what the
    tree raises; when the tree is drawn it raises ValueError if an axis
    limit is NaN or infinite, and returns otherwise.  Neither
    [calculate_star_sizes] nor the glyph statements raise. *)
Lemma bundled_figure_outcome (g : rng) (gdf_boundary : GeoDataFrame coord) :
  let run :=
    create_visualization scatter_other seed tree_patches total_bounds
      series_min series_max Normalize YlOrRd g fetch_wdpa_vietnam
      gdf_boundary in
  let '(xmin, ymin, xmax, ymax) := total_bounds gdf_boundary in
  let xlim := fst (axis_limits (xmin, ymin, xmax, ymax)) in
  let ylim := snd (axis_limits (xmin, ymin, xmax, ymax)) in
  let finite (l : A * A) := np_isfinite (fst l) && np_isfinite (snd l) in
  match tree_patches (seed 42%Z) (xmin, xmax, ymin, ymax) with
  | Raise e => run = Raise e
  | Ok (patches, g') =>
      if finite xlim && finite ylim
      then exists fig, run = Ok (fig, g')
      else run = Raise ValueError
  end.
Proof.
  intro run. unfold run. rewrite create_visualization_steps.
  destruct (total_bounds gdf_boundary) as [[[xmin ymin] xmax] ymax].
  destruct (tree_patches (seed 42%Z) (xmin, xmax, ymin, ymax))
    as [[patches g']|e]; [|reflexivity].
  set (areas := map (@area_km2 A) fetch_wdpa_vietnam).
  destruct (calculate_star_sizes_cases areas default_min_size default_max_size)
    as [[E _] | [_ (sizes & Hsizes & Hlen)]]; [discriminate E|].
  rewrite Hsizes.
  set (colors := map _ areas).
  assert (Hs : length sizes = length (fetch_wdpa_vietnam (A := A)))
    by (rewrite Hlen; apply length_map).
  assert (Hc : length colors = length (fetch_wdpa_vietnam (A := A)))
    by (unfold colors, areas; rewrite !length_map; reflexivity).
  destruct (@scatter_star_glyphs_glyph A N T rgba scatter_other
              fetch_wdpa_vietnam sizes colors Hs Hc bundled_default_index)
    as (drawn & Hdrawn & _).
  rewrite Hdrawn.
  set (xlim := fst (axis_limits (xmin, ymin, xmax, ymax))).
  set (ylim := snd (axis_limits (xmin, ymin, xmax, ymax))).
  assert (Hlim : forall l : A * A,
            set_lim l = if np_isfinite (fst l) && np_isfinite (snd l)
                        then Ok tt else Raise ValueError).
  { intros [lo hi]. reflexivity. }
  rewrite !Hlim.
  destruct (np_isfinite (fst xlim) && np_isfinite (snd xlim));
    [|reflexivity].
  destruct (np_isfinite (fst ylim) && np_isfinite (snd ylim));
    [|reflexivity].
  cbn [andb]. eexists. reflexivity.
Qed.

(** X19: [main] and the file system.  If the boundary cannot be loaded,
    [main] raises the exception of [fetch_vietnam_boundary] and the file
    system is as before.  On the bundled table neither
    [calculate_star_sizes] nor a scatter call nor the indexing
    [star_sizes[idx]] raises: [create_visualization] raises only what the
    tree raises from the bounds of the boundary loaded, or ValueError for
    an axis limit that is NaN or infinite, and then the file system is as
    before; when the tree is drawn and the limits are finite the figure is
    created.  Every other exception of [main] is one raised by
    [os.makedirs], [savefig] or [to_csv].  When [main] returns, the
    directory was made first, then the figure was saved in it as
    [vietnam_protected_areas_xmas_tree.png], then the 25 rows were written
    to [vietnam_protected_areas_data.csv]; the values returned are the
    figure saved, the bundled table and the boundary loaded. *)
Theorem main_writes_after_loading :
  forall (gadm_file output_dir : string) (g : rng) (s : fs),
    let run := main scatter_other seed tree_patches total_bounds series_min
                    series_max Normalize YlOrRd path_exists read_file
                    simplify makedirs savefig to_csv path_join in
    let figure := create_visualization scatter_other seed tree_patches
                    total_bounds series_min series_max Normalize YlOrRd g
                    fetch_wdpa_vietnam in
    let finite (l : A * A) := np_isfinite (fst l) && np_isfinite (snd l) in
    let finite_limits (gdf_boundary : GeoDataFrame coord) :=
      let '(xmin, ymin, xmax, ymax) := total_bounds gdf_boundary in
      finite (fst (axis_limits (xmin, ymin, xmax, ymax)))
      && finite (snd (axis_limits (xmin, ymin, xmax, ymax))) in
    let tree (gdf_boundary : GeoDataFrame coord) :=
      let '(xmin, ymin, xmax, ymax) := total_bounds gdf_boundary in
      tree_patches (seed 42%Z) (xmin, xmax, ymin, ymax) in
    ((forall gdf, fetch_vietnam_boundary path_exists read_file simplify
                    gadm_file <> Ok gdf) ->
     run gadm_file output_dir g s = (Raise boundary_not_found, s))
    /\ (forall e,
          fst (run gadm_file output_dir g s) = Raise e ->
          e = boundary_not_found
          \/ (exists gdf_boundary,
                fetch_vietnam_boundary path_exists read_file simplify
                  gadm_file = Ok gdf_boundary
                /\ figure gdf_boundary = Raise e
                /\ snd (run gadm_file output_dir g s) = s
                /\ (tree gdf_boundary = Raise e
                    \/ (e = ValueError
                        /\ finite_limits gdf_boundary = false)))
          \/ exists path s0,
               fst (makedirs path s0) = Raise e
               \/ (exists fig, fst (savefig path fig s0) = Raise e)
               \/ (exists rows, fst (to_csv path rows s0) = Raise e))
    /\ (forall gdf_boundary patches g1,
          tree gdf_boundary = Ok (patches, g1) ->
          finite_limits gdf_boundary = true ->
          exists fig, figure gdf_boundary = Ok (fig, g1))
    /\ (forall fig gdf_pa gdf_boundary,
          fst (run gadm_file output_dir g s)
          = Ok (fig, gdf_pa, gdf_boundary) ->
          fetch_vietnam_boundary path_exists read_file simplify gadm_file
          = Ok gdf_boundary
          /\ gdf_pa = fetch_wdpa_vietnam
          /\ (exists g', figure gdf_boundary = Ok (fig, g'))
          /\ exists s1 s2,
               makedirs output_dir s = (Ok tt, s1)
               /\ savefig (path_join output_dir
                             "vietnam_protected_areas_xmas_tree.png") fig s1
                  = (Ok tt, s2)
               /\ to_csv (path_join output_dir
                            "vietnam_protected_areas_data.csv")
                         (gdf_export gdf_pa) s2
                  = (Ok tt, snd (run gadm_file output_dir g s))
               /\ length (gdf_export gdf_pa) = 25%nat).
Proof.
  intros gadm_file output_dir g s run figure finite finite_limits tree.
  assert (Hfigure : forall gdf_boundary,
            match tree gdf_boundary with
            | Raise e => figure gdf_boundary = Raise e
            | Ok (patches, g') =>
                if finite_limits gdf_boundary
                then exists fig, figure gdf_boundary = Ok (fig, g')
                else figure gdf_boundary = Raise ValueError
            end).
  { intro gdf_boundary.
    pose proof (bundled_figure_outcome g gdf_boundary) as H.
    unfold tree, finite_limits, finite, figure.
    destruct (total_bounds gdf_boundary) as [[[xmin ymin] xmax] ymax].
    exact H. }
  split; [|split; [|split]].
  - intro Hnone. unfold run, main.
    pose proof (@fetch_vietnam_boundary_raises gadm_file) as Hraise.
    destruct (fetch_vietnam_boundary path_exists read_file simplify gadm_file)
      as [gdf_boundary | e0].
    + exfalso. exact (Hnone gdf_boundary eq_refl).
    + rewrite (Hraise e0 eq_refl). reflexivity.
  - intros e. unfold run, main.
    pose proof (@fetch_vietnam_boundary_raises gadm_file) as Hraise.
    destruct (fetch_vietnam_boundary path_exists read_file simplify gadm_file)
      as [gdf_boundary | e0].
    2:{ cbn [fst]. intro H. injection H as <-. left.
        apply Hraise. reflexivity. }
    pose proof (Hfigure gdf_boundary) as Hfig.
    fold (figure gdf_boundary).
    destruct (figure gdf_boundary) as [[fig g']|e1] eqn:Efig.
    + destruct (makedirs output_dir s) as [[[] | e2] s1] eqn:H1.
      * destruct (savefig _ fig s1) as [[[] | e3] s2] eqn:H2.
        -- destruct (to_csv _ _ s2) as [[[] | e4] s3] eqn:H3.
           ++ cbn [fst]. intro H. discriminate H.
           ++ cbn [fst]. intro H. injection H as <-. right. right.
              eexists _, s2. right. right. eexists. rewrite H3. reflexivity.
        -- cbn [fst]. intro H. injection H as <-. right. right.
           eexists _, s1. right. left. exists fig. rewrite H2. reflexivity.
      * cbn [fst]. intro H. injection H as <-. right. right.
        exists output_dir, s. left. rewrite H1. reflexivity.
    + cbn [fst snd]. intro H. injection H as <-. right. left.
      exists gdf_boundary.
      split; [reflexivity|].
      split; [first [exact Efig | reflexivity]|].
      split; [reflexivity|].
      destruct (tree gdf_boundary) as [[patches g1]|e2].
      * destruct (finite_limits gdf_boundary).
        -- destruct Hfig as (fig & Hfig). discriminate Hfig.
        -- injection Hfig as <-. right. split; reflexivity.
      * injection Hfig as <-. left. reflexivity.
  - intros gdf_boundary patches g1 Htree Hfin.
    pose proof (Hfigure gdf_boundary) as Hfig.
    rewrite Htree, Hfin in Hfig. exact Hfig.
  - intros fig gdf_pa gdf_boundary. unfold run, main.
    destruct (fetch_vietnam_boundary path_exists read_file simplify gadm_file)
      as [gdf_boundary0 | e0]; [|intro H; discriminate H].
    fold (figure gdf_boundary0).
    destruct (figure gdf_boundary0) as [[fig0 g']|e1] eqn:Efig;
      [|intro H; discriminate H].
    destruct (makedirs output_dir s) as [[[] | e2] s1] eqn:H1;
      [|intro H; discriminate H].
    destruct (savefig _ fig0 s1) as [[[] | e3] s2] eqn:H2;
      [|intro H; discriminate H].
    destruct (to_csv _ _ s2) as [[[] | e4] s3] eqn:H3;
      [|intro H; discriminate H].
    cbn [fst snd]. intro H. injection H as <- <- <-.
    split; [reflexivity|]. split; [reflexivity|].
    split; [exists g'; exact Efig|].
    exists s1, s2.
    split; [reflexivity|]. split; [exact H2|].
    split; [exact H3 | reflexivity].
Qed.

End MainProperties.

(** ** The heights of the segments of the tree *)

Section TreeHeights.

Local Open Scope R_scope.

Variable rng : Type.
Variable random_sample : rng -> xreal * rng.
Variable choice_index : nat -> rng -> nat * rng.

Hypothesis random_sample_unit :
  forall g, exists u, fst (random_sample g) = Fin u /\ 0 <= u < 1.

Ltac xnorm :=
  rewrite ?lit_exact by discriminate;
  repeat (cbn [np_add np_subtract np_multiply np_divide of_Z exact xadd
               xsub xopp xmul py_neg py_exact fst snd];
          rewrite ?xdiv_by_literal by discriminate).

Ltac xnorm_in H :=
  rewrite ?lit_exact in H by discriminate;
  repeat (cbn [np_add np_subtract np_multiply np_divide of_Z exact xadd
               xsub xopp xmul py_neg py_exact fst snd] in H;
          rewrite ?xdiv_by_literal in H by discriminate).

(** A vertex of the top or bottom edge: its height is the height of the
    edge plus a draw between [-0.008 h] and [0.008 h]. *)
Lemma edge_vertex_height (h : R) (x y0 : xreal) (g : rng)
  (p : xreal * xreal) (g' : rng) (y : R) :
  0 <= h ->
  y0 = Fin y ->
  rbind (uniform random_sample
           (np_multiply (py_neg (Fin h)) (lit 8 1000))
           (np_multiply (Fin h) (lit 8 1000)))
        (fun dy => ret (x, np_add y0 dy)) g = Ok (p, g') ->
  exists y', snd p = Fin y' /\ Rabs (y' - y) <= 0.008 * h.
Proof.
  intros Hh -> H.
  apply rbind_ok in H. destruct H as (dy & g1 & Hd & H).
  apply ret_ok in H. destruct H as [-> _].
  xnorm_in Hd.
  destruct (@returns_inv _ _ _ _ _ _ _
              (uniform_exact random_sample random_sample_unit _ _) Hd)
    as (u & -> & Hu).
  cbn [snd np_add exact xadd].
  eexists. split; [reflexivity|].
  apply Rabs_le. nra.
Qed.

Lemma segment_heights_exact (cx w h bby tty th twb : R) (k : nat) (g : rng)
  (p : @patch xreal) (g' : rng) :
  0 <= h ->
  segment random_sample choice_index (Fin cx) (Fin w) (Fin h) (Fin bby)
          (Fin tty) (Fin th) (Fin twb) (Z.of_nat k) g = Ok (p, g') ->
  let yb := bby + INR k / 15 * (tty - bby) in
  let yt := yb + th / 15 * 1.4 in
  exists pts c a,
    p = MPLPolygon pts c a 2
    /\ Forall (fun p => exists y, snd p = Fin y /\ Rabs (y - yt) <= 0.008 * h)
              (firstn 5 (skipn 15 pts))
    /\ Forall (fun p => exists y, snd p = Fin y /\ Rabs (y - yb) <= 0.008 * h)
              (skipn 35 pts).
Proof.
  intros Hh H yb yt.
  unfold segment, n_segments, n_edge_pts in H.
  apply rbind_ok in H. destruct H as (l1 & g1 & H1 & H).
  apply rbind_ok in H. destruct H as (l2 & g2 & H2 & H).
  apply rbind_ok in H. destruct H as (l3 & g3 & H3 & H).
  apply rbind_ok in H. destruct H as (l4 & g4 & H4 & H).
  pose proof (for_each_length _ _ _ H1) as L1.
  pose proof (for_each_length _ _ _ H2) as L2.
  pose proof (for_each_length _ _ _ H3) as L3.
  pose proof (for_each_length _ _ _ H4) as L4.
  change (length (py_range 0 15 1)) with 15%nat in L1.
  change (length (py_range 0 5 1)) with 5%nat in L2.
  change (length (py_range (15 - 1) (-1) (-1))) with 15%nat in L3.
  change (length (py_range 5 0 (-1))) with 5%nat in L4.
  destruct (segment_pts_edges l1 l2 l3 l4 L1 L2 L3 L4)
    as (_ & Htop & Hbottom).
  assert (F2 : Forall (fun p : xreal * xreal =>
                         exists y, snd p = Fin y
                                   /\ Rabs (y - yt) <= 0.008 * h) l2).
  { refine (for_each_Forall _ _ _ _ _ H2).
    intros i g0 q g5 _ Hq.
    refine (@edge_vertex_height h _ _ _ _ _ yt Hh _ Hq).
    xnorm. rewrite <- INR_IZR_INZ. unfold yt, yb. f_equal; lra. }
  assert (F4 : Forall (fun p : xreal * xreal =>
                         exists y, snd p = Fin y
                                   /\ Rabs (y - yb) <= 0.008 * h) l4).
  { refine (for_each_Forall _ _ _ _ _ H4).
    intros i g0 q g5 _ Hq.
    refine (@edge_vertex_height h _ _ _ _ _ yb Hh _ Hq).
    xnorm. rewrite <- INR_IZR_INZ. unfold yb. f_equal; lra. }
  destruct (Z.eqb (Z.of_nat k mod 2) 0);
    apply rbind_ok in H; destruct H as (c & g5 & _ & H);
    apply ret_ok in H; destruct H as [-> _];
    do 3 eexists; (split; [reflexivity|]);
    rewrite Htop, Hbottom; auto.
Qed.

(** X20: for finite bounds with [y0 < y1] and draws in [0, 1), the tree is
    drawn and in its polygon 3 + k, [k < 15], the five vertices of the top
    edge are within [0.008 h] of the height [yt] and the five of the bottom
    edge within [0.008 h] of [yb], where [yb] is [k] fifteenths of the way
    from the foot of the branches to the upper limit of the y axis and
    [yt = yb + 1.4 * 1.1 h / 15].  So the top edge of a segment is above the
    bottom edge of the next one, and the top edge of the last segment is
    above the centre of the star, [0.015 h] over the upper limit of the
    axis. *)
Theorem segment_edges_heights :
  forall (g : rng) (x0 x1 y0 y1 : R) (k : nat),
    y0 < y1 -> (k < 15)%nat ->
    let h := y1 - y0 in
    let yhi := y1 + 0.05 * h in
    let yb := y0 - 0.05 * h + 0.12 * h + INR k / 15 * (0.98 * h) in
    let yt := yb + 1.4 * (1.1 * h) / 15 in
    (exists patches g' pts c a,
       tree_patches random_sample choice_index g
         (Fin x0, Fin x1, Fin y0, Fin y1) = Ok (patches, g')
       /\ nth_error patches (3 + k) = Some (MPLPolygon pts c a 2)
       /\ Forall (fun p => exists y,
                     snd p = Fin y /\ Rabs (y - yt) <= 0.008 * h)
                 (firstn 5 (skipn 15 pts))
       /\ Forall (fun p => exists y,
                     snd p = Fin y /\ Rabs (y - yb) <= 0.008 * h)
                 (skipn 35 pts))
    /\ yb + 0.98 * h / 15 + 0.008 * h < yt - 0.008 * h
    /\ (k = 14%nat -> yhi + 0.015 * h < yt - 0.008 * h).
Proof.
  intros g x0 x1 y0 y1 k Hy Hk h yhi yb yt.
  split; [|split].
  - destruct (tree_patches_returns_exact random_sample choice_index
                random_sample_unit g x0 x1 y0 y1) as (patches & g' & Hrun).
    destruct (tree_patches_parts_exact random_sample choice_index g
                x0 x1 y0 y1 Hrun)
      as (segs & needles & orns & E & L1 & _ & _ & Hsegs & _ & _).
    destruct (nth_error segs k) as [p|] eqn:Hp;
      [|apply nth_error_None in Hp; lia].
    destruct (Hsegs k p Hp) as (g0 & g1 & Hb).
    assert (Hh : 0 <= y1 - y0) by lra.
    destruct (@segment_heights_exact _ _ _ _ _ _ _ _ _ _ _ Hh Hb)
      as (pts & c & a & -> & Htop & Hbottom).
    exists patches, g', pts, c, a.
    split; [exact Hrun|].
    split; [|split].
    + rewrite E.
      rewrite nth_error_app2 by (cbn [map length]; lia).
      rewrite nth_error_app1 by (cbn [map length]; lia).
      rewrite <- Hp. f_equal. cbn [map length]. lia.
    + eapply Forall_impl; [|exact Htop].
      intros p (y & Ey & Hbd). exists y. split; [exact Ey|].
      unfold yt, yb, h.
      match goal with
      | |- Rabs (y - ?t) <= _ =>
          match type of Hbd with
          | Rabs (y - ?t') <= _ => replace t with t' by lra
          end
      end.
      exact Hbd.
    + eapply Forall_impl; [|exact Hbottom].
      intros p (y & Ey & Hbd). exists y. split; [exact Ey|].
      unfold yb, h.
      match goal with
      | |- Rabs (y - ?t) <= _ =>
          match type of Hbd with
          | Rabs (y - ?t') <= _ => replace t with t' by lra
          end
      end.
      exact Hbd.
  - unfold yt, yb, h. lra.
  - intros ->. unfold yt, yb, yhi, h. simpl INR. lra.
Qed.

End TreeHeights.

Lemma segment_edges_heights_witness :
  exists patches g' pts c a,
    tree_patches (fun g : unit => (Fin (1 / 2), g))
                 (fun (_ : nat) (g : unit) => (0%nat, g)) tt
                 (Fin 102, Fin 110, Fin 8, Fin 24) = Ok (patches, g')
    /\ nth_error patches 17 = Some (MPLPolygon pts c a 2)
    /\ (24 + 0.05 * (24 - 8) + 0.015 * (24 - 8)
        < 8 - 0.05 * (24 - 8) + 0.12 * (24 - 8)
          + INR 14 / 15 * (0.98 * (24 - 8)) + 1.4 * (1.1 * (24 - 8)) / 15
          - 0.008 * (24 - 8))%R.
Proof.
  assert (Hu : forall g : unit,
             exists u, fst (Fin (1 / 2), g) = Fin u /\ (0 <= u < 1)%R).
  { intro g. exists (1 / 2)%R. split; [reflexivity | lra]. }
  destruct (@segment_edges_heights unit
              (fun g : unit => (Fin (1 / 2), g))
              (fun (_ : nat) (g : unit) => (0%nat, g))
              Hu tt 102%R 110%R 8%R 24%R 14%nat)
    as ((patches & g' & pts & c & a & Hrun & H1 & _) & _ & Hstar).
  - lra.
  - lia.
  - exists patches, g', pts, c, a.
    split; [exact Hrun|]. split; [exact H1 | exact (Hstar eq_refl)].
Defined.
